(** * tsdb: an object time series store on a relational backend

    A shallow embedding of [tsdb.js] (Rutio AB) and the properties of its
    specification.

    Conventions of the embedding.

    - JavaScript values are the inductive [jsval].  A finite number carries
      a rational payload: the store never computes with the numbers it
      records, it copies them.  A [Date] carries its time value, [None]
      being the invalid date whose [getTime()] is [NaN].
    - An object is the list of its own enumerable properties in
      [Object.keys] order.  Property names that reach [Object.prototype]
      ([__proto__], [hasOwnProperty]) are kept out of the theorems that
      quantify over names by the hypothesis [plain_name].
    - The calls that a write starts are run to completion one after the
      other, in the order the source starts them, and a promise that the
      source does not await still runs inside the call, only its rejection
      being lost ([detached]).  The source fixes no order among the calls
      that [insertCheckedObject] starts together and does not wait for the
      write of a nested object.  So the theorems on reading back what a
      write stored are about flat objects, whose properties are leaves:
      the call awaits the write of each, and no two go to one field.
    - The five queries of a snapshot are sent together and the rows of
      each are merged when its answer arrives: the order of the answers
      is the parameter [answers] of the snapshot functions, a permutation
      of the five partitions that the backend chooses.
    - The backend holds the five tables of one prefix, the first that
      [initialize] binds; binding another prefix is not represented.  A
      table is the list of its rows in insertion order together with its
      AUTO_INCREMENT counter.  A [WHERE] clause is a filter, [ORDER BY] a
      stable sort, [LIMIT] a prefix.  A query whose interpolated number is
      not finite is refused by the backend ([BackendFailure]).
    - [JSON.stringify] and [JSON.parse] belong to the host and are
      parameters of the development. *)

From Stdlib Require Import List String Ascii ZArith QArith Bool Lia.
From Stdlib Require Import Permutation Sorted.
From Stdlib Require Import DecimalString.
Import ListNotations.

Local Open Scope string_scope.
Local Open Scope Z_scope.

Set Implicit Arguments.
Set Warnings "-register-all".

(* ------------------------------------------------------------------ *)
(** ** JavaScript values *)

Inductive jsnum : Type :=
| Fin (q : Q)
| NaN
| Infinity (negative : bool).

Inductive jsval : Type :=
| VUndefined
| VNull
| VBool (b : bool)
| VNum (n : jsnum)
| VStr (s : string)
| VDate (t : option Z)
| VArr (elts : list jsval)
| VObj (props : list (string * jsval))
| VFun (props : list (string * jsval)).

Definition jsint (z : Z) : jsval := VNum (Fin (inject_Z z)).

(** [typeof v] *)
Definition typeof (v : jsval) : string :=
  match v with
  | VUndefined => "undefined"
  | VNull => "object"
  | VBool _ => "boolean"
  | VNum _ => "number"
  | VStr _ => "string"
  | VDate _ | VArr _ | VObj _ => "object"
  | VFun _ => "function"
  end.

(** ToBoolean: what [if (v)], [!v] and [v ? a : b] test. *)
Definition truthy (v : jsval) : bool :=
  match v with
  | VUndefined | VNull => false
  | VBool b => b
  | VNum (Fin q) => negb (Qeq_bool q 0)
  | VNum NaN => false
  | VNum (Infinity _) => true
  | VStr s => negb (String.eqb s "")
  | VDate _ | VArr _ | VObj _ | VFun _ => true
  end.

(** [isDate] of [util/types] *)
Definition isDate (v : jsval) : bool :=
  match v with VDate _ => true | _ => false end.

Definition isFinite (n : jsnum) : bool :=
  match n with Fin _ => true | _ => false end.

(** [Number.isInteger] *)
Definition Number_isInteger (v : jsval) : bool :=
  match v with
  | VNum (Fin q) => Pos.eqb (Qden (Qred q)) 1
  | _ => false
  end.

(** [new Date(v)] for the arguments the store passes: the numbers read
    from a BIGINT column.  The time value is clipped as ECMAScript's
    TimeClip does.  Date strings are not parsed here. *)
Definition TimeClip (q : Q) : option Z :=
  let t := Z.quot (Qnum q) (Z.pos (Qden q)) in
  if Z.abs t <=? 8640000000000000 then Some t else None.

Definition new_Date (v : jsval) : jsval :=
  match v with
  | VNum (Fin q) => VDate (TimeClip q)
  | VDate t => VDate t
  | VNull => VDate (Some 0)
  | VBool b => VDate (Some (if b then 1 else 0))
  | _ => VDate None
  end.

(** Decimal index names of an array: ["0"], ["1"], ... *)
Definition index_name (i : nat) : string :=
  NilZero.string_of_uint (Nat.to_uint i).

Definition len (s : string) : Z := Z.of_nat (String.length s).

(* ------------------------------------------------------------------ *)
(** ** Errors and the store monad *)

(** One constructor per [throw] of the source, and the host's and the
    backend's failures. *)
Inductive error : Type :=
| NotInitialized        (* tsdb: Call initialize before accessing tables *)
| BadPrefix             (* tsdb: no table prefix *)
| BadTimestamp          (* tsdb: timestamp of type ... is not a date *)
| BadNode               (* tsdb: node ... / invalid format for node *)
| BadField              (* tsdb: field ... is not a string or has bad length *)
| BadLimit              (* tsdb: limit must be a natural number, less than 10001 *)
| BadWhen               (* tsdb: when must be a date *)
| NotAnObject           (* tsdb: inserted object is not an object *)
| ValueTooLarge         (* tsdb: String value ... exceeds max length *)
| UnsupportedType       (* tdsb: no support for value of type ... *)
| StructuralConflict    (* tsdb: the object has value and object at same location *)
| Unrepresented         (* an outcome this embedding does not represent *)
| ConfirmationRequired  (* tsdb: do not delete if not sure *)
| TypeError             (* raised by the host *)
| SyntaxError           (* raised by JSON.parse *)
| BackendFailure.       (* raised by the storage backend *)

Inductive outcome (A : Type) : Type :=
| Ok (a : A)
| Err (e : error).
Arguments Ok {A} a.
Arguments Err {A} e.

Definition is_ok {A} (r : outcome A) : bool :=
  match r with Ok _ => true | Err _ => false end.

(** The partitions: the keys of [TS_TABLES] in their order. *)
Inductive ty : Type := Tstring | Tnumber | Tarray | Tdate | Tboolean.

Definition ty_eqb (a b : ty) : bool :=
  match a, b with
  | Tstring, Tstring | Tnumber, Tnumber | Tarray, Tarray
  | Tdate, Tdate | Tboolean, Tboolean => true
  | _, _ => false
  end.

Record row : Type := mkRow {
  row_id : Z;
  row_node : jsval;
  row_value : jsval;
  row_field : string;
  row_timestamp : Z;
  row_latest : Z
}.

Record table : Type := mkTable {
  rows : list row;
  auto_increment : Z
}.

Record store : Type := mkStore {
  tsdbTablePrefix : option string;
  ts_string : table;
  ts_number : table;
  ts_array : table;
  ts_date : table;
  ts_boolean : table
}.

Definition get_table (t : ty) (st : store) : table :=
  match t with
  | Tstring => ts_string st
  | Tnumber => ts_number st
  | Tarray => ts_array st
  | Tdate => ts_date st
  | Tboolean => ts_boolean st
  end.

Definition set_table (t : ty) (tb : table) (st : store) : store :=
  match t with
  | Tstring => mkStore (tsdbTablePrefix st) tb (ts_number st) (ts_array st) (ts_date st) (ts_boolean st)
  | Tnumber => mkStore (tsdbTablePrefix st) (ts_string st) tb (ts_array st) (ts_date st) (ts_boolean st)
  | Tarray => mkStore (tsdbTablePrefix st) (ts_string st) (ts_number st) tb (ts_date st) (ts_boolean st)
  | Tdate => mkStore (tsdbTablePrefix st) (ts_string st) (ts_number st) (ts_array st) tb (ts_boolean st)
  | Tboolean => mkStore (tsdbTablePrefix st) (ts_string st) (ts_number st) (ts_array st) (ts_date st) tb
  end.

(** A computation on the store: it always leaves a store, also when it
    fails, since nothing is rolled back. *)
Definition M (A : Type) : Type := store -> store * outcome A.

Definition ret {A} (a : A) : M A := fun st => (st, Ok a).
Definition throw {A} (e : error) : M A := fun st => (st, Err e).
Definition bind {A B} (m : M A) (k : A -> M B) : M B :=
  fun st =>
    match m st with
    | (st', Ok a) => k a st'
    | (st', Err e) => (st', Err e)
    end.

Declare Scope tsdb_scope.
Delimit Scope tsdb_scope with tsdb.
Notation "x <- m ;; k" := (bind m (fun x => k))
  (at level 100, m at next level, right associativity) : tsdb_scope.
Notation "m ;;; k" := (bind m (fun _ => k))
  (at level 100, right associativity) : tsdb_scope.
Local Open Scope tsdb_scope.

(** A call whose promise is not awaited: its rejection reaches nobody.
    Its effects are taken to happen inside the call; in the source the
    caller goes on, and may return, while the call is still running. *)
Definition detached {A} (m : M A) : M unit :=
  fun st => (fst (m st), Ok tt).

(** [Promise.all] over calls started in list order: every call runs, the
    first rejection is the one reported.  The calls are taken to run one
    after the other; in the source they are started together, and the
    queries of one may fall between the queries of another. *)
Fixpoint Promise_all {A} (f : A -> M unit) (l : list A) : M unit :=
  fun st =>
    match l with
    | [] => (st, Ok tt)
    | x :: l' =>
        let (st1, r1) := f x st in
        let (st2, r2) := Promise_all f l' st1 in
        (st2, match r1 with Ok _ => r2 | Err e => Err e end)
    end.

(** A loop that stops at the first failure. *)
Fixpoint foldM {A B} (f : B -> A -> M B) (l : list A) (b : B) : M B :=
  match l with
  | [] => ret b
  | x :: l' => b' <- f b x ;; foldM f l' b'
  end.

(* ------------------------------------------------------------------ *)
(** ** Constants and the partition router *)

Definition MAX_ID_SIZE : Z := 128.
Definition MAX_FIELD_SIZE : Z := 512.
Definition MAX_STRING_SIZE : Z := 4096.
Definition MAX_ARRAY_SIZE : Z := 16384.

Definition TS_TABLES : list (ty * string) :=
  [ (Tstring, "ts_string"); (Tnumber, "ts_number"); (Tarray, "ts_array");
    (Tdate, "ts_date"); (Tboolean, "ts_boolean") ].

(** [Object.keys(TS_TABLES)] *)
Definition types : list ty := map fst TS_TABLES.

Definition table_suffix (t : ty) : string :=
  match t with
  | Tstring => "ts_string" | Tnumber => "ts_number" | Tarray => "ts_array"
  | Tdate => "ts_date" | Tboolean => "ts_boolean"
  end.

(** A resolved table: its name and the partition it names. *)
Record tableref : Type := mkRef { ref_name : string; ref_type : ty }.

Definition getTableForType (t : ty) : M tableref :=
  fun st =>
    match tsdbTablePrefix st with
    | None => (st, Err NotInitialized)
    | Some p =>
        if String.eqb p "" then (st, Err NotInitialized)
        else (st, Ok (mkRef (p ++ "_" ++ table_suffix t) t))
    end.

(** [lock]/[unlock]: resolving the five tables can fail; the LOCK TABLES
    statement itself leaves every table as it is. *)
Definition lock : M unit :=
  foldM (fun (_ : unit) t => _ <- getTableForType t ;; ret tt) types tt.

Definition unlock : M unit := ret tt.

(* ------------------------------------------------------------------ *)
(** ** The storage backend *)

(** Equality of a stored node with an interpolated node literal.  The
    [node] column holds text, so the backend keeps a number node as its
    text; the embedding keeps the node as it was given, and a number and
    the string of its text are two nodes here. *)
Definition node_eqb (a b : jsval) : bool :=
  match a, b with
  | VNum (Fin x), VNum (Fin y) => Qeq_bool x y
  | VStr x, VStr y => String.eqb x y
  | _, _ => false
  end.

(** Interpolated literals: a number that is not finite is no SQL literal. *)
Definition sql_node (node : jsval) : M jsval :=
  match node with
  | VNum n => if isFinite n then ret node else throw BackendFailure
  | _ => ret node
  end.

Definition sql_timestamp (timestamp_ms : option Z) : M Z :=
  match timestamp_ms with
  | Some t => ret t
  | None => throw BackendFailure
  end.

(** [SELECT ... FROM table WHERE cond] *)
Definition sqlapi_select (table : tableref) (cond : row -> bool) : M (list row) :=
  fun st => (st, Ok (filter cond (rows (get_table (ref_type table) st)))).

(** [sqlapi.insert(table, values)]: the new row takes the table's next
    AUTO_INCREMENT value, which is returned. *)
Definition sqlapi_insert (table : tableref) (node value : jsval)
    (field : string) (timestamp latest : Z) : M Z :=
  fun st =>
    let tb := get_table (ref_type table) st in
    let id := auto_increment tb in
    let r := mkRow id node value field timestamp latest in
    (set_table (ref_type table) (mkTable (rows tb ++ [r]) (id + 1)) st, Ok id).

(** [UPDATE table SET latest=0 WHERE cond] *)
Definition sqlapi_update_latest0 (table : tableref) (cond : row -> bool) : M unit :=
  fun st =>
    let tb := get_table (ref_type table) st in
    let upd r :=
      if cond r
      then mkRow (row_id r) (row_node r) (row_value r) (row_field r) (row_timestamp r) 0
      else r in
    (set_table (ref_type table) (mkTable (map upd (rows tb)) (auto_increment tb)) st, Ok tt).

(** [DELETE FROM table WHERE cond] *)
Definition sqlapi_delete (table : tableref) (cond : row -> bool) : M unit :=
  fun st =>
    let tb := get_table (ref_type table) st in
    (set_table (ref_type table)
       (mkTable (filter (fun r => negb (cond r)) (rows tb)) (auto_increment tb)) st,
     Ok tt).

(** [ORDER BY timestamp]: a stable insertion sort. *)
Section OrderBy.
Variable before : Z -> Z -> bool.

Fixpoint place (r : row) (l : list row) : list row :=
  match l with
  | [] => [r]
  | x :: l' =>
      if before (row_timestamp x) (row_timestamp r)
      then x :: place r l'
      else r :: l
  end.

Definition order_by (l : list row) : list row :=
  fold_left (fun acc r => place r acc) l [].
End OrderBy.

Definition order_by_timestamp_asc : list row -> list row := order_by Z.leb.
Definition order_by_timestamp_desc : list row -> list row := order_by Z.geb.

(* ------------------------------------------------------------------ *)
(** ** The latest-pointer maintainer *)

Definition morerecents (table : tableref) (node : jsval) (field : string)
    (timestamp_ms : option Z) : M (list Z) :=
  n <- sql_node node ;;
  t <- sql_timestamp timestamp_ms ;;
  found <- sqlapi_select table (fun r =>
             node_eqb (row_node r) n && (t <? row_timestamp r)
             && String.eqb (row_field r) field && (row_latest r =? 1)) ;;
  ret (map row_id found).

Definition checkIsLatest (table : tableref) (node : jsval) (field : string)
    (timestamp_ms : option Z) : M Z :=
  morerecent <- morerecents table node field timestamp_ms ;;
  if (0 <? Z.of_nat (List.length morerecent)) then ret 0 else ret 1.

(** [latest] is the fifth argument as the caller passed it: a number, or
    [VUndefined] when the caller passed four arguments. *)
Definition setIsLatest (table : tableref) (node : jsval) (field : string)
    (id : Z) (latest : jsval) : M unit :=
  if negb (truthy latest) then ret tt
  else
    n <- sql_node node ;;
    sqlapi_update_latest0 table (fun r =>
      node_eqb (row_node r) n && String.eqb (row_field r) field
      && (row_latest r =? 1) && negb (row_id r =? id)).

Definition getTime (d : jsval) : M (option Z) :=
  match d with
  | VDate t => ret t
  | _ => throw TypeError
  end.

(* ------------------------------------------------------------------ *)
(** ** Writing *)

Definition isNode (node : jsval) : bool :=
  match node with
  | VNum _ => true
  | VStr s => (0 <? len s) && (len s <? MAX_ID_SIZE)
  | _ => false
  end.

(** The own enumerable properties of a value, in [Object.keys] order. *)
Definition entries (value : jsval) : list (string * jsval) :=
  match value with
  | VUndefined | VNull | VBool _ | VNum _ | VDate _ => []
  | VStr s =>
      map (fun i => (index_name i, VStr (String.substring i 1 s)))
        (seq 0 (String.length s))
  | VArr elts => combine (map index_name (seq 0 (List.length elts))) elts
  | VObj props | VFun props => props
  end.

Section Host.

(** The host's JSON codec.  [JSON_parse] answers [None] where
    [JSON.parse] throws a SyntaxError. *)
Variable JSON_stringify : jsval -> string.
Variable JSON_parse : string -> option jsval.

Definition insertCheckedNumber (node : jsval) (field : string)
    (value timestamp : jsval) : M Z :=
  timestamp_ms <- getTime timestamp ;;
  table <- getTableForType Tnumber ;;
  latest <- checkIsLatest table node field timestamp_ms ;;
  t <- sql_timestamp timestamp_ms ;;
  result <- sqlapi_insert table node value field t latest ;;
  (* setIsLatest(...) is not awaited here *)
  detached (setIsLatest table node field result (jsint latest)) ;;;
  ret result.

Definition insertCheckedBoolean (node : jsval) (field : string)
    (value timestamp : jsval) : M Z :=
  timestamp_ms <- getTime timestamp ;;
  table <- getTableForType Tboolean ;;
  latest <- checkIsLatest table node field timestamp_ms ;;
  t <- sql_timestamp timestamp_ms ;;
  result <- sqlapi_insert table node (jsint (if truthy value then 1 else 0))
              field t latest ;;
  (* setIsLatest(...) is not awaited here *)
  detached (setIsLatest table node field result (jsint latest)) ;;;
  ret result.

Definition insertCheckedString (node : jsval) (field : string)
    (value : string) (timestamp : jsval) : M Z :=
  timestamp_ms <- getTime timestamp ;;
  if MAX_STRING_SIZE <? len value then throw ValueTooLarge
  else
    table <- getTableForType Tstring ;;
    latest <- checkIsLatest table node field timestamp_ms ;;
    t <- sql_timestamp timestamp_ms ;;
    result <- sqlapi_insert table node (VStr value) field t latest ;;
    setIsLatest table node field result (jsint latest) ;;;
    ret result.

Definition insertCheckedArray (node : jsval) (field : string)
    (value timestamp : jsval) : M Z :=
  timestamp_ms <- getTime timestamp ;;
  let representation := JSON_stringify value in
  if MAX_ARRAY_SIZE <? len representation then throw ValueTooLarge
  else
    table <- getTableForType Tarray ;;
    latest <- checkIsLatest table node field timestamp_ms ;;
    t <- sql_timestamp timestamp_ms ;;
    result <- sqlapi_insert table node (VStr representation) field t latest ;;
    setIsLatest table node field result (jsint latest) ;;;
    ret result.

Definition insertCheckedDate (node : jsval) (field : string)
    (value timestamp : jsval) : M Z :=
  timestamp_ms <- getTime timestamp ;;
  value_ms <- getTime value ;;
  table <- getTableForType Tdate ;;
  latest <- checkIsLatest table node field timestamp_ms ;;
  t <- sql_timestamp timestamp_ms ;;
  v <- sql_timestamp value_ms ;;
  result <- sqlapi_insert table node (jsint v) field t latest ;;
  (* setIsLatest(table, node, field, result): the fifth argument is missing *)
  setIsLatest table node field result VUndefined ;;;
  ret result.

(** [insert].  The last test of the source's chain is
    [typeof(value == 'object')], the string ["boolean"], which is
    truthy: every value that is no finite number, string, boolean, date
    or array takes the object branch, and the final [throw] is never
    reached.  The object branch does not await [insertCheckedObject],
    whose loop over [Object.keys(value)] is written out here:
    [Object.keys] of a number that is not finite is empty, and of
    [undefined] or [null] it throws inside the lost promise. *)
Fixpoint insert (node : jsval) (field : string) (value timestamp : jsval)
    {struct value} : M unit :=
  if negb (isDate timestamp) then throw BadTimestamp
  else if negb (isNode node) then throw BadNode
  else if (len field =? 0) || (MAX_FIELD_SIZE <? len field) then throw BadField
  else
    match value with
    | VNum (Fin _) => _ <- insertCheckedNumber node field value timestamp ;; ret tt
    | VStr s => _ <- insertCheckedString node field s timestamp ;; ret tt
    | VBool _ => _ <- insertCheckedBoolean node field value timestamp ;; ret tt
    | VDate _ => _ <- insertCheckedDate node field value timestamp ;; ret tt
    | VArr _ => _ <- insertCheckedArray node field value timestamp ;; ret tt
    | VObj props | VFun props =>
        detached (Promise_all
                    (fun kv => insert node (field ++ "." ++ fst kv) (snd kv) timestamp)
                    props)
    | VNum _ => detached (ret tt)
    | VUndefined | VNull => detached (throw (A:=unit) TypeError)
    end.

(** [Object.keys(value)] paired with [value[key]], which throws on
    [undefined] and [null]. *)
Definition own_entries (value : jsval) : M (list (string * jsval)) :=
  match value with
  | VUndefined | VNull => throw TypeError
  | _ => ret (entries value)
  end.

Definition insertCheckedObject (node : jsval) (field : string)
    (value timestamp : jsval) : M unit :=
  fields <- own_entries value ;;
  Promise_all (fun kv => insert node (field ++ "." ++ fst kv) (snd kv) timestamp)
    fields.

Definition insertObject (node value timestamp : jsval) : M unit :=
  if negb (String.eqb (typeof value) "object") then throw NotAnObject
  else
    lock ;;;
    insertCheckedObject node "" value timestamp.

(** [initialize].  The store holds the tables of one prefix: the first
    binding gives them their names ([createTables] keeps a table that is
    there and creates one that is not, empty), and binding the same
    prefix again changes nothing.  Binding another prefix switches to
    other tables, which the store does not hold. *)
Definition initialize (prefix : jsval) : M unit :=
  match prefix with
  | VStr p =>
      if String.length p =? 0 then throw BadPrefix
      else fun st =>
        match tsdbTablePrefix st with
        | None =>
            (mkStore (Some p) (ts_string st) (ts_number st) (ts_array st)
               (ts_date st) (ts_boolean st), Ok tt)
        | Some p' =>
            if String.eqb p' p then (st, Ok tt) else (st, Err Unrepresented)
        end
  | _ => throw BadPrefix
  end%nat.

End Host.

(* ------------------------------------------------------------------ *)
(** ** Objects used as maps, sorting and splitting *)

Section OwnProperties.
Variable A : Type.

(** [o.hasOwnProperty(k)] and [o[k]] on own properties *)
Fixpoint get_own (k : string) (o : list (string * A)) : option A :=
  match o with
  | [] => None
  | (k', v) :: o' => if String.eqb k' k then Some v else get_own k o'
  end.

(** Writing an own property: an existing one keeps its place, a new
    one comes last. *)
Fixpoint set_own (k : string) (v : A) (o : list (string * A)) : list (string * A) :=
  match o with
  | [] => [(k, v)]
  | (k', v') :: o' =>
      if String.eqb k' k then (k, v) :: o' else (k', v') :: set_own k v o'
  end.

(** [o[k] = v] for an object [v] on an object that inherits from
    [Object.prototype]: the name [__proto__] reaches the prototype's
    setter and creates no own property. *)
Definition js_assign (k : string) (v : A) (o : list (string * A)) : list (string * A) :=
  if String.eqb k "__proto__" then o else set_own k v o.
End OwnProperties.

(** [Array.prototype.sort()] on strings: ascending code unit order. *)
Fixpoint place_string (s : string) (l : list string) : list string :=
  match l with
  | [] => [s]
  | x :: l' => if String.leb x s then x :: place_string s l' else s :: l
  end.

Definition sort_strings (l : list string) : list string :=
  fold_left (fun acc s => place_string s acc) l [].

(** [s.split(sep)] for a one-character separator *)
Fixpoint split (sep : ascii) (s : string) : list string :=
  match s with
  | EmptyString => [EmptyString]
  | String c s' =>
      if Ascii.eqb c sep then EmptyString :: split sep s'
      else match split sep s' with
           | [] => [String c EmptyString]
           | h :: t => String c h :: t
           end
  end.

Definition dot : ascii := "."%char.

(* ------------------------------------------------------------------ *)
(** ** Reading *)

(** An entry of [mapLatest]: [{value, type, timestamp}] *)
Record entry : Type := mkEntry {
  entry_value : jsval;
  entry_type : ty;
  entry_timestamp : Z
}.

(** A row returned by [getSeries]: [{value, timestamp}] *)
Record series_row : Type := mkSeries {
  series_value : jsval;
  series_timestamp : jsval
}.

Definition lift {A} (r : outcome A) : M A := fun st => (st, r).

Fixpoint mapR {A B} (f : A -> outcome B) (l : list A) : outcome (list B) :=
  match l with
  | [] => Ok []
  | x :: l' =>
      match f x with
      | Err e => Err e
      | Ok y => match mapR f l' with
                | Err e => Err e
                | Ok ys => Ok (y :: ys)
                end
      end
  end.

Section HostRead.

(** [JSON.parse] on the value read from a TEXT column; [None] where it
    throws. *)
Variable JSON_parse : jsval -> option jsval.

(** The value codec's decode rules *)
Definition decode (type : ty) (value : jsval) : outcome jsval :=
  match type with
  | Tnumber | Tstring => Ok value
  | Tboolean => Ok (VBool (truthy value))
  | Tdate => Ok (new_Date value)
  | Tarray =>
      match JSON_parse value with
      | Some v => Ok v
      | None => Err SyntaxError
      end
  end.

(** The leaf [{value, timestamp}] that [convertToObject] stores *)
Definition leaf (value timestamp : jsval) : jsval :=
  VObj [("value", value); ("timestamp", timestamp)].

(** The walk of [convertToObject] along [path[1..length-2]], then the
    decoding of the leaf, then the write at [path[length-1]], on the
    properties of [o].  The source walks by reference and writes in
    place; here the changed child is put back where it was.  A property
    written on an array or on a date is an outcome this embedding does
    not represent. *)
Fixpoint assign_path (interior : list string) (last : string)
    (lf : outcome jsval) (o : list (string * jsval))
    : outcome (list (string * jsval)) :=
  match interior with
  | [] =>
      match lf with
      | Ok v => Ok (js_assign last v o)
      | Err e => Err e
      end
  | field :: rest =>
      match get_own "hasOwnProperty" o with
      | Some _ => Err TypeError            (* o.hasOwnProperty is not a function *)
      | None =>
          match get_own field o with
          | Some (VObj child) =>
              match assign_path rest last lf child with
              | Ok child' => Ok (set_own field (VObj child') o)
              | Err e => Err e
              end
          | Some VNull =>
              (* o is null: the next o.hasOwnProperty throws; after the
                 last step the leaf is decoded first, then the write
                 throws *)
              match rest, lf with
              | [], Err e => Err e
              | _, _ => Err TypeError
              end
          | Some (VDate _) | Some (VArr _) => Err Unrepresented
          | Some _ => Err StructuralConflict
          | None =>
              match assign_path rest last lf [] with
              | Ok tmp => Ok (js_assign field (VObj tmp) o)
              | Err e => Err e
              end
          end
      end
  end.

(** [path.slice(1, -1)] and [path[path.length-1]] *)
Definition interior_of (path : list string) : list string :=
  removelast (tl path).
Definition last_of (path : list string) : string :=
  last path "".

(** The body of the loop of [convertToObject] for one key.  The type of
    an entry is one of the five partitions, so the source's last
    [throw] (Cannot convert) has no counterpart. *)
Definition convert_key (mapObject : list (string * entry))
    (result : list (string * jsval)) (key : string)
    : outcome (list (string * jsval)) :=
  match get_own key mapObject with
  | None => Err TypeError
  | Some e =>
      let path := split dot key in
      let timestamp := new_Date (jsint (entry_timestamp e)) in
      assign_path (interior_of path) (last_of path)
        (match decode (entry_type e) (entry_value e) with
         | Ok v => Ok (leaf v timestamp)
         | Err err => Err err
         end)
        result
  end.

Fixpoint convert_keys (mapObject : list (string * entry)) (keys : list string)
    (result : list (string * jsval)) : outcome (list (string * jsval)) :=
  match keys with
  | [] => Ok result
  | key :: keys' =>
      match convert_key mapObject result key with
      | Ok result' => convert_keys mapObject keys' result'
      | Err e => Err e
      end
  end.

Definition convertToObject (mapObject : list (string * entry)) : outcome jsval :=
  let keys := sort_strings (map fst mapObject) in
  match convert_keys mapObject keys [] with
  | Ok result => Ok (VObj result)
  | Err e => Err e
  end.

(** The two conditions that the callers interpolate in the query of
    [synthesizeObjectParameterized]: ["timestamp<=" + date_ms] and
    ["latest<>0"]. *)
Inductive condition : Type :=
| TimestampLe (date_ms : option Z)
| LatestNonzero.

Definition sql_condition (c : condition) : M (row -> bool) :=
  match c with
  | TimestampLe date_ms =>
      t <- sql_timestamp date_ms ;; ret (fun r => row_timestamp r <=? t)
  | LatestNonzero => ret (fun r => negb (row_latest r =? 0))
  end.

(** The query of one partition in [synthesizeObjectParameterized] and
    the loop that stores its rows in [mapLatest]. *)
Definition asyncpart (node : jsval) (condition : condition)
    (mapLatest : list (string * entry)) (type : ty) : M (list (string * entry)) :=
  table <- getTableForType type ;;
  n <- sql_node node ;;
  cond <- sql_condition condition ;;
  found <- sqlapi_select table (fun r => node_eqb (row_node r) n && cond r) ;;
  ret (fold_left
         (fun m r => js_assign (row_field r)
                       (mkEntry (row_value r) type (row_timestamp r)) m)
         (order_by_timestamp_asc found) mapLatest).

(** [synthesizeObjectParameterized].  The source starts the queries of
    the five partitions together and awaits them all; each [asyncpart]
    writes its rows into [mapLatest] when its own answer is there.
    [answers] lists the partitions in the order in which the backend
    answers. *)
Definition synthesizeObjectParameterized (answers : list ty) (node : jsval)
    (condition : condition) : M jsval :=
  if negb (isNode node) then throw BadNode
  else
    mapLatest <- foldM (asyncpart node condition) answers [] ;;
    lift (convertToObject mapLatest).

Definition synthesizeObjectAt (answers : list ty) (node date : jsval) : M jsval :=
  lock ;;;
  date_ms <- getTime date ;;
  synthesizeObjectParameterized answers node (TimestampLe date_ms).

Definition synthesizeObject (answers : list ty) (node : jsval) : M jsval :=
  lock ;;;
  synthesizeObjectParameterized answers node LatestNonzero.

Definition updateValueTypes (type : ty) (found : list row)
    : outcome (list series_row) :=
  mapR (fun r =>
          match decode type (row_value r) with
          | Ok v => Ok (mkSeries v (new_Date (jsint (row_timestamp r))))
          | Err e => Err e
          end) found.

Definition valid_limit (limit : jsval) : bool :=
  match limit with
  | VNum (Fin q) =>
      (* not (!Number.isInteger(limit) || limit < 1 || limit > 10001) *)
      Number_isInteger limit && Qle_bool 1 q && Qle_bool q (inject_Z 10001)
  | _ => false
  end.

Definition limit_rows (limit : jsval) (l : list row) : list row :=
  match limit with
  | VNum (Fin q) => firstn (Z.to_nat (Qnum (Qred q))) l
  | _ => l
  end.

Fixpoint getSeries_loop (node : jsval) (field : string)
    (when_ms : option Z) (limit : jsval) (ts : list ty) : M (list series_row) :=
  match ts with
  | [] => ret []
  | type :: ts' =>
      table <- getTableForType type ;;
      n <- sql_node node ;;
      t <- sql_timestamp when_ms ;;
      found <- sqlapi_select table (fun r =>
                 node_eqb (row_node r) n && String.eqb (row_field r) field
                 && (row_timestamp r <=? t)) ;;
      let found := limit_rows limit (order_by_timestamp_desc found) in
      if (0 <? Z.of_nat (List.length found))
      then lift (updateValueTypes type found)
      else getSeries_loop node field when_ms limit ts'
  end.

Definition getSeries (node field when limit : jsval) : M (list series_row) :=
  if negb (isNode node) then throw BadNode
  else if negb (valid_limit limit) then throw BadLimit
  else
    match field with
    | VStr f =>
        if negb (isDate when) then throw BadWhen
        else
          when_ms <- getTime when ;;
          detached lock ;;;
          getSeries_loop node f when_ms limit types
    | _ => throw BadField
    end.

Fixpoint exists_loop (node : jsval) (ts : list ty) : M bool :=
  match ts with
  | [] => ret false
  | type :: ts' =>
      table <- getTableForType type ;;
      n <- sql_node node ;;
      found <- sqlapi_select table (fun r => node_eqb (row_node r) n) ;;
      if (0 <? Z.of_nat (List.length (firstn 1 found))) then ret true
      else exists_loop node ts'
  end.

(** [exports.exists] *)
Definition exists_ (node : jsval) : M bool :=
  if negb (isNode node) then throw BadNode
  else
    detached lock ;;;
    exists_loop node types.

(** [exports.remove] *)
Definition remove (node sure : jsval) : M unit :=
  if negb (truthy sure) then throw ConfirmationRequired
  else if negb (isNode node) then throw BadNode
  else
    detached lock ;;;
    foldM (fun (_ : unit) type =>
             table <- getTableForType type ;;
             n <- sql_node node ;;
             sqlapi_delete table (fun r => node_eqb (row_node r) n))
      types tt.

End HostRead.

(* ------------------------------------------------------------------ *)
(** ** A host codec for the closed examples

    The JSON text of [null], booleans, integers and arrays of these,
    which is the part of [JSON.stringify] and [JSON.parse] that the
    examples below exercise.  A value outside this part is written as
    [null] and a text outside it is refused. *)

Module HostJSON.

Fixpoint stringify (v : jsval) : string :=
  match v with
  | VBool true => "true"
  | VBool false => "false"
  | VNum (Fin q) =>
      if Pos.eqb (Qden (Qred q)) 1
      then NilZero.string_of_int (Z.to_int (Qnum (Qred q)))
      else "null"
  | VArr elts => "[" ++ String.concat "," (map stringify elts) ++ "]"
  | _ => "null"
  end.

Definition is_number_char (c : ascii) : bool :=
  Ascii.eqb c "-" || ((48 <=? nat_of_ascii c) && (nat_of_ascii c <=? 57))%nat.

Fixpoint span (p : ascii -> bool) (s : string) : string * string :=
  match s with
  | String c s' =>
      if p c then let (a, b) := span p s' in (String c a, b)
      else (EmptyString, s)
  | EmptyString => (EmptyString, EmptyString)
  end.

Definition drop (n : nat) (s : string) : string :=
  String.substring n (String.length s - n) s.

Fixpoint parse_value (fuel : nat) (s : string) : option (jsval * string) :=
  match fuel with
  | O => None
  | S fuel' =>
      if String.prefix "null" s then Some (VNull, drop 4 s)
      else if String.prefix "true" s then Some (VBool true, drop 4 s)
      else if String.prefix "false" s then Some (VBool false, drop 5 s)
      else
        match s with
        | String "[" (String "]" rest) => Some (VArr [], rest)
        | String "[" rest => parse_elements fuel' rest []
        | _ =>
            let (tok, rest) := span is_number_char s in
            match NilZero.int_of_string tok with
            | Some i => Some (jsint (Z.of_int i), rest)
            | None => None
            end
        end
  end
with parse_elements (fuel : nat) (s : string) (acc : list jsval)
    : option (jsval * string) :=
  match fuel with
  | O => None
  | S fuel' =>
      match parse_value fuel' s with
      | Some (v, String "," rest) => parse_elements fuel' rest (acc ++ [v])
      | Some (v, String "]" rest) => Some (VArr (acc ++ [v]), rest)
      | _ => None
      end
  end.

Definition parse (v : jsval) : option jsval :=
  match v with
  | VStr s =>
      match parse_value (2 * String.length s + 2) s with
      | Some (x, EmptyString) => Some x
      | _ => None
      end
  | _ => None
  end.

End HostJSON.

(* ------------------------------------------------------------------ *)
(** ** Stores and objects of the examples *)

Definition empty_table : table := mkTable [] 26264.

(** The store right after [initialize('example')] on an empty database:
    the tables are created with AUTO_INCREMENT=26264. *)
Definition example_store : store :=
  mkStore (Some "example") empty_table empty_table empty_table empty_table
    empty_table.

Definition after {A} (m : M A) (st : store) : store := fst (m st).

(** The object of the README's example *)
Definition readme_object (d : Z) : jsval :=
  VObj [("a", jsint 1); ("b", VStr "Hello"); ("c", VBool true);
        ("d", VDate (Some d)); ("e", VArr [jsint 1; jsint 2; jsint 3])].

(** Two strings written for one field at one instant. *)
Definition tied_store : store :=
  let w v := insertObject HostJSON.stringify (VStr "id-1")
               (VObj [("a", VStr v)]) (VDate (Some 1000)) in
  after (w "second") (after (w "first") example_store).

(** A field written as a boolean at 1000 and as a string at 2000. *)
Definition retyped_store : store :=
  let w v t := insertObject HostJSON.stringify (VStr "id-1")
                 (VObj [("a", v)]) (VDate (Some t)) in
  after (w (VStr "x") 2000) (after (w (VBool true) 1000) example_store).

(* ------------------------------------------------------------------ *)
(** ** Predicates of the statements *)

(** [initialize] has bound a prefix. *)
Definition is_initialized (st : store) : bool :=
  match tsdbTablePrefix st with
  | Some p => negb (String.eqb p "")
  | None => false
  end.

(** A node that [isNode] accepts and that is an SQL literal. *)
Definition valid_node (node : jsval) : bool :=
  isNode node && match node with VNum n => isFinite n | _ => true end.

(** [m] never fails with [e]. *)
Definition never_raises {A} (e : error) (m : M A) : Prop :=
  forall st, snd (m st) <> Err e.

(** The name that an initialized store gives the table of a partition. *)
Definition table_name (t : ty) (st : store) : string :=
  match tsdbTablePrefix st with
  | Some p => p ++ "_" ++ table_suffix t
  | None => ""
  end.

(** The last row of [l] written at [field]. *)
Definition last_at (field : string) (l : list row) : option row :=
  find (fun r => String.eqb (row_field r) field) (rev l).

(** The condition that a [condition] stands for; [TimestampLe None]
    stands for none, the backend refuses it. *)
Definition condition_holds (c : condition) (r : row) : bool :=
  match c with
  | TimestampLe (Some t) => row_timestamp r <=? t
  | TimestampLe None => false
  | LatestNonzero => negb (row_latest r =? 0)
  end.

(** The rows of partition [t] that the query of
    [synthesizeObjectParameterized] selects. *)
Definition matched (node : jsval) (c : condition) (t : ty) (st : store) : list row :=
  filter (fun r => node_eqb (row_node r) node && condition_holds c r)
    (rows (get_table t st)).

(** The rows of partition [t] that the query of [getSeries] returns. *)
Definition series_rows (node : jsval) (field : string) (when_ms : Z)
    (limit : jsval) (t : ty) (st : store) : list row :=
  limit_rows limit
    (order_by_timestamp_desc
       (filter (fun r => node_eqb (row_node r) node
                         && String.eqb (row_field r) field
                         && (row_timestamp r <=? when_ms))
          (rows (get_table t st)))).

(** The rows of [node] in partition [t]. *)
Definition rows_of (node : jsval) (t : ty) (st : store) : list row :=
  filter (fun r => node_eqb (row_node r) node) (rows (get_table t st)).

(** The time value of a date. *)
Definition time_value (v : jsval) : option Z :=
  match v with VDate t => t | _ => None end.

(** The field of a leaf below the keys [ks]: one dot-prefixed segment per
    nesting level. *)
Fixpoint dotted (ks : list string) : string :=
  match ks with
  | [] => ""
  | k :: ks' => "." ++ k ++ dotted ks'
  end.

(** [key_path v ks]: [ks] is a chain of nested property names of [v]. *)
Inductive key_path : jsval -> list string -> Prop :=
| key_path_last v k child :
    In (k, child) (entries v) -> key_path v [k]
| key_path_step v k child ks :
    In (k, child) (entries v) -> key_path child ks -> key_path v (k :: ks).

(** A stored field: nonempty, dot-prefixed, at most 512 characters. *)
Definition field_ok (f : string) : Prop :=
  String.prefix "." f = true /\ 1 <= len f <= MAX_FIELD_SIZE.

Definition stored_fields_ok (st : store) : Prop :=
  forall t r, In r (rows (get_table t st)) -> field_ok (row_field r).

(** [st'] keeps the fields of the rows of [st], in their order, and adds
    rows whose fields satisfy [P]. *)
Definition extends (P : string -> Prop) (st st' : store) : Prop :=
  forall t, exists added,
    map row_field (rows (get_table t st'))
    = (map row_field (rows (get_table t st)) ++ added)%list
    /\ Forall P added.

Definition writes {A} (P : string -> Prop) (m : M A) : Prop :=
  forall st, extends P st (fst (m st)).

(* ------------------------------------------------------------------ *)
(** ** The flattened form of an object and its nested form *)

Fixpoint no_dot (s : string) : bool :=
  match s with
  | EmptyString => true
  | String c s' => negb (Ascii.eqb c dot) && no_dot s'
  end.

(** A property name that holds no dot and that own-property access
    handles without reaching [Object.prototype]. *)
Definition plain_name (k : string) : Prop :=
  k <> "__proto__" /\ k <> "hasOwnProperty" /\ no_dot k = true.

(** The time values of the dates that the host can build. *)
Definition valid_time (t : Z) : Prop := Z.abs t <= 8640000000000000.

(** The leaves of a nested object, each below its chain of property
    names, in [Object.keys] order. *)
Fixpoint paths_of (v : jsval) : list (list string * jsval) :=
  match v with
  | VObj props =>
      flat_map (fun kv => map (fun pv => (fst kv :: fst pv, snd pv))
                            (paths_of (snd kv)))
        props
  | _ => [([], v)]
  end.

(** The (field, value) pairs that flattening [v] from [field] gives. *)
Definition leaves (field : string) (v : jsval) : list (string * jsval) :=
  map (fun pv => (field ++ dotted (fst pv), snd pv)) (paths_of v).

(** The partition that a leaf goes to. *)
Definition type_of (v : jsval) : ty :=
  match v with
  | VNum _ => Tnumber
  | VStr _ => Tstring
  | VBool _ => Tboolean
  | VDate _ => Tdate
  | _ => Tarray
  end.

(** What is stored of a row apart from its id and its latest flag. *)
Definition obs_of (r : row) : jsval * jsval * string * Z :=
  (row_node r, row_value r, row_field r, row_timestamp r).

(** The nested object with every leaf [v] turned into
    [{value: v, timestamp}]. *)
Fixpoint decorate (timestamp : jsval) (v : jsval) : jsval :=
  match v with
  | VObj props =>
      VObj (map (fun kv => (fst kv, decorate timestamp (snd kv))) props)
  | _ => leaf v timestamp
  end.

(** Equality of objects up to the order of their properties, at every
    level. *)
Inductive same_object : jsval -> jsval -> Prop :=
| same_value v : same_object v v
| same_props a b :
    NoDup (map fst a) -> NoDup (map fst b) ->
    (forall k, get_own k a = None <-> get_own k b = None) ->
    (forall k x y, get_own k a = Some x -> get_own k b = Some y ->
                   same_object x y) ->
    same_object (VObj a) (VObj b).

(** The tails of the paths of [S] that start with [k]. *)
Definition below (k : string) (S : list (list string)) : list (list string) :=
  flat_map (fun p => match p with
                     | k' :: rest => if String.eqb k' k then [rest] else []
                     | [] => []
                     end) S.

(** [Built timestamp S props o]: [o] is what [convertToObject] has built
    of the object [props] once it has handled the leaves at the paths
    [S]. *)
Inductive Built (timestamp : jsval)
  : list (list string) -> list (string * jsval) -> list (string * jsval) -> Prop :=
| Built_intro S props o :
    NoDup (map fst o) ->
    (forall k, get_own k o = None <-> below k S = []) ->
    (forall k x, get_own k o = Some x ->
       exists c, In (k, c) props
         /\ ((paths_of c = [([], c)] /\ x = leaf c timestamp)
             \/ exists cprops o',
                  c = VObj cprops /\ x = VObj o'
                  /\ Built timestamp (below k S) cprops o')) ->
    Built timestamp S props o.

Section RoundTrip.

Variable JSON_stringify : jsval -> string.
Variable JSON_parse : jsval -> option jsval.

(** What the partition of a leaf stores of it. *)
Definition stored (v : jsval) : jsval :=
  match v with
  | VBool b => jsint (if b then 1 else 0)
  | VDate (Some d) => jsint d
  | VArr _ => VStr (JSON_stringify v)
  | _ => v
  end.

(** A leaf that the codec stores and gives back. *)
Definition round_trip_leaf (v : jsval) : Prop :=
  match v with
  | VNum (Fin _) | VBool _ => True
  | VStr s => len s <= MAX_STRING_SIZE
  | VDate (Some d) => valid_time d
  | VArr _ =>
      len (JSON_stringify v) <= MAX_ARRAY_SIZE
      /\ JSON_parse (VStr (JSON_stringify v)) = Some v
  | _ => False
  end.

(** A value that [insert] stores whole at [field]: round-trip leaves
    below plain, distinct names, no empty object, every field within
    the size bound. *)
Inductive storable : string -> jsval -> Prop :=
| storable_leaf field v :
    1 <= len field <= MAX_FIELD_SIZE -> round_trip_leaf v ->
    storable field v
| storable_object field props :
    1 <= len field <= MAX_FIELD_SIZE -> props <> [] ->
    NoDup (map fst props) ->
    (forall k c, In (k, c) props ->
                 plain_name k /\ storable (field ++ "." ++ k) c) ->
    storable field (VObj props).

Definition round_trip_object (O : jsval) : Prop :=
  exists props,
    O = VObj props /\ NoDup (map fst props)
    /\ forall k c, In (k, c) props -> plain_name k /\ storable ("." ++ k) c.

(** An object whose properties are all leaves that the codec stores and
    gives back, under distinct, plain names of at most 511 characters.
    [insertCheckedObject] awaits the write of each of them, and no two
    go to one field. *)
Definition flat_object (O : jsval) : Prop :=
  exists props,
    O = VObj props /\ NoDup (map fst props)
    /\ forall k c, In (k, c) props ->
         plain_name k /\ len k <= MAX_FIELD_SIZE - 1 /\ round_trip_leaf c.

End RoundTrip.

(** [logs js node t l st st']: [st'] holds what [st] holds and, in the
    partition of each leaf of [l], one more row for [node] at instant
    [t], in the order of [l]; ids and latest flags apart. *)
Definition logs (JSON_stringify : jsval -> string) (node : jsval) (t : Z)
    (l : list (string * jsval)) (st st' : store) : Prop :=
  is_initialized st' = is_initialized st
  /\ forall type,
       map obs_of (rows (get_table type st'))
       = (map obs_of (rows (get_table type st))
          ++ map (fun fv => (node, stored JSON_stringify (snd fv), fst fv, t))
               (filter (fun fv => ty_eqb (type_of (snd fv)) type) l))%list.

(** Every row of [node] is a latest row written at instant [t]. *)
Definition all_latest (node : jsval) (t : Z) (st : store) : Prop :=
  forall type r,
    In r (rows_of node type st) -> row_latest r = 1 /\ row_timestamp r = t.

(** No row of [node] is written at [field]. *)
Definition field_free (node : jsval) (field : string) (st : store) : Prop :=
  forall type r, In r (rows_of node type st) -> row_field r <> field.

From Stdlib Require Import RelationClasses.

(* ------------------------------------------------------------------ *)
(** ** Searching by value *)

(** What [search] yields: the rows found, each with its node; a failure
    of the kinds above; or its own refusal of a value that no partition
    holds. *)
Inductive search_outcome : Type :=
| Found (found : list (jsval * series_row))
| Raised (e : error)
| CannotSearch.          (* tsdb: Cannot search for value of type ... *)

Section HostSearch.

Variable JSON_stringify : jsval -> string.
Variable JSON_parse : jsval -> option jsval.

(** The backend's [=] between the value column of a partition and an
    interpolated literal. *)
Variable sql_value_eq : ty -> jsval -> jsval -> bool.

(** [value_reformed] and [type] of [search]; [None] where both stay
    [undefined]. *)
Definition reform (value : jsval) : option (jsval * ty) :=
  match value with
  | VStr _ => Some (value, Tstring)
  | VNum (Fin _) => Some (value, Tnumber)
  | VBool b => Some (jsint (if b then 1 else 0), Tboolean)
  | VDate (Some ms) => Some (jsint ms, Tdate)
  | VDate None => Some (VNum NaN, Tdate)
  | VArr _ => Some (VStr (JSON_stringify value), Tarray)
  | _ => None
  end.

(** The part of [search] inside [try]: the query of one partition.  A
    row found is paired with its node column, which [updateValueTypes]
    leaves as it is. *)
Definition search_query (field : string) (value_reformed : jsval) (type : ty)
    (when_ms : option Z) (limit : jsval) : M (list (jsval * series_row)) :=
  lock ;;;
  table <- getTableForType type ;;
  v <- sql_node value_reformed ;;
  t <- sql_timestamp when_ms ;;
  found <- sqlapi_select table (fun r =>
             String.eqb (row_field r) field
             && sql_value_eq type (row_value r) v
             && (row_timestamp r <=? t)) ;;
  let found := limit_rows limit (order_by_timestamp_desc found) in
  updated <- lift (updateValueTypes JSON_parse type found) ;;
  ret (combine (map row_node found) updated).

(** [exports.search] *)
Definition search (field value when limit : jsval)
    : store -> store * search_outcome :=
  fun st =>
    if negb (valid_limit limit) then (st, Raised BadLimit)
    else
      match field with
      | VStr f =>
          if negb (isDate when) then (st, Raised BadWhen)
          else
            match getTime when st with
            | (st1, Err e) => (st1, Raised e)
            | (st1, Ok when_ms) =>
                match reform value with
                | None => (st1, CannotSearch)
                | Some (value_reformed, type) =>
                    match search_query f value_reformed type when_ms limit st1 with
                    | (st', Ok found) => (st', Found found)
                    | (st', Err e) => (st', Raised e)
                    end
                end
            end
      | _ => (st, Raised BadField)
      end.

(** The calls of the interface that follow [initialize]. *)
Inductive call : Type :=
| Call_insertObject (node value timestamp : jsval)
| Call_remove (node sure : jsval)
| Call_synthesizeObject (answers : list ty) (node : jsval)
| Call_synthesizeObjectAt (answers : list ty) (node date : jsval)
| Call_getSeries (node field when limit : jsval)
| Call_exists (node : jsval)
| Call_search (field value when limit : jsval).

(** The store that a call leaves, whether it succeeds or fails. *)
Definition run_call (c : call) (st : store) : store :=
  match c with
  | Call_insertObject node value timestamp =>
      fst (insertObject JSON_stringify node value timestamp st)
  | Call_remove node sure => fst (remove node sure st)
  | Call_synthesizeObject answers node =>
      fst (synthesizeObject JSON_parse answers node st)
  | Call_synthesizeObjectAt answers node date =>
      fst (synthesizeObjectAt JSON_parse answers node date st)
  | Call_getSeries node field when limit =>
      fst (getSeries JSON_parse node field when limit st)
  | Call_exists node => fst (exists_ node st)
  | Call_search field value when limit => fst (search field value when limit st)
  end.

Definition run_calls (cs : list call) (st : store) : store :=
  fold_left (fun st c => run_call c st) cs st.

End HostSearch.

(** The rows of partition [t] that the query of [search] returns. *)
Definition search_rows (sql_value_eq : ty -> jsval -> jsval -> bool)
    (field : string) (v : jsval) (when_ms : Z) (limit : jsval) (t : ty)
    (st : store) : list row :=
  limit_rows limit
    (order_by_timestamp_desc
       (filter (fun r => String.eqb (row_field r) field
                         && sql_value_eq t (row_value r) v
                         && (row_timestamp r <=? when_ms))
          (rows (get_table t st)))).

(** The database before the first [initialize]: no prefix is bound, and
    the tables are as [createTable] makes them. *)
Definition fresh_database : store :=
  mkStore None empty_table empty_table empty_table empty_table empty_table.

(* ------------------------------------------------------------------ *)
(** ** Predicates on the steps of a computation *)

(** Every run of [m] takes a store to one that [R] relates to it. *)
Definition keeps {A} (R : store -> store -> Prop) (m : M A) : Prop :=
  forall st, R st (fst (m st)).

(** [r'] is the row [r], its latest flag as it was or reset to 0. *)
Definition demoted (r r' : row) : Prop :=
  row_id r' = row_id r /\ obs_of r' = obs_of r
  /\ (row_latest r' = row_latest r \/ row_latest r' = 0).

(** [st'] holds the rows of [st], in their order, each one as it was or
    demoted, followed by new rows that satisfy [P]; the prefix is the
    one of [st]. *)
Definition appends (P : ty -> row -> Prop) (st st' : store) : Prop :=
  tsdbTablePrefix st' = tsdbTablePrefix st
  /\ forall type, exists old added,
       rows (get_table type st') = (old ++ added)%list
       /\ Forall2 demoted (rows (get_table type st)) old
       /\ Forall (P type) added.

(** The condition of the query of [morerecents]. *)
Definition more_recent (node : jsval) (field : string) (t : Z) (r : row) : bool :=
  node_eqb (row_node r) node && (t <? row_timestamp r)
  && String.eqb (row_field r) field && (row_latest r =? 1).

(** The condition of the update of [setIsLatest], and the update. *)
Definition to_demote (node : jsval) (field : string) (id : Z) (r : row) : bool :=
  node_eqb (row_node r) node && String.eqb (row_field r) field
  && (row_latest r =? 1) && negb (row_id r =? id).

Definition demote_row (node : jsval) (field : string) (id : Z) (r : row) : row :=
  if to_demote node field id r
  then mkRow (row_id r) (row_node r) (row_value r) (row_field r) (row_timestamp r) 0
  else r.

Section Observations.

Variable JSON_stringify : jsval -> string.

(** [encodes value type v awaited_flag]: the leaf [value] goes to
    partition [type] as [v]; the flag tells whether the function that
    stores it passes [latest] on to [setIsLatest]. *)
Inductive encodes : jsval -> ty -> jsval -> bool -> Prop :=
| encodes_number q :
    encodes (VNum (Fin q)) Tnumber (VNum (Fin q)) true
| encodes_string s :
    len s <= MAX_STRING_SIZE -> encodes (VStr s) Tstring (VStr s) true
| encodes_boolean b :
    encodes (VBool b) Tboolean (jsint (if b then 1 else 0)) true
| encodes_date ms :
    encodes (VDate (Some ms)) Tdate (jsint ms) false
| encodes_array elts :
    len (JSON_stringify (VArr elts)) <= MAX_ARRAY_SIZE ->
    encodes (VArr elts) Tarray (VStr (JSON_stringify (VArr elts))) true.

(** [wrote type node field timestamp passes v st st']: [st'] is [st]
    after one observation went to partition [type]: [checkIsLatest],
    [sqlapi.insert] of the value [v], then [setIsLatest] with the
    latest flag passed on or not. *)
Definition wrote (type : ty) (node : jsval) (field : string)
    (timestamp : jsval) (passes : bool) (v : jsval) (st st' : store) : Prop :=
  exists t latest,
    timestamp = VDate (Some t)
    /\ valid_node node = true
    /\ is_initialized st = true
    /\ checkIsLatest (mkRef (table_name type st) type) node field (Some t) st
       = (st, Ok latest)
    /\ st' = fst (setIsLatest (mkRef (table_name type st) type) node field
                    (auto_increment (get_table type st))
                    (if passes then jsint latest else VUndefined)
                    (fst (sqlapi_insert (mkRef (table_name type st) type)
                            node v field t latest st))).

(** What [insert] checks of a value before it answers.  A string, a
    date and an array are stored before the call returns; an object is
    handed to a call that is not awaited. *)
Definition accepted (value : jsval) : Prop :=
  match value with
  | VStr s => len s <= MAX_STRING_SIZE
  | VArr _ => len (JSON_stringify value) <= MAX_ARRAY_SIZE
  | VDate None => False
  | _ => True
  end.

(** The value that a partition holds in a row. *)
Definition value_ok (type : ty) (v : jsval) : Prop :=
  match type with
  | Tstring => exists s, v = VStr s /\ len s <= MAX_STRING_SIZE
  | Tnumber => exists q, v = VNum (Fin q)
  | Tarray =>
      exists elts, v = VStr (JSON_stringify (VArr elts))
                   /\ len (JSON_stringify (VArr elts)) <= MAX_ARRAY_SIZE
  | Tdate => exists ms, v = jsint ms
  | Tboolean => v = jsint 0 \/ v = jsint 1
  end.

(** A well-formed row of partition [type]. *)
Definition row_ok (type : ty) (r : row) : Prop :=
  valid_node (row_node r) = true
  /\ value_ok type (row_value r)
  /\ 1 <= len (row_field r) <= MAX_FIELD_SIZE
  /\ (row_latest r = 0 \/ row_latest r = 1).

(** A table of well-formed rows whose ids are distinct and below the
    AUTO_INCREMENT counter. *)
Definition table_ok (type : ty) (tb : table) : Prop :=
  Forall (row_ok type) (rows tb)
  /\ NoDup (map row_id (rows tb))
  /\ Forall (fun r => row_id r < auto_increment tb) (rows tb).

Definition store_ok (st : store) : Prop :=
  forall type, table_ok type (get_table type st).

End Observations.

(** [st'] is [st] with the rows of [node] deleted from some of the
    partitions. *)
Definition removed (node : jsval) (st st' : store) : Prop :=
  tsdbTablePrefix st' = tsdbTablePrefix st
  /\ forall type,
       get_table type st' = get_table type st
       \/ get_table type st'
          = mkTable (filter (fun r => negb (node_eqb (row_node r) node))
                       (rows (get_table type st)))
              (auto_increment (get_table type st)).

(* ------------------------------------------------------------------ *)
(** ** The past of a store *)

(** Rows that differ at most in their id and latest flag, one by one. *)
Definition same_obs (l l' : list row) : Prop :=
  Forall2 (fun r r' => obs_of r = obs_of r') l l'.

(** The rows of a partition written up to instant [t]. *)
Definition rows_until (t : Z) (type : ty) (st : store) : list row :=
  filter (fun r => row_timestamp r <=? t) (rows (get_table type st)).

(* ------------------------------------------------------------------ *)
(** ** A session of the examples *)

(** A session on one node: a number, a date and an array written at
    2000, then the number and the date written again at the earlier
    instant 1000, then the number written as a string at 2000, and
    another node written and removed. *)
Definition example_session : list call :=
  [ Call_insertObject (VStr "id-1")
      (VObj [("a", jsint 1); ("d", VDate (Some 5)); ("e", VArr [jsint 1; jsint 2])])
      (VDate (Some 2000));
    Call_insertObject (VStr "id-1")
      (VObj [("a", jsint 2); ("d", VDate (Some 6))]) (VDate (Some 1000));
    Call_insertObject (VStr "id-1") (VObj [("a", VStr "x")]) (VDate (Some 2000));
    Call_insertObject (VStr "id-2") (VObj [("a", jsint 3)]) (VDate (Some 3000));
    Call_remove (VStr "id-2") (VBool true) ].

(** A parser for the closed examples that refuses no text: what
    [HostJSON.parse] does not read is read as [null]. *)
Definition lenient_parse (v : jsval) : option jsval :=
  match HostJSON.parse v with
  | Some x => Some x
  | None => Some VNull
  end.

(* ------------------------------------------------------------------ *)
(** * Properties *)

Unset Implicit Arguments.

Lemma ty_eqb_eq a b : ty_eqb a b = true <-> a = b.
Proof. destruct a, b; simpl; split; congruence. Qed.

(** ** Which errors a computation can raise *)

Lemma nr_ret {A} e (a : A) : never_raises e (ret a).
Proof. intros st; simpl; discriminate. Qed.

Lemma nr_throw {A} e e' : e' <> e -> never_raises e (throw (A:=A) e').
Proof. intros H st; simpl; congruence. Qed.

Lemma nr_bind {A B} e (m : M A) (k : A -> M B) :
  never_raises e m -> (forall a, never_raises e (k a)) ->
  never_raises e (bind m k).
Proof.
  intros Hm Hk st. unfold bind.
  specialize (Hm st). destruct (m st) as [st' [a|e']]; simpl in *.
  - apply Hk.
  - intros Heq. apply Hm. congruence.
Qed.

Lemma nr_detached {A} e (m : M A) : never_raises e (detached m).
Proof. intros st; simpl; discriminate. Qed.

Lemma nr_lift {A} e (r : outcome A) : r <> Err e -> never_raises e (lift r).
Proof. intros H st; exact H. Qed.

Lemma nr_getTableForType e t :
  e <> NotInitialized -> never_raises e (getTableForType t).
Proof.
  intros H st. unfold getTableForType.
  destruct (tsdbTablePrefix st) as [p|]; simpl; [|congruence].
  destruct (String.eqb p ""); simpl; congruence.
Qed.

Lemma nr_getTime e d : e <> TypeError -> never_raises e (getTime d).
Proof. intros H st. destruct d; simpl; congruence. Qed.

Lemma nr_sql_node e n : e <> BackendFailure -> never_raises e (sql_node n).
Proof.
  intros H st. destruct n; simpl; try congruence.
  destruct (isFinite n); simpl; congruence.
Qed.

Lemma nr_sql_timestamp e t :
  e <> BackendFailure -> never_raises e (sql_timestamp t).
Proof. intros H st. destruct t; simpl; congruence. Qed.

Lemma nr_select e table cond : never_raises e (sqlapi_select table cond).
Proof. intros st; simpl; discriminate. Qed.

Lemma nr_insert_row e table n v f t l :
  never_raises e (sqlapi_insert table n v f t l).
Proof. intros st; simpl; discriminate. Qed.

Lemma nr_update e table cond : never_raises e (sqlapi_update_latest0 table cond).
Proof. intros st; simpl; discriminate. Qed.

Lemma nr_if {A} e (b : bool) (m1 m2 : M A) :
  never_raises e m1 -> never_raises e m2 ->
  never_raises e (if b then m1 else m2).
Proof. destruct b; auto. Qed.

Ltac nr_step :=
  first
    [ apply nr_ret
    | apply nr_detached
    | apply nr_select
    | apply nr_insert_row
    | apply nr_update
    | apply nr_throw; discriminate
    | apply nr_getTableForType; discriminate
    | apply nr_getTime; discriminate
    | apply nr_sql_node; discriminate
    | apply nr_sql_timestamp; discriminate
    | apply nr_if
    | apply nr_bind; [| intros ? ] ].

Ltac nr := repeat nr_step.

Lemma nr_checkIsLatest e table node field t :
  e <> BackendFailure -> never_raises e (checkIsLatest table node field t).
Proof.
  intros H. unfold checkIsLatest, morerecents.
  repeat (apply nr_bind; [| intros ? ]);
    try (apply nr_sql_node; exact H); try (apply nr_sql_timestamp; exact H); nr.
Qed.

Lemma nr_setIsLatest e table node field id latest :
  e <> BackendFailure -> never_raises e (setIsLatest table node field id latest).
Proof.
  intros H. unfold setIsLatest. apply nr_if; [nr|].
  apply nr_bind; [apply nr_sql_node; exact H | intros; nr].
Qed.

(** ** The router and the lock *)

Lemma getTableForType_run t st :
  is_initialized st = true ->
  exists name, getTableForType t st = (st, Ok (mkRef name t)).
Proof.
  unfold is_initialized, getTableForType.
  destruct (tsdbTablePrefix st) as [p|]; [|discriminate].
  destruct (String.eqb p ""); [discriminate|]. eauto.
Qed.

Lemma getTableForType_uninitialized t st :
  is_initialized st = false -> getTableForType t st = (st, Err NotInitialized).
Proof.
  unfold is_initialized, getTableForType.
  destruct (tsdbTablePrefix st) as [p|]; [|reflexivity].
  destruct (String.eqb p ""); [reflexivity|discriminate].
Qed.

Lemma lock_run st :
  lock st = (st, if is_initialized st then Ok tt else Err NotInitialized).
Proof.
  unfold lock, types. simpl. unfold bind, ret.
  destruct (is_initialized st) eqn:Hi.
  - repeat match goal with
           | |- context [getTableForType ?t st] =>
               destruct (getTableForType_run t st Hi) as [? ->]; simpl
           end.
    reflexivity.
  - repeat (rewrite (getTableForType_uninitialized _ st Hi); simpl).
    reflexivity.
Qed.

Section Properties.

Variable JSON_stringify : jsval -> string.
Variable JSON_parse : jsval -> option jsval.

Local Abbreviation insert := (insert JSON_stringify).
Local Abbreviation insertObject := (insertObject JSON_stringify).
Local Abbreviation insertCheckedObject := (insertCheckedObject JSON_stringify).

Lemma nr_insert_leaves e node field value timestamp :
  e <> TypeError -> e <> NotInitialized -> e <> BackendFailure ->
  e <> ValueTooLarge ->
  never_raises e (insertCheckedNumber node field value timestamp) /\
  never_raises e (insertCheckedBoolean node field value timestamp) /\
  never_raises e (insertCheckedDate node field value timestamp) /\
  never_raises e (insertCheckedArray JSON_stringify node field value timestamp) /\
  (forall s, never_raises e (insertCheckedString node field s timestamp)).
Proof.
  intros H1 H2 H3 H4.
  assert (Hc : forall table t, never_raises e (checkIsLatest table node field t))
    by (intros; apply nr_checkIsLatest; exact H3).
  assert (Hs : forall table id l, never_raises e (setIsLatest table node field id l))
    by (intros; apply nr_setIsLatest; exact H3).
  assert (Hg : forall d, never_raises e (getTime d))
    by (intros; apply nr_getTime; exact H1).
  assert (Ht : forall t, never_raises e (getTableForType t))
    by (intros; apply nr_getTableForType; exact H2).
  assert (Hq : forall t, never_raises e (sql_timestamp t))
    by (intros; apply nr_sql_timestamp; exact H3).
  assert (Hv : forall A, never_raises e (throw (A:=A) ValueTooLarge))
    by (intros; apply nr_throw; congruence).
  unfold insertCheckedNumber, insertCheckedBoolean, insertCheckedDate,
    insertCheckedArray, insertCheckedString.
  repeat split; intros;
    repeat first [ apply Hc | apply Hs | apply Hg | apply Ht | apply Hq
                 | apply Hv | nr_step ].
Qed.

(** C4.  [insert] never fails with the error of its last branch: a value
    of no supported shape, a number that is not finite included, takes
    the object branch and the call succeeds. *)
Theorem insert_never_UnsupportedType node field value timestamp :
  never_raises UnsupportedType (insert node field value timestamp).
Proof.
  destruct (nr_insert_leaves UnsupportedType node field value timestamp)
    as (Hn & Hb & Hd & Ha & Hs); try discriminate.
  destruct value as [| |b|n|s|t|elts|props|props]; simpl;
    repeat (apply nr_if; [nr|]);
    try (apply nr_bind; [|intros; nr]); auto; nr.
  destruct n; nr; auto.
Qed.

(** C9.  [typeof null] is ["object"]: a [null] value passes the test of
    [insertObject] and fails later, when [Object.keys(null)] throws (or
    earlier in [lock], before [initialize]).  The store is left as it
    was. *)
Theorem insertObject_null node timestamp st :
  typeof VNull = "object"
  /\ insertObject node VNull timestamp st
     = (st, Err (if is_initialized st then TypeError else NotInitialized)).
Proof.
  split; [reflexivity|]. unfold insertObject. simpl. unfold bind. rewrite lock_run.
  destruct (is_initialized st); reflexivity.
Qed.

(** C3.  A leaf at [.a] and a leaf at [.a.b]: [convertToObject] raises
    nothing.  The walk for [.a.b] finds the leaf object stored at [a],
    whose [typeof] is ["object"], and writes [b] into it. *)
Theorem convertToObject_leaf_and_prefix v1 t1 v2 t2 :
  convertToObject JSON_parse
    [(".a", mkEntry v1 Tnumber t1); (".a.b", mkEntry v2 Tnumber t2)]
  = Ok (VObj [("a", VObj [("value", v1);
                          ("timestamp", new_Date (jsint t1));
                          ("b", leaf v2 (new_Date (jsint t2)))])]).
Proof. reflexivity. Qed.

End Properties.

(** A number that is not finite is accepted and nothing is stored; a
    function with a property is flattened like an object. *)
Example insert_NaN_succeeds :
  insert HostJSON.stringify (VStr "id-1") ".a" (VNum NaN) (VDate (Some 0))
    example_store
  = (example_store, Ok tt).
Proof. reflexivity. Qed.

Example insert_function_writes :
  let st := after (insert HostJSON.stringify (VStr "id-1") ".a"
                     (VFun [("x", jsint 1)]) (VDate (Some 0))) example_store in
  map row_field (rows (ts_number st)) = [".a.x"].
Proof. reflexivity. Qed.

(** C1.  Three dates written for one field at 1000 < 2000 < 3000: the three
    rows all keep [latest = 1].  [insertCheckedDate] calls [setIsLatest]
    without its fifth argument, so nothing is demoted. *)
Theorem date_latest_not_demoted :
  let w t d := insertObject HostJSON.stringify (VStr "id-1")
                 (VObj [("d", VDate (Some d))]) (VDate (Some t)) in
  let st := after (w 3000 30) (after (w 2000 20) (after (w 1000 10) example_store)) in
  map (fun r => (row_field r, row_timestamp r, row_latest r)) (rows (ts_date st))
  = [(".d", 1000, 1); (".d", 2000, 1); (".d", 3000, 1)].
Proof. vm_compute. reflexivity. Qed.

(** The same three writes of a number, a string, a boolean and an array
    leave one latest row, the last one. *)
Example other_types_latest_unique :
  forall v t,
    In (v, t) [(jsint 7, Tnumber); (VStr "x", Tstring); (VBool true, Tboolean);
               (VArr [jsint 1], Tarray)] ->
    let w ts := insertObject HostJSON.stringify (VStr "id-1")
                  (VObj [("d", v)]) (VDate (Some ts)) in
    let st := after (w 3000) (after (w 2000) (after (w 1000) example_store)) in
    map (fun r => (row_timestamp r, row_latest r)) (rows (get_table t st))
    = [(1000, 0); (2000, 0); (3000, 1)].
Proof.
  intros v t H. simpl in H.
  repeat (destruct H as [H|H]; [inversion H; subst; vm_compute; reflexivity|]).
  contradiction.
Qed.

(* ------------------------------------------------------------------ *)
(** ** ORDER BY *)

Section OrderByFacts.
Variable before : Z -> Z -> bool.
Hypothesis before_total : forall a b, before a b = false -> before b a = true.
Hypothesis before_trans :
  forall a b c, before a b = true -> before b c = true -> before a c = true.

Let R (x y : row) : Prop := before (row_timestamp x) (row_timestamp y) = true.

Lemma place_perm r l : Permutation (place before r l) (r :: l).
Proof.
  induction l as [|x l IH]; simpl; [reflexivity|].
  destruct (before (row_timestamp x) (row_timestamp r)).
  - rewrite IH. apply perm_swap.
  - reflexivity.
Qed.

Lemma order_by_perm_acc l : forall acc,
  Permutation (fold_left (fun acc r => place before r acc) l acc) (acc ++ l).
Proof.
  induction l as [|x l IH]; intros acc; simpl.
  - rewrite app_nil_r. reflexivity.
  - rewrite IH, place_perm.
    change (x :: acc ++ l) with ((x :: acc) ++ l).
    rewrite (Permutation_middle acc l x). reflexivity.
Qed.

Lemma order_by_perm l : Permutation (order_by before l) l.
Proof. unfold order_by. apply (order_by_perm_acc l []). Qed.

Lemma place_sorted r l :
  StronglySorted R l -> StronglySorted R (place before r l).
Proof.
  induction l as [|x l IH]; intros Hs; simpl.
  - constructor; constructor.
  - inversion Hs as [|? ? Hl Hx]; subst.
    destruct (before (row_timestamp x) (row_timestamp r)) eqn:Hb.
    + constructor; [apply IH; exact Hl|].
      rewrite Forall_forall in *. intros y Hy.
      apply (Permutation_in _ (place_perm r l)) in Hy.
      destruct Hy as [<-|Hy]; [exact Hb|apply Hx; exact Hy].
    + constructor; [exact Hs|].
      apply before_total in Hb.
      constructor; [exact Hb|].
      rewrite Forall_forall in *. intros y Hy.
      apply before_trans with (row_timestamp x); [exact Hb|apply Hx; exact Hy].
Qed.

Lemma order_by_sorted_acc l : forall acc,
  StronglySorted R acc ->
  StronglySorted R (fold_left (fun acc r => place before r acc) l acc).
Proof.
  induction l as [|x l IH]; intros acc Hs; simpl; [exact Hs|].
  apply IH, place_sorted, Hs.
Qed.

Lemma order_by_sorted l : StronglySorted R (order_by before l).
Proof. apply order_by_sorted_acc. constructor. Qed.
End OrderByFacts.

Lemma asc_sorted l :
  StronglySorted (fun x y => row_timestamp x <= row_timestamp y)
    (order_by_timestamp_asc l).
Proof.
  assert (H := order_by_sorted Z.leb
                 ltac:(intros a b; rewrite Z.leb_gt, Z.leb_le; lia)
                 ltac:(intros a b c; rewrite !Z.leb_le; lia) l).
  eapply StronglySorted_ind with (P := fun l => StronglySorted _ l);
    [constructor| |exact H].
  intros a l0 _ IH Hf. constructor; [exact IH|].
  eapply Forall_impl; [|exact Hf]. intros b Hb. simpl in Hb.
  apply Z.leb_le. exact Hb.
Qed.

Lemma desc_sorted l :
  StronglySorted (fun x y => row_timestamp x >= row_timestamp y)
    (order_by_timestamp_desc l).
Proof.
  assert (H := order_by_sorted Z.geb
                 ltac:(intros a b; rewrite Z.geb_leb, Z.leb_gt, Z.geb_leb, Z.leb_le; lia)
                 ltac:(intros a b c; rewrite !Z.geb_leb, !Z.leb_le; lia) l).
  eapply StronglySorted_ind with (P := fun l => StronglySorted _ l);
    [constructor| |exact H].
  intros a l0 _ IH Hf. constructor; [exact IH|].
  eapply Forall_impl; [|exact Hf]. intros b Hb. simpl in Hb.
  rewrite Z.geb_leb, Z.leb_le in Hb. lia.
Qed.

Lemma asc_perm l : Permutation (order_by_timestamp_asc l) l.
Proof. apply order_by_perm. Qed.

Lemma desc_perm l : Permutation (order_by_timestamp_desc l) l.
Proof. apply order_by_perm. Qed.

(** ** Own properties *)

Section OwnFacts.
Variable A : Type.
Implicit Types (o : list (string * A)) (k : string).

Lemma get_own_set_own k k' (v : A) o :
  get_own k' (set_own k v o) = if String.eqb k k' then Some v else get_own k' o.
Proof.
  induction o as [|[k0 v0] o IH]; simpl.
  - reflexivity.
  - destruct (String.eqb k0 k) eqn:E0; simpl.
    + apply String.eqb_eq in E0. subst k0.
      destruct (String.eqb k k'); reflexivity.
    + rewrite IH. destruct (String.eqb k0 k') eqn:E1; [|reflexivity].
      apply String.eqb_eq in E1. subst k0. rewrite String.eqb_sym, E0.
      reflexivity.
Qed.

Lemma get_own_js_assign k k' (v : A) o :
  k' <> "__proto__" ->
  get_own k' (js_assign k v o) = if String.eqb k k' then Some v else get_own k' o.
Proof.
  intros Hk. unfold js_assign.
  destruct (String.eqb k "__proto__") eqn:E.
  - apply String.eqb_eq in E. subst k.
    destruct (String.eqb "__proto__" k') eqn:E'; [|reflexivity].
    apply String.eqb_eq in E'. congruence.
  - apply get_own_set_own.
Qed.

Lemma get_own_In k (v : A) o : get_own k o = Some v -> In (k, v) o.
Proof.
  induction o as [|[k0 v0] o IH]; simpl; [discriminate|].
  destruct (String.eqb k0 k) eqn:E.
  - apply String.eqb_eq in E. intros [= ->]. subst. now left.
  - intros H. right. apply IH, H.
Qed.

Lemma get_own_None k o : get_own k o = None <-> ~ In k (map fst o).
Proof.
  induction o as [|[k0 v0] o IH]; simpl; [tauto|].
  destruct (String.eqb k0 k) eqn:E.
  - apply String.eqb_eq in E. subst. split; [discriminate|]. tauto.
  - apply String.eqb_neq in E. rewrite IH. tauto.
Qed.

Lemma In_get_own k (v : A) o :
  NoDup (map fst o) -> In (k, v) o -> get_own k o = Some v.
Proof.
  induction o as [|[k0 v0] o IH]; simpl; [tauto|].
  intros Hnd [H|H]; inversion Hnd as [|? ? Hn Hnd']; subst.
  - inversion H; subst. rewrite String.eqb_refl. reflexivity.
  - destruct (String.eqb k0 k) eqn:E.
    + apply String.eqb_eq in E. subst. exfalso. apply Hn.
      apply (in_map fst) in H. exact H.
    + apply IH; assumption.
Qed.

Lemma keys_set_own k (v : A) o :
  map fst (set_own k v o)
  = if existsb (String.eqb k) (map fst o) then map fst o
    else (map fst o ++ [k])%list.
Proof.
  induction o as [|[k0 v0] o IH]; simpl; [reflexivity|].
  rewrite (String.eqb_sym k k0).
  destruct (String.eqb k0 k) eqn:E; simpl.
  - apply String.eqb_eq in E. subst. reflexivity.
  - rewrite IH. destruct (existsb _ _); reflexivity.
Qed.

Lemma NoDup_set_own k (v : A) o :
  NoDup (map fst o) -> NoDup (map fst (set_own k v o)).
Proof.
  intros H. rewrite keys_set_own.
  destruct (existsb (String.eqb k) (map fst o)) eqn:E; [exact H|].
  apply NoDup_app; [exact H|repeat constructor; simpl; tauto|].
  intros x Hx [Hk|[]]. subst x.
  assert (existsb (String.eqb k) (map fst o) = true); [|congruence].
  apply existsb_exists. exists k. split; [exact Hx|apply String.eqb_refl].
Qed.

Lemma NoDup_js_assign k (v : A) o :
  NoDup (map fst o) -> NoDup (map fst (js_assign k v o)).
Proof.
  unfold js_assign. destruct (String.eqb k "__proto__"); [auto|].
  apply NoDup_set_own.
Qed.
End OwnFacts.

(* ------------------------------------------------------------------ *)
(** ** Running the primitives on an initialized store *)

Lemma getTableForType_ok t st :
  is_initialized st = true ->
  getTableForType t st = (st, Ok (mkRef (table_name t st) t)).
Proof.
  unfold is_initialized, getTableForType, table_name.
  destruct (tsdbTablePrefix st) as [p|]; [|discriminate].
  destruct (String.eqb p ""); [discriminate|reflexivity].
Qed.

Lemma sql_node_ok node st :
  valid_node node = true -> sql_node node st = (st, Ok node).
Proof.
  unfold valid_node. destruct node; simpl; try reflexivity.
  intros ->. reflexivity.
Qed.

Lemma node_eqb_refl node : valid_node node = true -> node_eqb node node = true.
Proof.
  unfold valid_node. destruct node as [| | |n|s| | | |]; simpl; try discriminate.
  - destruct n; simpl; try discriminate. intros _. apply Qeq_bool_iff. reflexivity.
  - intros _. apply String.eqb_refl.
Qed.

Lemma valid_node_isNode node : valid_node node = true -> isNode node = true.
Proof. unfold valid_node. intros H. apply andb_true_iff in H. tauto. Qed.

Lemma get_set_table_same t tb st : get_table t (set_table t tb st) = tb.
Proof. destruct t; reflexivity. Qed.

Lemma get_set_table_other t t' tb st :
  t <> t' -> get_table t (set_table t' tb st) = get_table t st.
Proof. destruct t, t'; try reflexivity; congruence. Qed.

Lemma prefix_set_table t tb st :
  tsdbTablePrefix (set_table t tb st) = tsdbTablePrefix st.
Proof. destruct t; reflexivity. Qed.

Lemma is_initialized_set_table t tb st :
  is_initialized (set_table t tb st) = is_initialized st.
Proof. unfold is_initialized. rewrite prefix_set_table. reflexivity. Qed.

Lemma Qred_inject_Z n : Qred (inject_Z n) = inject_Z n.
Proof.
  unfold Qred, inject_Z.
  generalize (Z.ggcd_gcd n 1) (Z.ggcd_correct_divisors n 1).
  destruct (Z.ggcd n 1) as [g [aa bb]]. simpl.
  rewrite Z.gcd_1_r. intros -> [H1 H2].
  rewrite Z.mul_1_l in H1, H2. subst. reflexivity.
Qed.

Lemma valid_limit_jsint n :
  valid_limit (jsint n) = (1 <=? n) && (n <=? 10001).
Proof.
  unfold valid_limit, jsint, Number_isInteger. rewrite Qred_inject_Z.
  unfold Qle_bool, inject_Z. simpl. rewrite !Z.mul_1_r. reflexivity.
Qed.

Lemma limit_rows_jsint n l : limit_rows (jsint n) l = firstn (Z.to_nat n) l.
Proof. unfold limit_rows, jsint. rewrite Qred_inject_Z. reflexivity. Qed.

Section ReadProperties.

Variable JSON_parse : jsval -> option jsval.

Local Abbreviation decode := (decode JSON_parse).
Local Abbreviation updateValueTypes := (updateValueTypes JSON_parse).
Local Abbreviation getSeries := (getSeries JSON_parse).
Local Abbreviation getSeries_loop := (getSeries_loop JSON_parse).

Lemma decode_error type v e : decode type v = Err e -> e = SyntaxError.
Proof.
  destruct type; simpl; try discriminate.
  destruct (JSON_parse v); [discriminate|]. now intros [= <-].
Qed.

Lemma updateValueTypes_error type l e :
  updateValueTypes type l = Err e -> e = SyntaxError.
Proof.
  unfold updateValueTypes.
  induction l as [|r l IH]; simpl; [discriminate|].
  destruct (decode type (row_value r)) eqn:E.
  - destruct (mapR _ l); [discriminate|]. intros [= <-]. now apply IH.
  - intros [= <-]. eapply decode_error; eauto.
Qed.

Lemma nr_getSeries_loop e node field when_ms limit ts :
  e <> NotInitialized -> e <> BackendFailure -> e <> SyntaxError ->
  never_raises e (getSeries_loop node field when_ms limit ts).
Proof.
  intros H1 H2 H3. induction ts as [|t ts IH]; simpl; [nr|].
  apply nr_bind; [apply nr_getTableForType; exact H1|intros table].
  apply nr_bind; [apply nr_sql_node; exact H2|intros n].
  apply nr_bind; [apply nr_sql_timestamp; exact H2|intros w].
  apply nr_bind; [nr|intros found].
  apply nr_if; [|exact IH].
  apply nr_lift. intros Heq. apply updateValueTypes_error in Heq. congruence.
Qed.

(** C7.  A limit of 10001 is not refused: the test of [getSeries] is
    [limit > 10001], while its message asks for a limit less than
    10001. *)
Theorem getSeries_accepts_10001 node field when :
  never_raises BadLimit (getSeries node field when (jsint 10001)).
Proof.
  unfold getSeries.
  apply nr_if; [apply nr_throw; discriminate|].
  rewrite valid_limit_jsint.
  change ((1 <=? 10001) && (10001 <=? 10001)) with true. cbv beta iota delta [negb].
  destruct field; try (apply nr_throw; discriminate).
  apply nr_if; [apply nr_throw; discriminate|].
  apply nr_bind; [apply nr_getTime; discriminate|intros when_ms].
  apply nr_bind; [apply nr_detached|intros _].
  apply nr_getSeries_loop; discriminate.
Qed.

End ReadProperties.

(** On the initialized empty store the call with limit 10001 returns the
    empty series. *)
Example getSeries_10001_runs :
  getSeries HostJSON.parse (VStr "id-1") (VStr ".a") (VDate (Some 0))
    (jsint 10001) example_store
  = (example_store, Ok []).
Proof. vm_compute. reflexivity. Qed.

(* ------------------------------------------------------------------ *)
(** ** Existence and deletion *)

Lemma filter_none {A} (p : A -> bool) l :
  (forall x, In x l -> p x = false) -> filter p l = [].
Proof.
  induction l as [|x l IH]; simpl; intros H; [reflexivity|].
  rewrite (H x (or_introl eq_refl)). apply IH. intros y Hy. apply H. now right.
Qed.

Lemma filter_filter_negb {A} (p : A -> bool) l :
  filter p (filter (fun x => negb (p x)) l) = [].
Proof.
  apply filter_none. intros x Hx. apply filter_In in Hx.
  destruct Hx as [_ Hx]. destruct (p x); [discriminate|reflexivity].
Qed.

Lemma remove_loop node :
  valid_node node = true ->
  forall ts st, is_initialized st = true ->
  exists st',
    foldM (fun (_ : unit) type =>
             table <- getTableForType type ;;
             n <- sql_node node ;;
             sqlapi_delete table (fun r => node_eqb (row_node r) n)) ts tt st
    = (st', Ok tt)
    /\ is_initialized st' = true
    /\ forall t,
         rows (get_table t st')
         = if existsb (ty_eqb t) ts
           then filter (fun r => negb (node_eqb (row_node r) node))
                  (rows (get_table t st))
           else rows (get_table t st).
Proof.
  intros Hn ts. induction ts as [|t0 ts IH]; intros st Hi.
  - exists st. simpl. auto.
  - simpl. unfold bind at 1. unfold bind at 1.
    rewrite (getTableForType_ok _ _ Hi). cbv beta iota.
    unfold bind at 1. rewrite (sql_node_ok _ _ Hn). cbv beta iota.
    unfold sqlapi_delete at 1. cbv beta iota zeta. cbn [ref_type].
    match goal with |- context [foldM _ ts tt ?s] => set (st1 := s) end.
    destruct (IH st1) as (st' & Hrun & Hi' & Hrows).
    { unfold st1. rewrite is_initialized_set_table. exact Hi. }
    exists st'. split; [exact Hrun|]. split; [exact Hi'|].
    intros t. rewrite Hrows. unfold st1.
    destruct (ty_eqb t t0) eqn:E.
    + apply ty_eqb_eq in E. subst t0. rewrite get_set_table_same. simpl.
      destruct (existsb (ty_eqb t) ts); [|reflexivity].
      clear. induction (rows (get_table t st)) as [|r l IHl]; simpl; [reflexivity|].
      destruct (node_eqb (row_node r) node) eqn:E; simpl; rewrite ?E; simpl;
        congruence.
    + assert (t <> t0) by (intros ->; destruct t0; discriminate).
      rewrite get_set_table_other by assumption. reflexivity.
Qed.

Lemma exists_loop_none node :
  valid_node node = true ->
  forall st, is_initialized st = true ->
  forall ts, (forall t, In t ts -> rows_of node t st = []) ->
  exists_loop node ts st = (st, Ok false).
Proof.
  intros Hn st Hi ts. induction ts as [|t ts IH]; intros H; [reflexivity|].
  simpl. unfold bind at 1. rewrite (getTableForType_ok _ _ Hi). cbv beta iota.
  unfold bind at 1. rewrite (sql_node_ok _ _ Hn). cbv beta iota.
  unfold bind at 1. unfold sqlapi_select at 1. cbv beta iota. cbn [ref_type].
  fold (rows_of node t st). rewrite (H t (or_introl eq_refl)). simpl.
  apply IH. intros t' Ht'. apply H. now right.
Qed.

Lemma sql_condition_ok c st :
  c <> TimestampLe None ->
  sql_condition c st = (st, Ok (condition_holds c)).
Proof.
  destruct c as [[t|]|]; simpl; intros H; try reflexivity. congruence.
Qed.

(** The loop over the partitions of [synthesizeObjectParameterized]
    computes this map. *)
Lemma merge_run node c :
  valid_node node = true -> c <> TimestampLe None ->
  forall st, is_initialized st = true ->
  forall ts m,
    foldM (asyncpart node c) ts m st
    = (st, Ok (fold_left
                 (fun m t =>
                    fold_left
                      (fun m r => js_assign (row_field r)
                                    (mkEntry (row_value r) t (row_timestamp r)) m)
                      (order_by_timestamp_asc (matched node c t st)) m)
                 ts m)).
Proof.
  intros Hn Hc st Hi ts. induction ts as [|t ts IH]; intros m; [reflexivity|].
  simpl. unfold bind at 1. unfold asyncpart at 1.
  unfold bind at 1. rewrite (getTableForType_ok _ _ Hi). cbv beta iota.
  unfold bind at 1. rewrite (sql_node_ok _ _ Hn). cbv beta iota.
  unfold bind at 1. rewrite (sql_condition_ok _ _ Hc). cbv beta iota.
  unfold bind at 1. unfold sqlapi_select at 1. cbv beta iota. cbn [ref_type].
  unfold ret at 1. cbv beta iota.
  fold (matched node c t st). apply IH.
Qed.

Lemma rows_of_matched node c t st r :
  In r (matched node c t st) -> In r (rows_of node t st).
Proof.
  unfold matched, rows_of. rewrite !filter_In.
  intros [H1 H2]. apply andb_true_iff in H2. tauto.
Qed.

Lemma matched_nil node c t st :
  rows_of node t st = [] -> matched node c t st = [].
Proof.
  intros H. destruct (matched node c t st) as [|r l] eqn:E; [reflexivity|].
  assert (Hin : In r (rows_of node t st))
    by (apply rows_of_matched with c; rewrite E; now left).
  rewrite H in Hin. destruct Hin.
Qed.

Section DeletionProperties.

Variable JSON_parse : jsval -> option jsval.

Lemma synthesizeObject_no_rows answers node st :
  valid_node node = true -> is_initialized st = true ->
  (forall t, rows_of node t st = []) ->
  synthesizeObject JSON_parse answers node st = (st, Ok (VObj [])).
Proof.
  intros Hn Hi H. unfold synthesizeObject, synthesizeObjectParameterized.
  unfold bind at 1. rewrite lock_run, Hi. cbv beta iota.
  rewrite (valid_node_isNode _ Hn). cbv beta iota delta [negb].
  unfold bind at 1. rewrite (merge_run node LatestNonzero Hn) by (discriminate || exact Hi).
  assert (E : fold_left
                (fun m t =>
                   fold_left
                     (fun m r => js_assign (row_field r)
                                   (mkEntry (row_value r) t (row_timestamp r)) m)
                     (order_by_timestamp_asc (matched node LatestNonzero t st)) m)
                answers [] = []).
  { induction answers as [|t ts IH]; [reflexivity|].
    simpl fold_left. rewrite (matched_nil _ _ _ _ (H _)). exact IH. }
  rewrite E. reflexivity.
Qed.

(** C8 (amended).  [remove] refuses exactly the calls whose flag is
    falsy, and leaves the store alone; with a truthy flag, a valid node
    and an initialized store it deletes the rows of the node, and only
    these, from every partition, after which [exists] answers false and
    [synthesizeObject] the empty object, in whatever order the backend
    answers its queries. *)
Theorem remove_requires_truthy_then_deletes node sure st :
  (truthy sure = false -> remove node sure st = (st, Err ConfirmationRequired))
  /\ (truthy sure = true -> valid_node node = true ->
      is_initialized st = true ->
      exists st',
        remove node sure st = (st', Ok tt)
        /\ (forall t, rows_of node t st' = [])
        /\ (forall t, rows (get_table t st')
                      = filter (fun r => negb (node_eqb (row_node r) node))
                          (rows (get_table t st)))
        /\ exists_ node st' = (st', Ok false)
        /\ forall answers,
             synthesizeObject JSON_parse answers node st' = (st', Ok (VObj []))).
Proof.
  split.
  - intros Hs. unfold remove. rewrite Hs. reflexivity.
  - intros Hs Hn Hi. unfold remove. rewrite Hs, (valid_node_isNode _ Hn).
    cbv beta iota delta [negb]. unfold bind at 1. unfold detached at 1.
    rewrite lock_run. cbn [fst].
    destruct (remove_loop node Hn types st Hi) as (st' & Hrun & Hi' & Hrows).
    exists st'. split; [exact Hrun|].
    assert (Hall : forall t,
               rows (get_table t st')
               = filter (fun r => negb (node_eqb (row_node r) node))
                   (rows (get_table t st))).
    { intros t. rewrite Hrows. destruct t; reflexivity. }
    assert (Hnone : forall t, rows_of node t st' = []).
    { intros t. unfold rows_of. rewrite Hall. apply filter_filter_negb. }
    repeat split; auto.
    + unfold exists_. rewrite (valid_node_isNode _ Hn).
      cbv beta iota delta [negb]. unfold bind at 1. unfold detached at 1.
      rewrite lock_run. cbn [fst].
      apply exists_loop_none; auto.
    + intros answers. apply synthesizeObject_no_rows; auto.
Qed.

End DeletionProperties.

(** A store that holds the README's object for node [id-1]. *)
Lemma remove_requires_truthy_then_deletes_witness :
  let st := after (insertObject HostJSON.stringify (VStr "id-1")
                     (readme_object 5) (VDate (Some 1000))) example_store in
  remove (VStr "id-1") (VBool false) st = (st, Err ConfirmationRequired)
  /\ exists st',
       remove (VStr "id-1") (VBool true) st = (st', Ok tt)
       /\ (forall t, rows_of (VStr "id-1") t st' = [])
       /\ (forall t, rows (get_table t st')
                     = filter (fun r => negb (node_eqb (row_node r) (VStr "id-1")))
                         (rows (get_table t st)))
       /\ exists_ (VStr "id-1") st' = (st', Ok false)
       /\ forall answers,
            synthesizeObject HostJSON.parse answers (VStr "id-1") st'
            = (st', Ok (VObj [])).
Proof.
  intros st. split.
  - apply (proj1 (remove_requires_truthy_then_deletes HostJSON.parse
                    (VStr "id-1") (VBool false) st)).
    reflexivity.
  - apply (proj2 (remove_requires_truthy_then_deletes HostJSON.parse
                    (VStr "id-1") (VBool true) st)); reflexivity.
Defined.

(** C8 as stated fails: the flag [1] is not [true], yet [remove] raises
    nothing and deletes the rows of the node. *)
Lemma remove_accepts_truthy_flag :
  let st := after (insertObject HostJSON.stringify (VStr "id-1")
                     (readme_object 5) (VDate (Some 1000))) example_store in
  jsint 1 <> VBool true
  /\ snd (remove (VStr "id-1") (jsint 1) st) = Ok tt
  /\ rows_of (VStr "id-1") Tnumber st <> []
  /\ rows_of (VStr "id-1") Tnumber (after (remove (VStr "id-1") (jsint 1)) st) = [].
Proof.
  intros st. split; [discriminate|].
  split; [vm_compute; reflexivity|].
  split; [vm_compute; discriminate|vm_compute; reflexivity].
Qed.

(* ------------------------------------------------------------------ *)
(** ** The series reader *)

Lemma firstn_In {A} n (l : list A) x : In x (firstn n l) -> In x l.
Proof.
  revert l. induction n as [|n IH]; intros [|y l]; simpl; try tauto.
  intros [H|H]; [now left|right; now apply IH].
Qed.

Lemma firstn_StronglySorted {A} (R : A -> A -> Prop) n l :
  StronglySorted R l -> StronglySorted R (firstn n l).
Proof.
  revert l. induction n as [|n IH]; intros [|y l] H; simpl; try constructor.
  - inversion H; subst. apply IH. assumption.
  - inversion H; subst. rewrite Forall_forall in *.
    intros x Hx. apply firstn_In in Hx. auto.
Qed.

Lemma series_rows_spec node field t n type st :
  let found := series_rows node field t (jsint n) type st in
  (List.length found <= Z.to_nat n)%nat
  /\ StronglySorted (fun x y => row_timestamp x >= row_timestamp y) found
  /\ Forall (fun r => In r (rows (get_table type st))
                      /\ node_eqb (row_node r) node = true
                      /\ row_field r = field
                      /\ row_timestamp r <= t) found.
Proof.
  unfold series_rows. rewrite limit_rows_jsint. cbv zeta.
  split; [apply firstn_le_length|].
  split; [apply firstn_StronglySorted, desc_sorted|].
  rewrite Forall_forall. intros r Hr.
  apply firstn_In in Hr.
  apply (Permutation_in _ (desc_perm _)) in Hr.
  apply filter_In in Hr. destruct Hr as [Hin Hc].
  apply andb_true_iff in Hc. destruct Hc as [Hc H3].
  apply andb_true_iff in Hc. destruct Hc as [H1 H2].
  apply String.eqb_eq in H2. apply Z.leb_le in H3. auto.
Qed.

Section SeriesProperties.

Variable JSON_parse : jsval -> option jsval.

Local Abbreviation decode := (decode JSON_parse).
Local Abbreviation updateValueTypes := (updateValueTypes JSON_parse).
Local Abbreviation getSeries := (getSeries JSON_parse).
Local Abbreviation getSeries_loop := (getSeries_loop JSON_parse).

Lemma getSeries_loop_step node field t limit st type ts :
  valid_node node = true -> is_initialized st = true ->
  getSeries_loop node field (Some t) limit (type :: ts) st
  = match series_rows node field t limit type st with
    | [] => getSeries_loop node field (Some t) limit ts st
    | found => (st, updateValueTypes type found)
    end.
Proof.
  intros Hn Hi.
  simpl. unfold bind at 1. rewrite (getTableForType_ok _ _ Hi). cbv beta iota.
  unfold bind at 1. rewrite (sql_node_ok _ _ Hn). cbv beta iota.
  unfold bind at 1. unfold sql_timestamp, ret at 1. cbv beta iota.
  unfold bind at 1. unfold sqlapi_select at 1. cbv beta iota. cbn [ref_type].
  fold (series_rows node field t limit type st).
  destruct (series_rows node field t limit type st) as [|r found]; [reflexivity|].
  assert ((0 <? Z.of_nat (List.length (r :: found))) = true) as ->
    by (apply Z.ltb_lt; simpl List.length; lia).
  reflexivity.
Qed.

Lemma getSeries_loop_run node field t limit st :
  valid_node node = true -> is_initialized st = true ->
  forall ts,
    (getSeries_loop node field (Some t) limit ts st = (st, Ok [])
     /\ forall type, In type ts -> series_rows node field t limit type st = [])
    \/ exists earlier type later,
         ts = (earlier ++ type :: later)%list
         /\ (forall t', In t' earlier ->
               series_rows node field t limit t' st = [])
         /\ series_rows node field t limit type st <> []
         /\ getSeries_loop node field (Some t) limit ts st
            = (st, updateValueTypes type
                     (series_rows node field t limit type st)).
Proof.
  intros Hn Hi ts. induction ts as [|type ts IH].
  - left. split; [reflexivity|]. intros ? [].
  - rewrite (getSeries_loop_step _ _ _ _ _ _ _ Hn Hi).
    destruct (series_rows node field t limit type st) as [|r found] eqn:E.
    + destruct IH as [[Hrun Hall]|(earlier & ty' & later & -> & He & Hne & Hrun)].
      * left. split; [exact Hrun|]. intros ty' [<-|H]; auto.
      * right. exists (type :: earlier), ty', later. repeat split; auto.
        intros t' [<-|H]; auto.
    + right. exists [], type, ts. rewrite E. repeat split; auto.
      * intros ? [].
      * discriminate.
Qed.

Lemma updateValueTypes_ok type found :
  (forall r, In r found -> decode type (row_value r) <> Err SyntaxError) ->
  exists out,
    updateValueTypes type found = Ok out
    /\ Forall2 (fun r s => decode type (row_value r) = Ok (series_value s)
                           /\ series_timestamp s
                              = new_Date (jsint (row_timestamp r)))
         found out.
Proof.
  unfold updateValueTypes.
  induction found as [|r found IH]; intros H.
  - exists []. split; [reflexivity|constructor].
  - destruct IH as (out & Hout & HF); [intros; apply H; now right|].
    simpl. destruct (decode type (row_value r)) as [v|e] eqn:E.
    + simpl in Hout. rewrite Hout. eexists. split; [reflexivity|].
      constructor; [simpl; auto|exact HF].
    + exfalso. apply (H r (or_introl eq_refl)).
      rewrite E. f_equal. eapply decode_error; eauto.
Qed.

(** C6 (amended).  For a valid node, a limit [n] between 1 and 10001
    and an initialized store whose array rows hold JSON text,
    [getSeries] returns the decoded rows of the first partition, in the
    order string, number, array, date, boolean, whose query finds a row
    of the node and the field up to the instant; they are at most [n],
    in non-increasing order of timestamp.  It returns the empty series
    when no partition has such a row. *)
Theorem getSeries_first_partition node field t n st :
  valid_node node = true -> 1 <= n <= 10001 ->
  is_initialized st = true ->
  Forall (fun r => JSON_parse (row_value r) <> None) (rows (ts_array st)) ->
  types = [Tstring; Tnumber; Tarray; Tdate; Tboolean]
  /\ exists out,
    getSeries node (VStr field) (VDate (Some t)) (jsint n) st = (st, Ok out)
    /\ ((out = []
         /\ forall type, series_rows node field t (jsint n) type st = [])
        \/ exists earlier type later,
             types = (earlier ++ type :: later)%list
             /\ (forall t', In t' earlier ->
                   series_rows node field t (jsint n) t' st = [])
             /\ let found := series_rows node field t (jsint n) type st in
                found <> []
                /\ Forall2
                     (fun r s => decode type (row_value r) = Ok (series_value s)
                                 /\ series_timestamp s
                                    = new_Date (jsint (row_timestamp r)))
                     found out
                /\ (List.length found <= Z.to_nat n)%nat
                /\ StronglySorted
                     (fun x y => row_timestamp x >= row_timestamp y) found
                /\ Forall (fun r => In r (rows (get_table type st))
                                    /\ node_eqb (row_node r) node = true
                                    /\ row_field r = field
                                    /\ row_timestamp r <= t) found).
Proof.
  intros Hn Hlim Hi Hjson. split; [reflexivity|].
  unfold getSeries.
  rewrite (valid_node_isNode _ Hn), valid_limit_jsint.
  assert ((1 <=? n) && (n <=? 10001) = true) as ->
    by (apply andb_true_iff; split; apply Z.leb_le; lia).
  cbv beta iota delta [negb isDate].
  unfold bind at 1. unfold getTime, ret at 1. cbv beta iota.
  unfold bind at 1. unfold detached at 1. rewrite lock_run. cbn [fst].
  destruct (getSeries_loop_run node field t (jsint n) st Hn Hi types)
    as [[Hrun Hall]|(earlier & type & later & Hty & He & Hne & Hrun)].
  - exists []. split; [exact Hrun|]. left. split; [reflexivity|].
    intros type. apply Hall. destruct type; simpl; tauto.
  - destruct (series_rows_spec node field t n type st) as (Hlen & Hsort & Hall).
    destruct (updateValueTypes_ok type (series_rows node field t (jsint n) type st))
      as (out & Hout & HF).
    { intros r Hr. destruct type; simpl; try discriminate.
      rewrite Forall_forall in Hall, Hjson.
      destruct (Hall r Hr) as (Hin & _).
      specialize (Hjson r Hin). destruct (JSON_parse (row_value r)); congruence. }
    exists out. split; [rewrite Hrun, Hout; reflexivity|].
    right. exists earlier, type, later. cbv zeta. repeat split; auto.
Qed.

End SeriesProperties.

Lemma getSeries_first_partition_witness :
  types = [Tstring; Tnumber; Tarray; Tdate; Tboolean]
  /\ exists out,
    getSeries HostJSON.parse (VStr "id-1") (VStr ".a") (VDate (Some 2000))
      (jsint 5) tied_store = (tied_store, Ok out)
    /\ ((out = []
         /\ forall type,
              series_rows (VStr "id-1") ".a" 2000 (jsint 5) type tied_store = [])
        \/ exists earlier type later,
             types = (earlier ++ type :: later)%list
             /\ (forall t', In t' earlier ->
                   series_rows (VStr "id-1") ".a" 2000 (jsint 5) t' tied_store = [])
             /\ let found :=
                  series_rows (VStr "id-1") ".a" 2000 (jsint 5) type tied_store in
                found <> []
                /\ Forall2
                     (fun r s => decode HostJSON.parse type (row_value r)
                                 = Ok (series_value s)
                                 /\ series_timestamp s
                                    = new_Date (jsint (row_timestamp r)))
                     found out
                /\ (List.length found <= Z.to_nat 5)%nat
                /\ StronglySorted
                     (fun x y => row_timestamp x >= row_timestamp y) found
                /\ Forall (fun r => In r (rows (get_table type tied_store))
                                    /\ node_eqb (row_node r) (VStr "id-1") = true
                                    /\ row_field r = ".a"
                                    /\ row_timestamp r <= 2000) found).
Proof.
  apply (getSeries_first_partition HostJSON.parse (VStr "id-1") ".a" 2000 5
           tied_store).
  - reflexivity.
  - lia.
  - reflexivity.
  - simpl. constructor.
Defined.

(** C6 as stated fails: the two rows of [tied_store] come back with equal
    timestamps, so the series is not strictly descending. *)
Lemma getSeries_not_strictly_descending :
  exists out,
    getSeries HostJSON.parse (VStr "id-1") (VStr ".a") (VDate (Some 2000))
      (jsint 5) tied_store = (tied_store, Ok out)
    /\ map series_timestamp out = [VDate (Some 1000); VDate (Some 1000)]
    /\ ~ StronglySorted
           (fun x y => match time_value x, time_value y with
                       | Some a, Some b => a > b
                       | _, _ => False
                       end)
           (map series_timestamp out).
Proof.
  eexists. split; [vm_compute; reflexivity|].
  split; [reflexivity|].
  simpl. intros H. inversion H as [|? ? _ Hf]; subst.
  inversion Hf as [|? ? Hgt _]; subst. simpl in Hgt. lia.
Qed.

(* ------------------------------------------------------------------ *)
(** ** The merge of the snapshot synthesizer *)

Lemma find_app {A} (p : A -> bool) l1 l2 :
  find p (l1 ++ l2) = match find p l1 with
                      | Some x => Some x
                      | None => find p l2
                      end.
Proof.
  induction l1 as [|x l1 IH]; simpl; [reflexivity|].
  destruct (p x); [reflexivity|exact IH].
Qed.

Lemma last_at_cons k r l :
  last_at k (r :: l)
  = match last_at k l with
    | Some x => Some x
    | None => if String.eqb (row_field r) k then Some r else None
    end.
Proof. unfold last_at. simpl. rewrite find_app. reflexivity. Qed.

Lemma last_at_Some k l r :
  last_at k l = Some r ->
  exists l1 l2, l = (l1 ++ r :: l2)%list /\ row_field r = k
                /\ forall r', In r' l2 -> row_field r' <> k.
Proof.
  revert r. induction l as [|x l IH]; intros r; [discriminate|].
  rewrite last_at_cons. destruct (last_at k l) as [y|] eqn:E.
  - intros [= ->]. destruct (IH r eq_refl) as (l1 & l2 & -> & Hk & Hl2).
    exists (x :: l1), l2. auto.
  - destruct (String.eqb (row_field x) k) eqn:Ex; [|discriminate].
    intros [= ->]. apply String.eqb_eq in Ex.
    exists [], l. repeat split; auto.
    intros r' Hr' Hk'.
    clear IH. revert E Hr' Hk'. clear. unfold last_at.
    intros E Hr' Hk'. apply in_rev in Hr'.
    apply (find_none _ _ E) in Hr'. rewrite Hk', String.eqb_refl in Hr'.
    discriminate.
Qed.

Lemma last_at_None k l r :
  last_at k l = None -> In r l -> row_field r <> k.
Proof.
  unfold last_at. intros E Hr Hk. apply in_rev in Hr.
  apply (find_none _ _ E) in Hr. rewrite Hk, String.eqb_refl in Hr.
  discriminate.
Qed.

Lemma get_own_fold_rows type k l :
  k <> "__proto__" ->
  forall m,
    get_own k (fold_left
                 (fun m r => js_assign (row_field r)
                               (mkEntry (row_value r) type (row_timestamp r)) m)
                 l m)
    = match last_at k l with
      | Some r => Some (mkEntry (row_value r) type (row_timestamp r))
      | None => get_own k m
      end.
Proof.
  intros Hk. induction l as [|r l IH]; intros m; [reflexivity|].
  simpl fold_left. rewrite IH, last_at_cons.
  destruct (last_at k l); [reflexivity|].
  rewrite get_own_js_assign by exact Hk.
  destruct (String.eqb (row_field r) k); reflexivity.
Qed.

Lemma StronglySorted_middle {A} (R : A -> A -> Prop) l1 x l2 :
  StronglySorted R (l1 ++ x :: l2) -> forall y, In y l1 -> R y x.
Proof.
  induction l1 as [|a l1 IH]; simpl; intros H y Hy; [destruct Hy|].
  inversion H as [|? ? Hs Hf]; subst.
  destruct Hy as [<-|Hy].
  - rewrite Forall_forall in Hf. apply Hf, in_elt.
  - apply IH; assumption.
Qed.

(** The last row at a field in ascending order of timestamp is a row of
    greatest timestamp at that field. *)
Lemma last_at_asc k l r :
  last_at k (order_by_timestamp_asc l) = Some r ->
  In r l /\ row_field r = k
  /\ forall r', In r' l -> row_field r' = k ->
       row_timestamp r' <= row_timestamp r.
Proof.
  intros E. destruct (last_at_Some _ _ _ E) as (l1 & l2 & Hl & Hk & Hl2).
  assert (Hp := asc_perm l). assert (Hs := asc_sorted l).
  rewrite Hl in Hp, Hs.
  split; [apply (Permutation_in _ Hp), in_elt|].
  split; [exact Hk|].
  intros r' Hr' Hk'.
  apply (Permutation_in _ (Permutation_sym Hp)) in Hr'.
  apply in_app_or in Hr'. destruct Hr' as [Hr'|[<-|Hr']].
  - apply (StronglySorted_middle _ _ _ _ Hs _ Hr').
  - lia.
  - exfalso. apply (Hl2 r' Hr' Hk').
Qed.

Lemma last_at_asc_None k l r :
  last_at k (order_by_timestamp_asc l) = None -> In r l -> row_field r <> k.
Proof.
  intros E Hr. apply (last_at_None _ _ _ E).
  apply (Permutation_in _ (Permutation_sym (asc_perm l))), Hr.
Qed.

Section MergeFacts.
Variables (node : jsval) (c : condition) (st : store).

Let rows_in (t : ty) : list row := order_by_timestamp_asc (matched node c t st).
Let merge (ts : list ty) (m : list (string * entry)) : list (string * entry) :=
  fold_left
    (fun m t =>
       fold_left
         (fun m r => js_assign (row_field r)
                       (mkEntry (row_value r) t (row_timestamp r)) m)
         (rows_in t) m)
    ts m.

Lemma merge_get k :
  k <> "__proto__" ->
  forall ts m,
    (get_own k (merge ts m) = get_own k m
     /\ forall t, In t ts -> last_at k (rows_in t) = None)
    \/ exists earlier t later r,
         ts = (earlier ++ t :: later)%list
         /\ last_at k (rows_in t) = Some r
         /\ get_own k (merge ts m)
            = Some (mkEntry (row_value r) t (row_timestamp r))
         /\ forall t', In t' later -> last_at k (rows_in t') = None.
Proof.
  intros Hk ts. induction ts as [|t ts IH]; intros m.
  - left. split; [reflexivity|]. intros ? [].
  - pose (m1 := fold_left
                    (fun m r => js_assign (row_field r)
                                  (mkEntry (row_value r) t (row_timestamp r)) m)
                    (rows_in t) m).
    change (merge (t :: ts) m) with (merge ts m1).
    destruct (IH m1) as [[Hg Hn]|(earlier & t0 & later & r & -> & Hl & Hg & Hn)].
    + rewrite Hg. unfold m1. rewrite (get_own_fold_rows t k _ Hk).
      destruct (last_at k (rows_in t)) as [r|] eqn:E.
      * right. exists [], t, ts, r. auto.
      * left. split; [reflexivity|]. intros t' [<-|H]; auto.
    + right. exists (t :: earlier), t0, later, r. auto.
Qed.
End MergeFacts.

Section MergeProperties.

Variable JSON_parse : jsval -> option jsval.

(** C2 (amended).  The five partitions are merged in the order in which
    the backend answers their queries, and any order is possible.  For
    each order, the merge maps a field path to a row of the partition
    that answers last among those that have a matching row at that
    path: the row of greatest timestamp among that partition's matching
    rows at the path.  Timestamps are compared within one partition
    only; the rows of a partition that answers earlier do not count,
    whatever their timestamps. *)
Theorem merge_last_answer_wins answers node c st :
  Permutation answers types ->
  valid_node node = true -> c <> TimestampLe None ->
  is_initialized st = true ->
  exists mapLatest,
    foldM (asyncpart node c) answers [] st = (st, Ok mapLatest)
    /\ synthesizeObjectParameterized JSON_parse answers node c st
       = (st, convertToObject JSON_parse mapLatest)
    /\ forall path, path <> "__proto__" ->
         match get_own path mapLatest with
         | None =>
             forall t r, In r (matched node c t st) -> row_field r <> path
         | Some e =>
             exists earlier later r,
               answers = (earlier ++ entry_type e :: later)%list
               /\ In r (matched node c (entry_type e) st)
               /\ row_field r = path
               /\ e = mkEntry (row_value r) (entry_type e) (row_timestamp r)
               /\ (forall r', In r' (matched node c (entry_type e) st) ->
                     row_field r' = path ->
                     row_timestamp r' <= row_timestamp r)
               /\ (forall t' r', In t' later ->
                     In r' (matched node c t' st) -> row_field r' <> path)
         end.
Proof.
  intros Hperm Hn Hc Hi. eexists.
  split; [apply (merge_run node c Hn Hc st Hi)|].
  split.
  { unfold synthesizeObjectParameterized.
    rewrite (valid_node_isNode _ Hn). cbv beta iota delta [negb].
    unfold bind. rewrite (merge_run node c Hn Hc st Hi). reflexivity. }
  intros path Hp.
  destruct (merge_get node c st path Hp answers [])
    as [[Hg Hnone]|(earlier & t & later & r & Hty & Hl & Hg & Hnone)].
  - rewrite Hg. simpl. intros t r Hr.
    assert (Ht : In t answers).
    { apply (Permutation_in _ (Permutation_sym Hperm)).
      destruct t; simpl; tauto. }
    apply (last_at_asc_None _ _ _ (Hnone t Ht) Hr).
  - rewrite Hg. destruct (last_at_asc _ _ _ Hl) as (Hin & Hf & Hmax).
    exists earlier, later, r. simpl. repeat split; auto.
    intros t' r' Ht' Hr'. apply (last_at_asc_None _ _ _ (Hnone t' Ht') Hr').
Qed.

End MergeProperties.

(** In [retyped_store], with the string partition answering last. *)
Lemma merge_last_answer_wins_witness :
  let answers := [Tboolean; Tdate; Tarray; Tnumber; Tstring] in
  exists mapLatest,
    foldM (asyncpart (VStr "id-1") LatestNonzero) answers [] retyped_store
    = (retyped_store, Ok mapLatest)
    /\ synthesizeObjectParameterized HostJSON.parse answers (VStr "id-1")
         LatestNonzero retyped_store
       = (retyped_store, convertToObject HostJSON.parse mapLatest)
    /\ forall path, path <> "__proto__" ->
         match get_own path mapLatest with
         | None =>
             forall t r, In r (matched (VStr "id-1") LatestNonzero t retyped_store) ->
                         row_field r <> path
         | Some e =>
             exists earlier later r,
               answers = (earlier ++ entry_type e :: later)%list
               /\ In r (matched (VStr "id-1") LatestNonzero (entry_type e) retyped_store)
               /\ row_field r = path
               /\ e = mkEntry (row_value r) (entry_type e) (row_timestamp r)
               /\ (forall r', In r' (matched (VStr "id-1") LatestNonzero
                                       (entry_type e) retyped_store) ->
                     row_field r' = path ->
                     row_timestamp r' <= row_timestamp r)
               /\ (forall t' r', In t' later ->
                     In r' (matched (VStr "id-1") LatestNonzero t' retyped_store) ->
                     row_field r' <> path)
         end.
Proof.
  intros answers.
  apply (merge_last_answer_wins HostJSON.parse answers (VStr "id-1") LatestNonzero
           retyped_store).
  - unfold answers, types, TS_TABLES. cbn [map fst].
    apply Permutation_rev with (l := [Tboolean; Tdate; Tarray; Tnumber; Tstring]).
  - reflexivity.
  - discriminate.
  - reflexivity.
Defined.

(** C2 as stated fails: in [retyped_store] the chronologically last write
    of [.a] is the string at 2000, yet when the backend answers the five
    queries in the order in which they were sent, the merged map and the
    snapshot hold the boolean written at 1000.  When the string partition
    answers last, the snapshot holds the string: the value of a field
    whose type changed follows the order of the answers, not the
    timestamps. *)
Lemma merge_not_greatest_timestamp :
  exists mapLatest e r,
    foldM (asyncpart (VStr "id-1") LatestNonzero) types [] retyped_store
    = (retyped_store, Ok mapLatest)
    /\ get_own ".a" mapLatest = Some e
    /\ entry_type e = Tboolean
    /\ In r (matched (VStr "id-1") LatestNonzero Tstring retyped_store)
    /\ row_field r = ".a"
    /\ entry_timestamp e < row_timestamp r
    /\ snd (synthesizeObject HostJSON.parse types (VStr "id-1") retyped_store)
       = Ok (VObj [("a", leaf (VBool true) (VDate (Some 1000)))])
    /\ snd (synthesizeObject HostJSON.parse
              [Tboolean; Tdate; Tarray; Tnumber; Tstring] (VStr "id-1")
              retyped_store)
       = Ok (VObj [("a", leaf (VStr "x") (VDate (Some 2000)))]).
Proof.
  eexists. eexists. eexists.
  split; [vm_compute; reflexivity|].
  split; [reflexivity|].
  split; [reflexivity|].
  split; [vm_compute; left; reflexivity|].
  split; [reflexivity|].
  split; [simpl; lia|].
  split; vm_compute; reflexivity.
Qed.

(* ------------------------------------------------------------------ *)
(** ** The fields that a write stores *)

Lemma jsval_nested_ind (P : jsval -> Prop) :
  P VUndefined -> P VNull -> (forall b, P (VBool b)) ->
  (forall n, P (VNum n)) -> (forall s, P (VStr s)) -> (forall t, P (VDate t)) ->
  (forall elts, Forall P elts -> P (VArr elts)) ->
  (forall props, Forall (fun kv => P (snd kv)) props -> P (VObj props)) ->
  (forall props, Forall (fun kv => P (snd kv)) props -> P (VFun props)) ->
  forall v, P v.
Proof.
  intros H1 H2 H3 H4 H5 H6 H7 H8 H9.
  fix IH 1. intros [| |b|n|s|t|elts|props|props].
  - exact H1.
  - exact H2.
  - apply H3.
  - apply H4.
  - apply H5.
  - apply H6.
  - apply H7. induction elts as [|x l IHl]; constructor; [apply IH|exact IHl].
  - apply H8. induction props as [|[k x] l IHl]; constructor; [apply IH|exact IHl].
  - apply H9. induction props as [|[k x] l IHl]; constructor; [apply IH|exact IHl].
Qed.

Lemma extends_refl P st : extends P st st.
Proof. intros t. exists []. rewrite app_nil_r. split; [reflexivity|constructor]. Qed.

Lemma extends_trans P st1 st2 st3 :
  extends P st1 st2 -> extends P st2 st3 -> extends P st1 st3.
Proof.
  intros H12 H23 t. destruct (H12 t) as (a1 & E1 & F1).
  destruct (H23 t) as (a2 & E2 & F2).
  exists (a1 ++ a2)%list. rewrite E2, E1, app_assoc.
  split; [reflexivity|]. apply Forall_app. auto.
Qed.

Lemma extends_mono (P Q : string -> Prop) st st' :
  (forall f, P f -> Q f) -> extends P st st' -> extends Q st st'.
Proof.
  intros HPQ H t. destruct (H t) as (a & E & F). exists a.
  split; [exact E|]. eapply Forall_impl; eauto.
Qed.

Lemma writes_mono {A} (P Q : string -> Prop) (m : M A) :
  (forall f, P f -> Q f) -> writes P m -> writes Q m.
Proof. intros HPQ H st. eapply extends_mono; eauto. Qed.

Lemma writes_ret {A} P (a : A) : writes P (ret a).
Proof. intros st. apply extends_refl. Qed.

Lemma writes_throw {A} P e : writes P (throw (A:=A) e).
Proof. intros st. apply extends_refl. Qed.

Lemma writes_lift {A} P (r : outcome A) : writes P (lift r).
Proof. intros st. apply extends_refl. Qed.

Lemma writes_bind {A B} P (m : M A) (k : A -> M B) :
  writes P m -> (forall a, writes P (k a)) -> writes P (bind m k).
Proof.
  intros Hm Hk st. unfold bind. specialize (Hm st).
  destruct (m st) as [st' [a|e]]; simpl in *.
  - eapply extends_trans; [exact Hm|apply Hk].
  - exact Hm.
Qed.

Lemma writes_detached {A} P (m : M A) : writes P m -> writes P (detached m).
Proof. intros H st. apply H. Qed.

Lemma writes_if {A} P (b : bool) (m1 m2 : M A) :
  writes P m1 -> writes P m2 -> writes P (if b then m1 else m2).
Proof. destruct b; auto. Qed.

Lemma writes_Promise_all {A} P (f : A -> M unit) l :
  (forall x, In x l -> writes P (f x)) -> writes P (Promise_all f l).
Proof.
  induction l as [|x l IH]; intros H st; simpl.
  - apply extends_refl.
  - assert (Hx := H x (or_introl eq_refl) st).
    destruct (f x st) as [st1 r1]. simpl in Hx.
    assert (Hl := IH (fun y Hy => H y (or_intror Hy)) st1).
    destruct (Promise_all f l st1) as [st2 r2]. simpl in *.
    eapply extends_trans; eauto.
Qed.

Lemma writes_getTableForType P t : writes P (getTableForType t).
Proof.
  intros st. unfold getTableForType.
  destruct (tsdbTablePrefix st) as [p|]; [destruct (String.eqb p "")|];
    apply extends_refl.
Qed.

Lemma writes_getTime P d : writes P (getTime d).
Proof. intros st. destruct d; apply extends_refl. Qed.

Lemma writes_sql_node P n : writes P (sql_node n).
Proof.
  intros st. destruct n; try apply extends_refl.
  simpl. destruct (isFinite n); apply extends_refl.
Qed.

Lemma writes_sql_timestamp P t : writes P (sql_timestamp t).
Proof. intros st. destruct t; apply extends_refl. Qed.

Lemma writes_select P table cond : writes P (sqlapi_select table cond).
Proof. intros st. apply extends_refl. Qed.

Lemma writes_update P table cond : writes P (sqlapi_update_latest0 table cond).
Proof.
  intros st t. exists []. rewrite app_nil_r. split; [|constructor].
  unfold sqlapi_update_latest0. simpl.
  destruct (ty_eqb t (ref_type table)) eqn:E.
  - apply ty_eqb_eq in E. subst t. rewrite get_set_table_same. simpl.
    rewrite map_map. apply map_ext. intros r. destruct (cond r); reflexivity.
  - rewrite get_set_table_other; [reflexivity|].
    intros ->. destruct (ref_type table); discriminate.
Qed.

Lemma writes_insert_row (P : string -> Prop) table n v f t l :
  P f -> writes P (sqlapi_insert table n v f t l).
Proof.
  intros HP st t'. unfold sqlapi_insert. simpl.
  destruct (ty_eqb t' (ref_type table)) eqn:E.
  - apply ty_eqb_eq in E. subst t'. rewrite get_set_table_same. simpl.
    exists [f]. rewrite map_app. split; [reflexivity|]. constructor; auto.
  - exists []. rewrite app_nil_r. split; [|constructor].
    rewrite get_set_table_other; [reflexivity|].
    intros ->. destruct (ref_type table); discriminate.
Qed.

Ltac writes_step :=
  lazymatch goal with
  | |- writes _ (ret _) => apply writes_ret
  | |- writes _ (throw _) => apply writes_throw
  | |- writes _ (getTableForType _) => apply writes_getTableForType
  | |- writes _ (getTime _) => apply writes_getTime
  | |- writes _ (sql_node _) => apply writes_sql_node
  | |- writes _ (sql_timestamp _) => apply writes_sql_timestamp
  | |- writes _ (sqlapi_select _ _) => apply writes_select
  | |- writes _ (sqlapi_update_latest0 _ _) => apply writes_update
  | |- writes _ (sqlapi_insert _ _ _ _ _ _) =>
      apply writes_insert_row; assumption
  | |- writes _ (detached _) => apply writes_detached
  | |- writes _ (if _ then _ else _) => apply writes_if
  | |- writes _ (bind _ _) => apply writes_bind; [| intros ? ]
  end.

Lemma writes_checkIsLatest P table node field t :
  writes P (checkIsLatest table node field t).
Proof. unfold checkIsLatest, morerecents. repeat writes_step. Qed.

Lemma writes_setIsLatest P table node field id latest :
  writes P (setIsLatest table node field id latest).
Proof. unfold setIsLatest. repeat writes_step. Qed.

Lemma append_nil_r s : s ++ "" = s.
Proof. induction s as [|c s IH]; simpl; congruence. Qed.

Lemma append_assoc s1 s2 s3 : (s1 ++ s2) ++ s3 = s1 ++ (s2 ++ s3).
Proof. induction s1 as [|c s1 IH]; simpl; congruence. Qed.

Lemma length_append s1 s2 :
  String.length (s1 ++ s2) = (String.length s1 + String.length s2)%nat.
Proof. induction s1 as [|c s1 IH]; simpl; congruence. Qed.

Lemma dotted_app ks1 ks2 : dotted (ks1 ++ ks2) = dotted ks1 ++ dotted ks2.
Proof.
  induction ks1 as [|k ks1 IH]; simpl; [reflexivity|].
  rewrite IH. now rewrite !append_assoc.
Qed.

Lemma key_path_nonempty v ks : key_path v ks -> ks <> [].
Proof. intros []; discriminate. Qed.

Section WriteProperties.

Variable JSON_stringify : jsval -> string.

Local Abbreviation insert := (insert JSON_stringify).
Local Abbreviation insertObject := (insertObject JSON_stringify).
Local Abbreviation insertCheckedObject := (insertCheckedObject JSON_stringify).

Lemma writes_insert_leaves (P : string -> Prop) node field value timestamp :
  P field ->
  writes P (insertCheckedNumber node field value timestamp) /\
  writes P (insertCheckedBoolean node field value timestamp) /\
  writes P (insertCheckedDate node field value timestamp) /\
  writes P (insertCheckedArray JSON_stringify node field value timestamp) /\
  (forall s, writes P (insertCheckedString node field s timestamp)).
Proof.
  intros HP.
  unfold insertCheckedNumber, insertCheckedBoolean, insertCheckedDate,
    insertCheckedArray, insertCheckedString.
  repeat split; intros;
    repeat first [ apply writes_checkIsLatest | apply writes_setIsLatest
                 | writes_step ].
Qed.

(** The fields of the rows that [insert] adds for [value] at [field]. *)
Let inserted (field : string) (value : jsval) (f : string) : Prop :=
  1 <= len f <= MAX_FIELD_SIZE
  /\ (f = field \/ exists ks, key_path value ks /\ f = field ++ dotted ks).

Lemma inserted_child field value k child f :
  In (k, child) (entries value) ->
  inserted (field ++ "." ++ k) child f -> inserted field value f.
Proof.
  intros Hin [Hfl [->|(ks & Hks & ->)]]; (split; [exact Hfl|]); right.
  - exists [k]. split; [econstructor; exact Hin|].
    simpl. now rewrite append_nil_r.
  - exists (k :: ks). split; [econstructor 2; eauto|].
    simpl. now rewrite !append_assoc.
Qed.

Lemma writes_insert node timestamp value :
  forall field, writes (inserted field value) (insert node field value timestamp).
Proof.
  induction value as [| |b|n|s|t|elts IH|props IH|props IH]
    using jsval_nested_ind; intros field; simpl;
    (apply writes_if; [apply writes_throw|]);
    (apply writes_if; [apply writes_throw|]);
    (destruct ((len field =? 0) || (MAX_FIELD_SIZE <? len field)) eqn:Hlen;
     [apply writes_throw|]);
    apply orb_false_iff in Hlen; destruct Hlen as [Hl1 Hl2];
    apply Z.eqb_neq in Hl1; apply Z.ltb_ge in Hl2;
    assert (Hlen : 1 <= len field <= MAX_FIELD_SIZE)
      by (unfold len in *; lia);
    match goal with
    | |- writes (inserted _ ?v) _ =>
        assert (Hleaf : inserted field v field) by (split; [exact Hlen|now left]);
        destruct (writes_insert_leaves _ node field v timestamp Hleaf)
          as (Hwn & Hwb & Hwd & Hwa & Hws)
    end.
  - apply writes_detached, writes_throw.
  - apply writes_detached, writes_throw.
  - apply writes_bind; [exact Hwb|intros; apply writes_ret].
  - destruct n; try apply writes_detached, writes_ret.
    apply writes_bind; [exact Hwn|intros; apply writes_ret].
  - apply writes_bind; [apply Hws|intros; apply writes_ret].
  - apply writes_bind; [exact Hwd|intros; apply writes_ret].
  - apply writes_bind; [exact Hwa|intros; apply writes_ret].
  - apply writes_detached, writes_Promise_all. intros [k child] Hin.
    rewrite Forall_forall in IH. specialize (IH _ Hin (field ++ "." ++ k)).
    eapply writes_mono; [|exact IH].
    intros f. apply inserted_child. exact Hin.
  - apply writes_detached, writes_Promise_all. intros [k child] Hin.
    rewrite Forall_forall in IH. specialize (IH _ Hin (field ++ "." ++ k)).
    eapply writes_mono; [|exact IH].
    intros f. apply inserted_child. exact Hin.
Qed.

Lemma dotted_field_ok k ks :
  1 <= len (dotted (k :: ks)) <= MAX_FIELD_SIZE -> field_ok (dotted (k :: ks)).
Proof.
  intros H. split; [|exact H]. simpl.
  destruct (ascii_dec "." ".") as [_|Hne]; [|congruence].
  destruct (k ++ dotted ks); reflexivity.
Qed.

Lemma writes_insertObject node value timestamp :
  writes (fun f => field_ok f
                   /\ exists ks, key_path value ks /\ f = dotted ks)
    (insertObject node value timestamp).
Proof.
  unfold insertObject.
  apply writes_if; [apply writes_throw|].
  apply writes_bind; [|intros _].
  { intros st. rewrite lock_run. apply extends_refl. }
  unfold insertCheckedObject.
  assert (Hall : writes (fun f => field_ok f
                                  /\ exists ks, key_path value ks /\ f = dotted ks)
                   (Promise_all
                      (fun kv => insert node ("" ++ "." ++ fst kv) (snd kv) timestamp)
                      (entries value))).
  { apply writes_Promise_all. intros [k child] Hin.
    eapply writes_mono; [|apply writes_insert].
    intros f Hf. apply (inserted_child "" value k child f Hin) in Hf.
    destruct Hf as [Hfl [->|(ks & Hks & ->)]].
    - exfalso. unfold len in Hfl. simpl in Hfl. lia.
    - simpl. destruct ks as [|k0 ks]; [inversion Hks|].
      split; [apply dotted_field_ok; exact Hfl|eauto]. }
  destruct value; try exact Hall; intros st; apply extends_refl.
Qed.

(** C10.  [insert] refuses a field that is empty or longer than 512
    characters and leaves the store as it was; and every row that
    [insertObject] adds carries the field [dotted ks] of a chain [ks] of
    nested property names of the value, one dot-prefixed segment per
    level, nonempty and at most 512 characters long, while the rows
    already stored keep their fields.  So the fields of a store stay
    nonempty dot-prefixed strings of at most 512 characters. *)
Theorem stored_fields_invariant node value timestamp st :
  (forall field v,
      len field = 0 \/ MAX_FIELD_SIZE < len field ->
      exists e, insert node field v timestamp st = (st, Err e))
  /\ (forall t, exists added,
        map row_field
          (rows (get_table t (after (insertObject node value timestamp) st)))
        = (map row_field (rows (get_table t st)) ++ added)%list
        /\ Forall (fun f => field_ok f
                            /\ exists ks, key_path value ks /\ f = dotted ks)
             added)
  /\ (stored_fields_ok st ->
      stored_fields_ok (after (insertObject node value timestamp) st)).
Proof.
  assert (Hw := writes_insertObject node value timestamp st).
  split; [|split].
  - intros field v Hbad.
    assert (Hb : (len field =? 0) || (MAX_FIELD_SIZE <? len field) = true).
    { apply orb_true_iff. destruct Hbad; [left; apply Z.eqb_eq|right; apply Z.ltb_lt];
        assumption. }
    assert (Hins : insert node field v timestamp
                   = if negb (isDate timestamp) then throw BadTimestamp
                     else if negb (isNode node) then throw BadNode
                     else throw BadField).
    { destruct v; simpl; rewrite Hb; reflexivity. }
    rewrite Hins.
    destruct (isDate timestamp); [|eexists; reflexivity].
    destruct (isNode node); eexists; reflexivity.
  - exact Hw.
  - intros Hok t r Hr. destruct (Hw t) as (added & E & F).
    apply (in_map row_field) in Hr. unfold after in Hr. rewrite E in Hr.
    apply in_app_or in Hr. destruct Hr as [Hr|Hr].
    + apply in_map_iff in Hr. destruct Hr as (r0 & <- & Hr0).
      apply (Hok t r0 Hr0).
    + rewrite Forall_forall in F. apply (F _ Hr).
Qed.

End WriteProperties.

Lemma stored_fields_invariant_witness :
  let node := VStr "id-1" in
  let value := VObj [("a", jsint 1); ("sub", VObj [("value", VStr "x")])] in
  let timestamp := VDate (Some 1000) in
  let st := after (insertObject HostJSON.stringify node (readme_object 5)
                     (VDate (Some 500))) example_store in
  (exists e, insert HostJSON.stringify node "" (jsint 1) timestamp st = (st, Err e))
  /\ stored_fields_ok (after (insertObject HostJSON.stringify node value timestamp) st).
Proof.
  intros node value timestamp st.
  destruct (stored_fields_invariant HostJSON.stringify node value timestamp st)
    as (Hreject & _ & Hkeep).
  split.
  - apply Hreject. left. reflexivity.
  - apply Hkeep. intros t r.
    destruct t; simpl;
      (intros [<-|[]]; split; [reflexivity|unfold len, MAX_FIELD_SIZE; simpl; lia]).
Defined.

(* ------------------------------------------------------------------ *)
(** ** Rebuilding the nested object *)

Lemma NoDup_keys_eq {A} (l : list (string * A)) k a b :
  NoDup (map fst l) -> In (k, a) l -> In (k, b) l -> a = b.
Proof.
  intros Hnd Ha Hb.
  apply (In_get_own _ _ _ _ Hnd) in Ha. apply (In_get_own _ _ _ _ Hnd) in Hb.
  congruence.
Qed.

Lemma paths_of_object p v props :
  In (p, v) (paths_of (VObj props)) <->
  exists k c rest, p = k :: rest /\ In (k, c) props /\ In (rest, v) (paths_of c).
Proof.
  simpl. rewrite in_flat_map. split.
  - intros ([k c] & Hin & Hp). apply in_map_iff in Hp.
    destruct Hp as ([rest x] & [= <- <-] & Hr). simpl. eauto 6.
  - intros (k & c & rest & -> & Hin & Hr). exists (k, c). split; [exact Hin|].
    apply in_map_iff. exists (rest, v). auto.
Qed.

Lemma below_cons k k' rest S :
  below k ((k' :: rest) :: S)
  = ((if String.eqb k' k then [rest] else []) ++ below k S)%list.
Proof. reflexivity. Qed.

Lemma below_In k rest S : In (k :: rest) S -> In rest (below k S).
Proof.
  intros H. unfold below. apply in_flat_map. exists (k :: rest).
  split; [exact H|]. rewrite String.eqb_refl. now left.
Qed.

Section StorableFacts.

Variable JSON_stringify : jsval -> string.
Variable JSON_parse : jsval -> option jsval.

Local Abbreviation storable := (storable JSON_stringify JSON_parse).
Local Abbreviation round_trip_leaf := (round_trip_leaf JSON_stringify JSON_parse).

Lemma round_trip_leaf_paths c : round_trip_leaf c -> paths_of c = [([], c)].
Proof. destruct c; simpl; try reflexivity; tauto. Qed.

Lemma storable_object_inv field props :
  storable field (VObj props) ->
  props <> [] /\ NoDup (map fst props)
  /\ forall k c, In (k, c) props ->
                 plain_name k /\ storable (field ++ "." ++ k) c.
Proof.
  intros H. inversion H as [? ? _ Hl|? ? _ Hne Hnd Hch]; subst.
  - destruct Hl.
  - auto.
Qed.

Lemma storable_has_path c :
  forall field, storable field c -> exists p v, In (p, v) (paths_of c).
Proof.
  induction c as [| |b|n|s|t|elts IH|props IH|props IH]
    using jsval_nested_ind; intros field H;
    try (eexists [], _; simpl; left; reflexivity).
  apply storable_object_inv in H. destruct H as (Hne & Hnd & Hch).
  destruct props as [|[k c] props]; [congruence|].
  inversion IH as [|? ? IHc _]; subst. simpl in IHc.
  destruct (Hch k c (or_introl eq_refl)) as [_ Hc].
  destruct (IHc _ Hc) as (p & v & Hp).
  exists (k :: p), v. apply paths_of_object. exists k, c, p.
  split; [reflexivity|]. split; [now left|exact Hp].
Qed.

End StorableFacts.

Section Rebuild.

Variable JSON_stringify : jsval -> string.
Variable JSON_parse : jsval -> option jsval.
Variable timestamp : jsval.

Local Abbreviation storable := (storable JSON_stringify JSON_parse).
Local Abbreviation round_trip_leaf := (round_trip_leaf JSON_stringify JSON_parse).
Local Abbreviation Built := (Built timestamp).

Lemma Built_nil props : Built [] props [].
Proof.
  constructor.
  - constructor.
  - intros k. simpl. tauto.
  - intros k x. discriminate.
Qed.

(** One write of the loop keeps [Built]. *)
Lemma Built_set S props o k c x rest :
  Built S props o -> In (k, c) props ->
  (paths_of c = [([], c)] /\ x = leaf c timestamp
   \/ exists cprops o', c = VObj cprops /\ x = VObj o'
                        /\ Built (rest :: below k S) cprops o') ->
  Built ((k :: rest) :: S) props (set_own k x o).
Proof.
  intros HB Hin Hx. inversion HB as [? ? ? Hnd Hnone Hsome]; subst.
  constructor.
  - apply NoDup_set_own, Hnd.
  - intros k'. rewrite get_own_set_own, below_cons.
    destruct (String.eqb k k') eqn:E.
    + split; [discriminate|]. simpl. discriminate.
    + simpl. apply Hnone.
  - intros k' x'. rewrite get_own_set_own, below_cons.
    destruct (String.eqb k k') eqn:E.
    + apply String.eqb_eq in E. subst k'. intros [= <-].
      exists c. split; [exact Hin|]. simpl. exact Hx.
    + simpl. apply Hsome.
Qed.

Lemma assign_built :
  forall p v field props S o,
    NoDup (map fst props) ->
    (forall k c, In (k, c) props ->
                 plain_name k /\ storable (field ++ "." ++ k) c) ->
    In (p, v) (paths_of (VObj props)) ->
    Built S props o ->
    exists o',
      assign_path (removelast p) (last p "") (Ok (leaf v timestamp)) o = Ok o'
      /\ Built (p :: S) props o'.
Proof.
  induction p as [|k rest IH]; intros v field props S o Hnd Hch Hp HB.
  { apply paths_of_object in Hp. destruct Hp as (? & ? & ? & [=] & _). }
  apply paths_of_object in Hp.
  destruct Hp as (k0 & c & rest0 & [= <- <-] & Hin & Hrest).
  destruct (Hch k c Hin) as [(Hproto & Hhas & Hdot) Hc].
  assert (Hassign : forall x, js_assign k x o = set_own k x o).
  { intros x. unfold js_assign.
    destruct (String.eqb k "__proto__") eqn:E; [|reflexivity].
    apply String.eqb_eq in E. congruence. }
  inversion Hc as [? ? _ Hl|? cprops _ Hne Hndc Hchc]; subst.
  - (* the leaf of [k] *)
    rewrite (round_trip_leaf_paths _ _ _ Hl) in Hrest.
    destruct Hrest as [[= <- <-]|[]]. simpl.
    rewrite Hassign. eexists. split; [reflexivity|].
    apply Built_set with c; auto. left.
    split; [apply (round_trip_leaf_paths _ _ _ Hl)|reflexivity].
  - (* a leaf below the object at [k] *)
    destruct rest as [|k2 rest2].
    { apply paths_of_object in Hrest. destruct Hrest as (? & ? & ? & [=] & _). }
    change (removelast (k :: k2 :: rest2)) with (k :: removelast (k2 :: rest2)).
    change (last (k :: k2 :: rest2) "") with (last (k2 :: rest2) "").
    inversion HB as [? ? ? Hndo Hnone Hsome]; subst.
    cbn [assign_path].
    destruct (get_own "hasOwnProperty" o) as [xh|] eqn:Eh.
    { exfalso. destruct (Hsome _ _ Eh) as (ch & Hinh & _).
      destruct (Hch _ _ Hinh) as [(_ & Hh & _) _]. congruence. }
    destruct (get_own k o) as [x|] eqn:Ek.
    + destruct (Hsome _ _ Ek) as (c' & Hin' & Hx).
      assert (c' = VObj cprops) by (apply (NoDup_keys_eq props k _ _ Hnd Hin' Hin)).
      subst c'.
      destruct Hx as [[Hpaths _]|(cprops' & o1 & [= <-] & -> & HB1)].
      { exfalso. rewrite Hpaths in Hrest. destruct Hrest as [[=]|[]]. }
      destruct (IH v (field ++ "." ++ k) cprops (below k S) o1 Hndc Hchc Hrest HB1)
        as (o1' & Hrun & HB1').
      rewrite Hrun. eexists. split; [reflexivity|].
      apply Built_set with (VObj cprops); auto. right. eauto.
    + assert (Hb : below k S = []) by (apply Hnone; exact Ek).
      destruct (IH v (field ++ "." ++ k) cprops [] [] Hndc Hchc Hrest
                  (Built_nil cprops)) as (tmp & Hrun & HB1').
      rewrite Hrun, Hassign. eexists. split; [reflexivity|].
      apply Built_set with (VObj cprops); auto. right.
      rewrite Hb. eauto.
Qed.

Lemma get_own_map_snd {A B} (f : A -> B) k (l : list (string * A)) :
  get_own k (map (fun kv => (fst kv, f (snd kv))) l)
  = option_map f (get_own k l).
Proof.
  induction l as [|[k0 a] l IH]; simpl; [reflexivity|].
  destruct (String.eqb k0 k); [reflexivity|exact IH].
Qed.

(** Once every leaf is handled, what is built is the decorated object,
    up to the order of the properties. *)
Lemma Built_all v :
  forall field props S o,
    v = VObj props ->
    NoDup (map fst props) ->
    (forall k c, In (k, c) props ->
                 plain_name k /\ storable (field ++ "." ++ k) c) ->
    Built S props o ->
    (forall p x, In (p, x) (paths_of (VObj props)) -> In p S) ->
    same_object (VObj o) (decorate timestamp (VObj props)).
Proof.
  induction v as [| |b|n|s|t|elts IH|props0 IH|props0 IH]
    using jsval_nested_ind; intros field props S o Hv; try discriminate.
  injection Hv as <-. intros Hnd Hch HB Hall.
  inversion HB as [? ? ? Hndo Hnone Hsome]; subst.
  simpl decorate. apply same_props.
  - exact Hndo.
  - rewrite map_map. simpl. exact Hnd.
  - intros k. rewrite get_own_map_snd. split.
    + intros Hk. destruct (get_own k props0) as [c|] eqn:Ec; [|reflexivity].
      exfalso. apply get_own_In in Ec.
      destruct (Hch k c Ec) as [_ Hc].
      destruct (storable_has_path _ _ c _ Hc) as (p & x & Hp).
      assert (Hin : In (k :: p) S).
      { apply (Hall (k :: p) x). apply paths_of_object. eauto 6. }
      apply below_In in Hin. apply Hnone in Hk. rewrite Hk in Hin. destruct Hin.
    + intros Hk. destruct (get_own k o) as [x|] eqn:Ex; [|reflexivity].
      exfalso. destruct (Hsome _ _ Ex) as (c & Hin & _).
      apply (In_get_own _ _ _ _ Hnd) in Hin. rewrite Hin in Hk. discriminate.
  - intros k x y Hx Hy. rewrite get_own_map_snd in Hy.
    destruct (Hsome _ _ Hx) as (c & Hin & Hc).
    rewrite (In_get_own _ _ _ _ Hnd Hin) in Hy. simpl in Hy.
    injection Hy as <-.
    destruct Hc as [[Hpaths ->]|(cprops & o' & -> & -> & HB')].
    + destruct c; try apply same_value.
      exfalso.
      assert (Hp : In ([], VObj props) (paths_of (VObj props)))
        by (rewrite Hpaths; now left).
      apply paths_of_object in Hp. destruct Hp as (? & ? & ? & [=] & _).
    + rewrite Forall_forall in IH.
      destruct (Hch k _ Hin) as [_ Hc].
      apply storable_object_inv in Hc. destruct Hc as (Hne & Hndc & Hchc).
      apply (IH (k, VObj cprops) Hin (field ++ "." ++ k) cprops (below k S) o');
        auto.
      intros p x Hp. apply below_In. apply (Hall (k :: p) x).
      apply paths_of_object. eauto 6.
Qed.

End Rebuild.

(** ** Fields and paths *)

Lemma split_not_nil c s : split c s <> [].
Proof.
  destruct s as [|a s]; simpl; [discriminate|].
  destruct (Ascii.eqb a c); [discriminate|].
  destruct (split c s); discriminate.
Qed.

Lemma split_plain k s :
  no_dot k = true ->
  split dot (k ++ s)
  = match split dot s with
    | h :: tl => (k ++ h) :: tl
    | [] => [k]
    end.
Proof.
  induction k as [|c k IH]; simpl; intros H.
  - destruct (split dot s) eqn:E; [|reflexivity].
    exfalso. exact (split_not_nil _ _ E).
  - apply andb_true_iff in H. destruct H as [Hc Hk].
    apply negb_true_iff in Hc. rewrite Hc, (IH Hk).
    destruct (split dot s); reflexivity.
Qed.

Lemma split_dotted ks :
  Forall (fun k => no_dot k = true) ks -> split dot (dotted ks) = "" :: ks.
Proof.
  induction ks as [|k ks IH]; intros H; [reflexivity|].
  inversion H as [|? ? Hk Hks]; subst.
  change (dotted (k :: ks)) with (String dot (k ++ dotted ks)).
  cbn [split]. rewrite Ascii.eqb_refl, (split_plain _ _ Hk), (IH Hks).
  now rewrite append_nil_r.
Qed.

Lemma dotted_inj ks1 ks2 :
  Forall (fun k => no_dot k = true) ks1 ->
  Forall (fun k => no_dot k = true) ks2 ->
  dotted ks1 = dotted ks2 -> ks1 = ks2.
Proof.
  intros H1 H2 E. apply split_dotted in H1, H2. congruence.
Qed.

Lemma new_Date_valid t : valid_time t -> new_Date (jsint t) = VDate (Some t).
Proof.
  unfold valid_time, new_Date, jsint, TimeClip, inject_Z. simpl.
  intros H. rewrite Z.quot_1_r.
  apply Z.leb_le in H. rewrite H. reflexivity.
Qed.

Section Paths.

Variable JSON_stringify : jsval -> string.
Variable JSON_parse : jsval -> option jsval.

Local Abbreviation storable := (storable JSON_stringify JSON_parse).
Local Abbreviation round_trip_leaf := (round_trip_leaf JSON_stringify JSON_parse).
Local Abbreviation stored := (stored JSON_stringify).
Local Abbreviation decode := (decode JSON_parse).

Lemma decode_stored v :
  round_trip_leaf v -> decode (type_of v) (stored v) = Ok v.
Proof.
  destruct v as [| |b|n|s|d|elts|props|props]; simpl; try tauto.
  - destruct b; reflexivity.
  - destruct d as [d|]; [|tauto]. intros H.
    change (VNum (Fin (inject_Z d))) with (jsint d).
    now rewrite new_Date_valid.
  - intros [_ ->]. reflexivity.
Qed.

Lemma storable_paths :
  forall p c field v,
    storable field c -> In (p, v) (paths_of c) ->
    Forall plain_name p /\ round_trip_leaf v.
Proof.
  induction p as [|k rest IH]; intros c field v Hc Hp.
  - inversion Hc as [? ? _ Hl|? props _ Hne Hnd Hch]; subst.
    + rewrite (round_trip_leaf_paths _ _ _ Hl) in Hp.
      destruct Hp as [[= <-]|[]]. auto.
    + apply paths_of_object in Hp. destruct Hp as (? & ? & ? & [=] & _).
  - inversion Hc as [? ? _ Hl|? props _ Hne Hnd Hch]; subst.
    + rewrite (round_trip_leaf_paths _ _ _ Hl) in Hp.
      destruct Hp as [[=]|[]].
    + apply paths_of_object in Hp.
      destruct Hp as (k0 & c' & rest0 & [= <- <-] & Hin & Hrest).
      destruct (Hch _ _ Hin) as [Hk Hc'].
      destruct (IH _ _ _ Hc' Hrest) as [Hplain Hl]. auto.
Qed.

Lemma plain_no_dot p :
  Forall plain_name p -> Forall (fun k => no_dot k = true) p.
Proof. apply Forall_impl. intros k (_ & _ & H). exact H. Qed.

Variable t : Z.
Hypothesis t_valid : valid_time t.

(** The loop of [convertToObject] over the keys of leaves of the
    object keeps [Built]. *)
Lemma convert_paths mapObject props :
  NoDup (map fst props) ->
  (forall k c, In (k, c) props -> plain_name k /\ storable ("." ++ k) c) ->
  forall ps,
    (forall p, In p ps ->
       exists v, In (p, v) (paths_of (VObj props))
                 /\ get_own (dotted p) mapObject
                    = Some (mkEntry (stored v) (type_of v) t)) ->
    forall S o,
      Built (VDate (Some t)) S props o ->
      exists o',
        convert_keys JSON_parse mapObject (map dotted ps) o = Ok o'
        /\ Built (VDate (Some t)) (rev ps ++ S) props o'.
Proof.
  intros Hnd Hch ps. induction ps as [|p ps IH]; intros Hps S o HB.
  - exists o. split; [reflexivity|exact HB].
  - destruct (Hps p (or_introl eq_refl)) as (v & Hp & Hget).
    assert (Hplain : Forall plain_name p /\ round_trip_leaf v).
    { apply paths_of_object in Hp.
      destruct Hp as (k & c & rest & -> & Hin & Hrest).
      destruct (Hch _ _ Hin) as [Hk Hc].
      destruct (storable_paths _ _ _ _ Hc Hrest). auto. }
    destruct Hplain as [Hplain Hl].
    destruct (assign_built JSON_stringify JSON_parse (VDate (Some t))
                p v "" props S o Hnd Hch Hp HB) as (o1 & Hrun & HB1).
    destruct (IH (fun q Hq => Hps q (or_intror Hq)) (p :: S) o1 HB1)
      as (o' & Hrun' & HB').
    exists o'. split.
    + simpl map. cbn [convert_keys]. unfold convert_key. rewrite Hget.
      cbn [entry_type entry_value entry_timestamp].
      rewrite (split_dotted _ (plain_no_dot _ Hplain)), (decode_stored _ Hl),
        (new_Date_valid _ t_valid).
      assert (Hi : interior_of ("" :: p) = removelast p) by reflexivity.
      assert (Hla : last_of ("" :: p) = last p "").
      { destruct p; [|reflexivity].
        apply paths_of_object in Hp. destruct Hp as (? & ? & ? & [=] & _). }
      rewrite Hi, Hla, Hrun. exact Hrun'.
    + simpl rev. rewrite <- app_assoc. exact HB'.
Qed.

End Paths.

(* ------------------------------------------------------------------ *)
(** ** What a write of a storable object leaves in the store *)

Lemma ty_eqb_refl t : ty_eqb t t = true.
Proof. destruct t; reflexivity. Qed.

Lemma ty_eqb_neq a b : a <> b -> ty_eqb a b = false.
Proof.
  intros H. destruct (ty_eqb a b) eqn:E; [|reflexivity].
  apply ty_eqb_eq in E. contradiction.
Qed.

Section Logs.

Variable JSON_stringify : jsval -> string.
Variable JSON_parse : jsval -> option jsval.
Variable node : jsval.
Variable t : Z.
Hypothesis node_valid : valid_node node = true.

Local Abbreviation logs := (logs JSON_stringify node t).
Local Abbreviation stored := (stored JSON_stringify).
Local Abbreviation storable := (storable JSON_stringify JSON_parse).
Local Abbreviation round_trip_leaf := (round_trip_leaf JSON_stringify JSON_parse).

Lemma logs_refl st : logs [] st st.
Proof. split; [reflexivity|]. intros type. simpl. now rewrite app_nil_r. Qed.

Lemma logs_app l1 l2 st1 st2 st3 :
  logs l1 st1 st2 -> logs l2 st2 st3 -> logs (l1 ++ l2) st1 st3.
Proof.
  intros [Hi1 H1] [Hi2 H2]. split; [congruence|].
  intros type. rewrite H2, H1, filter_app, map_app, app_assoc. reflexivity.
Qed.

Lemma checkIsLatest_run table field st :
  exists latest,
    checkIsLatest table node field (Some t) st = (st, Ok latest).
Proof.
  unfold checkIsLatest, morerecents, bind.
  rewrite (sql_node_ok _ _ node_valid). cbv beta iota.
  unfold sql_timestamp, ret at 1. cbv beta iota.
  unfold sqlapi_select at 1. cbv beta iota. unfold ret at 1. cbv beta iota.
  match goal with |- context [if ?b then _ else _] => destruct b end;
    eexists; reflexivity.
Qed.

Lemma setIsLatest_run table field id latest st :
  exists st',
    setIsLatest table node field id latest st = (st', Ok tt)
    /\ logs [] st st'.
Proof.
  unfold setIsLatest. destruct (negb (truthy latest)).
  - exists st. split; [reflexivity|apply logs_refl].
  - unfold bind. rewrite (sql_node_ok _ _ node_valid). cbv beta iota.
    eexists. split; [reflexivity|].
    split; [apply is_initialized_set_table|].
    intros type. simpl filter. simpl map at 3. rewrite app_nil_r.
    destruct (ty_eqb type (ref_type table)) eqn:E.
    + apply ty_eqb_eq in E. subst type. rewrite get_set_table_same.
      simpl. rewrite map_map. apply map_ext.
      intros r. match goal with |- context [if ?b then _ else _] => destruct b end;
        reflexivity.
    + rewrite get_set_table_other; [reflexivity|].
      intros ->. rewrite ty_eqb_refl in E. discriminate.
Qed.

Lemma sqlapi_insert_logs name field v latest st :
  logs [(field, v)] st
    (fst (sqlapi_insert (mkRef name (type_of v)) node (stored v) field t latest st)).
Proof.
  unfold sqlapi_insert. cbn [fst ref_type].
  split; [apply is_initialized_set_table|].
  intros type. cbn [filter snd fst].
  destruct (ty_eqb (type_of v) type) eqn:E.
  - apply ty_eqb_eq in E. subst type. rewrite get_set_table_same. simpl.
    rewrite map_app. reflexivity.
  - rewrite get_set_table_other.
    + simpl. now rewrite app_nil_r.
    + intros ->. rewrite ty_eqb_refl in E. discriminate.
Qed.

Lemma sqlapi_insert_run name field v latest st :
  exists st' id,
    sqlapi_insert (mkRef name (type_of v)) node (stored v) field t latest st
    = (st', Ok id)
    /\ logs [(field, v)] st st'.
Proof.
  eexists _, _. split; [reflexivity|]. apply sqlapi_insert_logs.
Qed.

(** The part that the [insertChecked...] functions share, with
    [setIsLatest] awaited or not. *)
Lemma insert_row_run name field v (k : Z -> jsval) (awaited : bool) st :
  exists st' id,
    (latest <- checkIsLatest (mkRef name (type_of v)) node field (Some t) ;;
     t' <- sql_timestamp (Some t) ;;
     result <- sqlapi_insert (mkRef name (type_of v)) node (stored v) field
                 t' latest ;;
     (if awaited
      then setIsLatest (mkRef name (type_of v)) node field result (k latest)
      else detached (setIsLatest (mkRef name (type_of v)) node field result
                       (k latest))) ;;;
     ret result) st
    = (st', Ok id)
    /\ logs [(field, v)] st st'.
Proof.
  unfold bind at 1.
  destruct (checkIsLatest_run (mkRef name (type_of v)) field st) as [latest ->].
  cbv beta iota. unfold bind at 1. unfold sql_timestamp, ret at 1. cbv beta iota.
  unfold bind at 1.
  destruct (sqlapi_insert_run name field v latest st) as (st1 & id & -> & H1).
  cbv beta iota. unfold bind at 1.
  destruct (setIsLatest_run (mkRef name (type_of v)) field id (k latest) st1)
    as (st2 & H2 & L2).
  exists st2, id. split.
  - destruct awaited; [|unfold detached]; rewrite H2; reflexivity.
  - apply (logs_app _ _ _ _ _ H1 L2).
Qed.

Lemma insert_leaf_run v field st :
  round_trip_leaf v -> 1 <= len field <= MAX_FIELD_SIZE ->
  is_initialized st = true ->
  exists st',
    insert JSON_stringify node field v (VDate (Some t)) st = (st', Ok tt)
    /\ logs [(field, v)] st st'.
Proof.
  intros Hl Hlen Hi.
  assert (Hfield : (len field =? 0) || (MAX_FIELD_SIZE <? len field) = false).
  { apply orb_false_iff. split; [apply Z.eqb_neq|apply Z.ltb_ge]; lia. }
  assert (Hnode := valid_node_isNode _ node_valid).
  destruct v as [| |b|n|s|d|elts|props|props]; try contradiction;
    cbn [insert]; cbn [isDate negb]; rewrite Hnode, Hfield;
    cbn [negb].
  - (* boolean *)
    unfold insertCheckedBoolean, getTime. unfold bind at 1. unfold bind at 1.
    unfold ret at 1. cbv beta iota. unfold bind at 1.
    rewrite (getTableForType_ok _ _ Hi). cbv beta iota.
    destruct (insert_row_run (table_name Tboolean st) field (VBool b) jsint false st)
      as (st' & id & Hrun & HL).
    cbn [type_of stored] in Hrun. cbn [truthy]. rewrite Hrun.
    exists st'. split; [reflexivity|exact HL].
  - (* number *)
    destruct n as [q| |]; try contradiction.
    unfold insertCheckedNumber, getTime. unfold bind at 1. unfold bind at 1.
    unfold ret at 1. cbv beta iota. unfold bind at 1.
    rewrite (getTableForType_ok _ _ Hi). cbv beta iota.
    destruct (insert_row_run (table_name Tnumber st) field (VNum (Fin q)) jsint
                false st) as (st' & id & Hrun & HL).
    cbn [type_of stored] in Hrun. rewrite Hrun.
    exists st'. split; [reflexivity|exact HL].
  - (* string *)
    simpl in Hl.
    unfold insertCheckedString, getTime. unfold bind at 1. unfold bind at 1.
    unfold ret at 1. cbv beta iota.
    assert ((MAX_STRING_SIZE <? len s) = false) as -> by (apply Z.ltb_ge; lia).
    unfold bind at 1.
    rewrite (getTableForType_ok _ _ Hi). cbv beta iota.
    destruct (insert_row_run (table_name Tstring st) field (VStr s) jsint
                true st) as (st' & id & Hrun & HL).
    cbn [type_of stored] in Hrun. rewrite Hrun.
    exists st'. split; [reflexivity|exact HL].
  - (* date *)
    destruct d as [d|]; [|contradiction].
    unfold insertCheckedDate, getTime. unfold bind at 1. unfold bind at 1.
    unfold ret at 1. cbv beta iota. unfold bind at 1. unfold ret at 1.
    cbv beta iota. unfold bind at 1.
    rewrite (getTableForType_ok _ _ Hi). cbv beta iota.
    unfold bind at 1.
    destruct (checkIsLatest_run (mkRef (table_name Tdate st) Tdate) field st)
      as [latest ->].
    cbv beta iota. unfold bind at 1. unfold sql_timestamp, ret at 1.
    cbv beta iota. unfold bind at 1. unfold ret at 1. cbv beta iota.
    unfold bind at 1.
    destruct (sqlapi_insert_run (table_name Tdate st) field (VDate (Some d))
                latest st) as (st1 & id & Hrun & H1).
    cbn [type_of stored] in Hrun. rewrite Hrun. cbv beta iota.
    unfold bind at 1.
    destruct (setIsLatest_run (mkRef (table_name Tdate st) Tdate) field id
                VUndefined st1) as (st2 & H2 & L2).
    rewrite H2. cbv beta iota.
    exists st2. split; [reflexivity|apply (logs_app _ _ _ _ _ H1 L2)].
  - (* array *)
    simpl in Hl. destruct Hl as [Hsize _].
    unfold insertCheckedArray, getTime. unfold bind at 1. unfold bind at 1.
    unfold ret at 1. cbv beta iota.
    assert ((MAX_ARRAY_SIZE <? len (JSON_stringify (VArr elts))) = false) as ->
      by (apply Z.ltb_ge; lia).
    unfold bind at 1.
    rewrite (getTableForType_ok _ _ Hi). cbv beta iota.
    destruct (insert_row_run (table_name Tarray st) field (VArr elts) jsint
                true st) as (st' & id & Hrun & HL).
    cbn [type_of stored] in Hrun. rewrite Hrun.
    exists st'. split; [reflexivity|exact HL].
Qed.

Lemma Promise_all_logs {A} (f : A -> M unit) (L : A -> list (string * jsval)) l :
  (forall x, In x l -> forall st, is_initialized st = true ->
     exists st', f x st = (st', Ok tt) /\ logs (L x) st st') ->
  forall st, is_initialized st = true ->
    exists st', Promise_all f l st = (st', Ok tt) /\ logs (flat_map L l) st st'.
Proof.
  induction l as [|x l IH]; intros H st Hi.
  - exists st. split; [reflexivity|apply logs_refl].
  - destruct (H x (or_introl eq_refl) st Hi) as (st1 & Hx & L1).
    assert (Hi1 : is_initialized st1 = true) by (destruct L1; congruence).
    destruct (IH (fun y Hy => H y (or_intror Hy)) st1 Hi1) as (st2 & Hl & L2).
    exists st2. split.
    + simpl. rewrite Hx, Hl. reflexivity.
    + simpl. apply (logs_app _ _ _ _ _ L1 L2).
Qed.

Lemma leaves_leaf field v :
  round_trip_leaf v -> leaves field v = [(field, v)].
Proof.
  intros Hl. unfold leaves.
  rewrite (round_trip_leaf_paths _ _ _ Hl). simpl. now rewrite append_nil_r.
Qed.

Lemma leaves_object field props :
  leaves field (VObj props)
  = flat_map (fun kv => leaves (field ++ "." ++ fst kv) (snd kv)) props.
Proof.
  unfold leaves. simpl paths_of.
  induction props as [|[k c] props IH]; [reflexivity|].
  simpl flat_map. rewrite map_app, IH. f_equal.
  rewrite map_map. apply map_ext. intros [p x]. simpl.
  now rewrite !append_assoc.
Qed.

(** [insert] stores a storable value whole. *)
Lemma insert_storable v :
  forall field st,
    storable field v -> is_initialized st = true ->
    exists st',
      insert JSON_stringify node field v (VDate (Some t)) st = (st', Ok tt)
      /\ logs (leaves field v) st st'.
Proof.
  induction v as [| |b|n|s|d|elts IH|props IH|props IH]
    using jsval_nested_ind; intros field st Hs Hi;
    inversion Hs as [? ? Hlen Hl|? ? Hlen Hne Hnd Hch]; subst;
    try contradiction;
    try (rewrite (leaves_leaf _ _ Hl); apply insert_leaf_run; assumption).
  assert (Hfield : (len field =? 0) || (MAX_FIELD_SIZE <? len field) = false).
  { apply orb_false_iff. split; [apply Z.eqb_neq|apply Z.ltb_ge]; lia. }
  cbn [insert]. cbn [isDate negb].
  rewrite (valid_node_isNode _ node_valid), Hfield. cbn [negb].
  rewrite leaves_object. unfold detached.
  destruct (Promise_all_logs
              (fun kv => insert JSON_stringify node (field ++ "." ++ fst kv)
                           (snd kv) (VDate (Some t)))
              (fun kv => leaves (field ++ "." ++ fst kv) (snd kv)) props)
    with (st := st) as (st' & Hrun & HL); [|exact Hi|].
  - intros [k c] Hin st0 Hi0. rewrite Forall_forall in IH.
    apply (IH _ Hin); [|exact Hi0]. apply (Hch _ _ Hin).
  - exists st'. rewrite Hrun. split; [reflexivity|exact HL].
Qed.

Lemma insertObject_run props st :
  NoDup (map fst props) ->
  (forall k c, In (k, c) props -> plain_name k /\ storable ("." ++ k) c) ->
  is_initialized st = true ->
  exists st',
    insertObject JSON_stringify node (VObj props) (VDate (Some t)) st
    = (st', Ok tt)
    /\ logs (leaves "" (VObj props)) st st'.
Proof.
  intros Hnd Hch Hi. unfold insertObject.
  change (negb (String.eqb (typeof (VObj props)) "object")) with false.
  cbv beta iota. unfold bind at 1. rewrite lock_run, Hi. cbv beta iota.
  unfold insertCheckedObject, own_entries. cbn [entries].
  unfold bind at 1. unfold ret at 1. cbv beta iota.
  rewrite leaves_object.
  apply Promise_all_logs; [|exact Hi].
  intros [k c] Hin st0 Hi0. apply insert_storable; [|exact Hi0].
  apply (Hch _ _ Hin).
Qed.

(** *** The latest flags of a first write *)

Local Abbreviation all_latest := (all_latest node t).
Local Abbreviation field_free := (field_free node).

Lemma checkIsLatest_fresh table field st :
  all_latest st ->
  checkIsLatest table node field (Some t) st = (st, Ok 1).
Proof.
  intros HK. unfold checkIsLatest, morerecents, bind.
  rewrite (sql_node_ok _ _ node_valid). cbv beta iota.
  unfold sql_timestamp, ret at 1. cbv beta iota.
  unfold sqlapi_select at 1. cbv beta iota. unfold ret at 1. cbv beta iota.
  rewrite filter_none; [reflexivity|].
  intros r Hr.
  destruct (node_eqb (row_node r) node) eqn:En; [|reflexivity].
  assert (Hin : In r (rows_of node (ref_type table) st))
    by (apply filter_In; auto).
  destruct (HK _ _ Hin) as [_ Hts].
  assert ((t <? row_timestamp r) = false) as -> by (apply Z.ltb_ge; lia).
  reflexivity.
Qed.

Lemma rows_of_insert name type v field st type' r :
  In r (rows_of node type'
          (fst (sqlapi_insert (mkRef name type) node v field t 1 st))) ->
  In r (rows_of node type' st)
  \/ (type' = type
      /\ r = mkRow (auto_increment (get_table type st)) node v field t 1).
Proof.
  unfold rows_of, sqlapi_insert. cbn [fst ref_type].
  destruct (ty_eqb type' type) eqn:E.
  - apply ty_eqb_eq in E. subst type'. rewrite get_set_table_same. cbn [rows].
    rewrite filter_app, in_app_iff. intros [H|H]; [now left|right].
    split; [reflexivity|]. simpl in H.
    destruct (node_eqb node node); [|destruct H].
    destruct H as [<-|[]]. reflexivity.
  - rewrite get_set_table_other; [now left|].
    intros ->. rewrite ty_eqb_refl in E. discriminate.
Qed.

Lemma rows_of_setIsLatest table field id latest st type r :
  In r (rows_of node type (fst (setIsLatest table node field id latest st))) ->
  exists r0,
    In r0 (rows_of node type st)
    /\ (r = r0
        \/ (String.eqb (row_field r0) field && negb (row_id r0 =? id) = true)).
Proof.
  unfold setIsLatest. destruct (negb (truthy latest)).
  { intros H. exists r. auto. }
  unfold bind. rewrite (sql_node_ok _ _ node_valid). cbv beta iota.
  unfold sqlapi_update_latest0, rows_of. cbn [fst].
  destruct (ty_eqb type (ref_type table)) eqn:E.
  - apply ty_eqb_eq in E. subst type. rewrite get_set_table_same. cbn [rows].
    rewrite filter_In, in_map_iff. intros [(r0 & Hr & Hin) Hn].
    exists r0.
    destruct (node_eqb (row_node r0) node && String.eqb (row_field r0) field
              && (row_latest r0 =? 1) && negb (row_id r0 =? id)) eqn:Ec.
    + subst r. cbn [row_node] in Hn.
      split; [apply filter_In; auto|]. right.
      apply andb_true_iff in Ec. destruct Ec as [Ec ->].
      apply andb_true_iff in Ec. destruct Ec as [Ec _].
      apply andb_true_iff in Ec. destruct Ec as [_ ->]. reflexivity.
    + subst r0. split; [apply filter_In; auto|now left].
  - rewrite get_set_table_other.
    + intros H. exists r. auto.
    + intros ->. rewrite ty_eqb_refl in E. discriminate.
Qed.

Lemma insert_row_latest name field v (k : Z -> jsval) (awaited : bool) st :
  all_latest st -> field_free field st ->
  all_latest
    (fst ((latest <- checkIsLatest (mkRef name (type_of v)) node field (Some t) ;;
           t' <- sql_timestamp (Some t) ;;
           result <- sqlapi_insert (mkRef name (type_of v)) node (stored v)
                       field t' latest ;;
           (if awaited
            then setIsLatest (mkRef name (type_of v)) node field result
                   (k latest)
            else detached (setIsLatest (mkRef name (type_of v)) node field
                             result (k latest))) ;;;
           ret result) st)).
Proof.
  intros HK Hfree. unfold bind at 1.
  rewrite (checkIsLatest_fresh _ _ _ HK).
  cbv beta iota. unfold bind at 1. unfold sql_timestamp, ret at 1. cbv beta iota.
  unfold bind at 1.
  destruct (sqlapi_insert (mkRef name (type_of v)) node (stored v) field t 1 st)
    as [st1 r1] eqn:E1.
  assert (Hst1 : st1 = fst (sqlapi_insert (mkRef name (type_of v)) node
                              (stored v) field t 1 st)) by (rewrite E1; reflexivity).
  assert (Hr1 : r1 = Ok (auto_increment (get_table (type_of v) st))).
  { unfold sqlapi_insert in E1. injection E1 as _ <-. reflexivity. }
  subst r1. cbv beta iota. unfold bind at 1.
  set (id := auto_increment (get_table (type_of v) st)).
  assert (Hgoal : all_latest
                    (fst (setIsLatest (mkRef name (type_of v)) node field id
                            (k 1) st1))).
  { intros type r Hr.
    apply rows_of_setIsLatest in Hr. destruct Hr as (r0 & Hr0 & Hcase).
    rewrite Hst1 in Hr0. apply rows_of_insert in Hr0.
    destruct Hr0 as [Hold|[-> ->]].
    - destruct Hcase as [->|Hc]; [apply (HK _ _ Hold)|].
      exfalso. apply andb_true_iff in Hc. destruct Hc as [Hc _].
      apply String.eqb_eq in Hc. apply (Hfree _ _ Hold Hc).
    - destruct Hcase as [->|Hc]; [simpl; auto|].
      exfalso. apply andb_true_iff in Hc. destruct Hc as [_ Hc].
      cbn [row_id] in Hc. fold id in Hc. rewrite Z.eqb_refl in Hc.
      discriminate. }
  destruct awaited; [|unfold detached at 1];
    destruct (setIsLatest (mkRef name (type_of v)) node field id (k 1) st1)
      as [st2 [[]|e]]; exact Hgoal.
Qed.

Lemma insert_leaf_latest v field st :
  round_trip_leaf v -> 1 <= len field <= MAX_FIELD_SIZE ->
  is_initialized st = true ->
  all_latest st -> field_free field st ->
  all_latest (after (insert JSON_stringify node field v (VDate (Some t))) st).
Proof.
  intros Hl Hlen Hi HK Hfree. unfold after.
  assert (Hfield : (len field =? 0) || (MAX_FIELD_SIZE <? len field) = false).
  { apply orb_false_iff. split; [apply Z.eqb_neq|apply Z.ltb_ge]; lia. }
  assert (Hnode := valid_node_isNode _ node_valid).
  assert (Hfst : forall (m : M Z) s,
             fst ((_ <- m ;; ret tt) s) = fst (m s)).
  { intros m s. unfold bind. destruct (m s) as [s' [a|e]]; reflexivity. }
  destruct v as [| |b|n|s|d|elts|props|props]; try contradiction;
    cbn [insert]; cbn [isDate negb]; rewrite Hnode, Hfield;
    cbn [negb]; try rewrite Hfst.
  - (* boolean *)
    unfold insertCheckedBoolean, getTime. unfold bind at 1. unfold bind at 1.
    unfold ret at 1. cbv beta iota. unfold bind at 1.
    rewrite (getTableForType_ok _ _ Hi). cbv beta iota.
    apply (insert_row_latest (table_name Tboolean st) field (VBool b) jsint
             false st HK Hfree).
  - (* number *)
    destruct n as [q| |]; try contradiction. rewrite Hfst.
    unfold insertCheckedNumber, getTime. unfold bind at 1. unfold bind at 1.
    unfold ret at 1. cbv beta iota. unfold bind at 1.
    rewrite (getTableForType_ok _ _ Hi). cbv beta iota.
    apply (insert_row_latest (table_name Tnumber st) field (VNum (Fin q)) jsint
             false st HK Hfree).
  - (* string *)
    simpl in Hl.
    unfold insertCheckedString, getTime. unfold bind at 1. unfold bind at 1.
    unfold ret at 1. cbv beta iota.
    assert ((MAX_STRING_SIZE <? len s) = false) as -> by (apply Z.ltb_ge; lia).
    unfold bind at 1.
    rewrite (getTableForType_ok _ _ Hi). cbv beta iota.
    apply (insert_row_latest (table_name Tstring st) field (VStr s) jsint
             true st HK Hfree).
  - (* date *)
    destruct d as [d|]; [|contradiction].
    unfold insertCheckedDate, getTime. unfold bind at 1. unfold bind at 1.
    unfold ret at 1. cbv beta iota. unfold bind at 1. unfold ret at 1.
    cbv beta iota. unfold bind at 1.
    rewrite (getTableForType_ok _ _ Hi). cbv beta iota.
    unfold bind at 1. rewrite (checkIsLatest_fresh _ _ _ HK).
    cbv beta iota. unfold bind at 1. unfold sql_timestamp, ret at 1.
    cbv beta iota. unfold bind at 1. unfold ret at 1. cbv beta iota.
    unfold bind at 1.
    destruct (sqlapi_insert (mkRef (table_name Tdate st) Tdate) node (jsint d)
                field t 1 st) as [st1 r1] eqn:E1.
    assert (Hst1 : st1 = fst (sqlapi_insert (mkRef (table_name Tdate st) Tdate)
                                node (jsint d) field t 1 st))
      by (rewrite E1; reflexivity).
    assert (Hr1 : exists id, r1 = Ok id).
    { unfold sqlapi_insert in E1. injection E1 as _ <-. eauto. }
    destruct Hr1 as [id ->]. cbv beta iota.
    unfold setIsLatest. cbn [truthy negb]. unfold ret.
    cbv beta iota. cbn [fst].
    intros type r Hr. rewrite Hst1 in Hr. apply rows_of_insert in Hr.
    destruct Hr as [Hold|[-> ->]]; [apply (HK _ _ Hold)|simpl; auto].
  - (* array *)
    simpl in Hl. destruct Hl as [Hsize _].
    unfold insertCheckedArray, getTime. unfold bind at 1. unfold bind at 1.
    unfold ret at 1. cbv beta iota.
    assert ((MAX_ARRAY_SIZE <? len (JSON_stringify (VArr elts))) = false) as ->
      by (apply Z.ltb_ge; lia).
    unfold bind at 1.
    rewrite (getTableForType_ok _ _ Hi). cbv beta iota.
    apply (insert_row_latest (table_name Tarray st) field (VArr elts) jsint
             true st HK Hfree).
Qed.

(** The rows of [node] after a logged write: those it had, and one for
    each logged leaf. *)
Lemma logs_rows_of l st st0 type r :
  logs l st st0 -> In r (rows_of node type st0) ->
  (exists r0, In r0 (rows_of node type st) /\ row_field r0 = row_field r)
  \/ exists v, In (row_field r, v) l.
Proof.
  intros [_ Hrows] Hr. unfold rows_of in Hr. apply filter_In in Hr.
  destruct Hr as [Hin Hn].
  apply (in_map obs_of) in Hin. rewrite Hrows in Hin.
  apply in_app_or in Hin. destruct Hin as [Hin|Hin].
  - left. apply in_map_iff in Hin. destruct Hin as (r0 & E & Hr0).
    unfold obs_of in E. injection E as E1 _ E3 _.
    exists r0. split; [|exact E3].
    apply filter_In. split; [exact Hr0|]. rewrite E1. exact Hn.
  - right. apply in_map_iff in Hin. destruct Hin as ([f v] & E & Hfv).
    apply filter_In in Hfv. destruct Hfv as [Hfv _].
    unfold obs_of in E. simpl in E. injection E as _ _ E3 _. subst f.
    exists v. exact Hfv.
Qed.

Lemma Promise_all_latest {A} (f : A -> M unit) (L : A -> list (string * jsval)) l :
  (forall x, In x l -> forall st, is_initialized st = true ->
     exists st', f x st = (st', Ok tt) /\ logs (L x) st st') ->
  (forall x, In x l -> forall st, is_initialized st = true ->
     all_latest st ->
     (forall fd y, In (fd, y) (L x) -> field_free fd st) ->
     NoDup (map fst (L x)) ->
     all_latest (after (f x) st)) ->
  forall st, is_initialized st = true ->
    all_latest st ->
    (forall fd y, In (fd, y) (flat_map L l) -> field_free fd st) ->
    NoDup (map fst (flat_map L l)) ->
    all_latest (after (Promise_all f l) st).
Proof.
  induction l as [|x l IH]; intros Hlog Hlat st Hi HK Hfree Hnd.
  - exact HK.
  - destruct (Hlog x (or_introl eq_refl) st Hi) as (st1 & Hx & L1).
    assert (Hi1 : is_initialized st1 = true) by (destruct L1; congruence).
    simpl flat_map in Hfree, Hnd. rewrite map_app in Hnd.
    assert (HK1 : all_latest st1).
    { replace st1 with (after (f x) st) by (unfold after; rewrite Hx; reflexivity).
      apply (Hlat x (or_introl eq_refl) st Hi HK).
      - intros fd y Hy. apply (Hfree fd y). apply in_or_app. now left.
      - apply (NoDup_app_remove_r _ _ Hnd). }
    assert (Hstep : after (Promise_all f (x :: l)) st = after (Promise_all f l) st1).
    { unfold after. simpl. rewrite Hx.
      destruct (Promise_all f l st1) as [st2 r2]. reflexivity. }
    rewrite Hstep.
    apply (IH (fun y Hy => Hlog y (or_intror Hy))
              (fun y Hy => Hlat y (or_intror Hy)) st1 Hi1 HK1).
    + intros fd y Hy type r Hr.
      destruct (logs_rows_of _ _ _ _ _ L1 Hr) as [(r0 & Hr0 & <-)|(v & Hv)].
      * apply (Hfree fd y (in_or_app _ _ _ (or_intror Hy)) _ _ Hr0).
      * intros E. rewrite E in Hv.
        apply (in_map fst) in Hv. apply (in_map fst) in Hy. simpl in Hv, Hy.
        revert Hnd Hv Hy. clear. intros Hnd Hv Hy.
        induction (map fst (L x)) as [|a l1 IHl]; [destruct Hv|].
        simpl in Hnd. inversion Hnd as [|? ? Hna Hnd']; subst.
        destruct Hv as [->|Hv]; [|auto].
        apply Hna. apply in_or_app. now right.
    + apply (NoDup_app_remove_l _ _ Hnd).
Qed.

Lemma insert_storable_latest v :
  forall field st,
    storable field v -> is_initialized st = true ->
    all_latest st ->
    (forall fd y, In (fd, y) (leaves field v) -> field_free fd st) ->
    NoDup (map fst (leaves field v)) ->
    all_latest (after (insert JSON_stringify node field v (VDate (Some t))) st).
Proof.
  induction v as [| |b|n|s|d|elts IH|props IH|props IH]
    using jsval_nested_ind; intros field st Hs Hi HK Hfree Hnd;
    inversion Hs as [? ? Hlen Hl|? ? Hlen Hne Hndp Hch]; subst;
    try contradiction;
    try (apply insert_leaf_latest; try assumption;
         match goal with
         | Hleaf : round_trip_leaf ?x |- _ =>
             apply (Hfree field x); rewrite (leaves_leaf _ _ Hleaf); now left
         end).
  assert (Hfield : (len field =? 0) || (MAX_FIELD_SIZE <? len field) = false).
  { apply orb_false_iff. split; [apply Z.eqb_neq|apply Z.ltb_ge]; lia. }
  unfold after. cbn [insert]. cbn [isDate negb].
  rewrite (valid_node_isNode _ node_valid), Hfield. cbn [negb].
  unfold detached. cbn [fst].
  rewrite leaves_object in Hfree, Hnd.
  apply (Promise_all_latest
           (fun kv => insert JSON_stringify node (field ++ "." ++ fst kv)
                        (snd kv) (VDate (Some t)))
           (fun kv => leaves (field ++ "." ++ fst kv) (snd kv)) props);
    try assumption.
  - intros [k c] Hin st0 Hi0. apply insert_storable; [|exact Hi0].
    apply (Hch _ _ Hin).
  - intros [k c] Hin st0 Hi0 HK0 Hfree0 Hnd0. rewrite Forall_forall in IH.
    apply (IH _ Hin); try assumption. apply (Hch _ _ Hin).
Qed.

Lemma insertObject_latest props st :
  NoDup (map fst props) ->
  (forall k c, In (k, c) props -> plain_name k /\ storable ("." ++ k) c) ->
  is_initialized st = true ->
  (forall type, rows_of node type st = []) ->
  NoDup (map fst (leaves "" (VObj props))) ->
  all_latest
    (after (insertObject JSON_stringify node (VObj props) (VDate (Some t))) st).
Proof.
  intros Hnd Hch Hi Hfresh Hndl. unfold after, insertObject.
  change (negb (String.eqb (typeof (VObj props)) "object")) with false.
  cbv beta iota. unfold bind at 1. rewrite lock_run, Hi. cbv beta iota.
  unfold insertCheckedObject, own_entries. cbn [entries].
  unfold bind at 1. unfold ret at 1. cbv beta iota.
  rewrite leaves_object in Hndl.
  apply (Promise_all_latest
           (fun kv => insert JSON_stringify node ("" ++ "." ++ fst kv)
                        (snd kv) (VDate (Some t)))
           (fun kv => leaves ("" ++ "." ++ fst kv) (snd kv)) props);
    try assumption.
  - intros [k c] Hin st0 Hi0. apply insert_storable; [|exact Hi0].
    apply (Hch _ _ Hin).
  - intros [k c] Hin st0 Hi0 HK0 Hfree0 Hnd0.
    apply insert_storable_latest; try assumption. apply (Hch _ _ Hin).
  - intros type r Hr. rewrite Hfresh in Hr. destruct Hr.
  - intros fd y _ type r Hr. rewrite Hfresh in Hr. destruct Hr.
Qed.

End Logs.

(* ------------------------------------------------------------------ *)
(** ** The round trip *)

Lemma place_string_perm s l : Permutation (place_string s l) (s :: l).
Proof.
  induction l as [|x l IH]; simpl; [reflexivity|].
  destruct (String.leb x s); [|reflexivity].
  rewrite IH. apply perm_swap.
Qed.

Lemma sort_strings_perm l : Permutation (sort_strings l) l.
Proof.
  unfold sort_strings.
  assert (H : forall acc, Permutation
                            (fold_left (fun acc s => place_string s acc) l acc)
                            (acc ++ l)).
  { induction l as [|x l IH]; intros acc; simpl.
    - rewrite app_nil_r. reflexivity.
    - rewrite IH, place_string_perm.
      change (x :: acc ++ l) with ((x :: acc) ++ l).
      rewrite (Permutation_middle acc l x). reflexivity. }
  apply (H []).
Qed.

Lemma get_own_proto_fold type l :
  forall m,
    get_own "__proto__"
      (fold_left
         (fun m r => js_assign (row_field r)
                       (mkEntry (row_value r) type (row_timestamp r)) m)
         l m)
    = get_own "__proto__" m.
Proof.
  induction l as [|r l IH]; intros m; [reflexivity|].
  simpl fold_left. rewrite IH. unfold js_assign.
  destruct (String.eqb (row_field r) "__proto__") eqn:E; [reflexivity|].
  rewrite get_own_set_own, E. reflexivity.
Qed.

Lemma get_own_proto_merge (rows_in : ty -> list row) ts :
  forall m,
    get_own "__proto__"
      (fold_left
         (fun m type =>
            fold_left
              (fun m r => js_assign (row_field r)
                            (mkEntry (row_value r) type (row_timestamp r)) m)
              (rows_in type) m)
         ts m)
    = get_own "__proto__" m.
Proof.
  induction ts as [|type ts IH]; intros m; [reflexivity|].
  simpl fold_left. rewrite IH. apply get_own_proto_fold.
Qed.

Lemma choose_paths {A} (P : A -> Prop) (f : A -> string) keys :
  (forall key, In key keys -> exists p, P p /\ key = f p) ->
  exists ps, keys = map f ps /\ Forall P ps.
Proof.
  induction keys as [|key keys IH]; intros H.
  - exists []. split; [reflexivity|constructor].
  - destruct (H key (or_introl eq_refl)) as (p & Hp & ->).
    destruct (IH (fun k Hk => H k (or_intror Hk))) as (ps & -> & Hps).
    exists (p :: ps). split; [reflexivity|constructor; assumption].
Qed.

Section RoundTripProof.

Variable JSON_stringify : jsval -> string.
Variable JSON_parse : jsval -> option jsval.
Variable node : jsval.
Variable t : Z.
Hypothesis node_valid : valid_node node = true.
Hypothesis t_valid : valid_time t.

Local Abbreviation logs := (logs JSON_stringify node t).
Local Abbreviation stored := (stored JSON_stringify).
Local Abbreviation storable := (storable JSON_stringify JSON_parse).

Lemma paths_functional :
  forall p c field v v',
    storable field c ->
    In (p, v) (paths_of c) -> In (p, v') (paths_of c) -> v = v'.
Proof.
  induction p as [|k rest IH]; intros c field v v' Hc Hp Hp';
    inversion Hc as [? ? _ Hl|? props _ Hne Hnd Hch]; subst.
  - rewrite (round_trip_leaf_paths _ _ _ Hl) in Hp, Hp'.
    destruct Hp as [[= <-]|[]]. destruct Hp' as [[= <-]|[]]. reflexivity.
  - apply paths_of_object in Hp. destruct Hp as (? & ? & ? & [=] & _).
  - rewrite (round_trip_leaf_paths _ _ _ Hl) in Hp. destruct Hp as [[=]|[]].
  - apply paths_of_object in Hp, Hp'.
    destruct Hp as (k0 & c0 & r0 & [= <- <-] & Hin & Hr).
    destruct Hp' as (k1 & c1 & r1 & [= <- <-] & Hin1 & Hr1).
    assert (c1 = c0) by (apply (NoDup_keys_eq props k _ _ Hnd Hin1 Hin)).
    subst c1. destruct (Hch _ _ Hin) as [_ Hc0].
    apply (IH _ _ _ _ Hc0 Hr Hr1).
Qed.

Lemma paths_NoDup v :
  forall field, storable field v -> NoDup (map fst (paths_of v)).
Proof.
  induction v as [| |b|n|s|d|elts IH|props IH|props IH]
    using jsval_nested_ind; intros field Hs;
    try (simpl; repeat constructor; simpl; tauto).
  apply storable_object_inv in Hs. destruct Hs as (_ & Hnd & Hch).
  simpl paths_of.
  induction props as [|[k c] props IHp]; [constructor|].
  simpl flat_map. rewrite map_app, map_map. simpl.
  inversion IH as [|? ? IHc IHrest]; subst.
  inversion Hnd as [|? ? Hk Hnd']; subst.
  apply NoDup_app.
  - destruct (Hch k c (or_introl eq_refl)) as [_ Hc].
    assert (Hc' := IHc _ Hc). simpl in Hc'.
    rewrite <- (map_map fst (cons k)).
    apply NoDup_map_NoDup_ForallPairs; [|exact Hc'].
    intros x y _ _ [= ->]. reflexivity.
  - apply IHp; auto. intros k' c' Hin. apply Hch. now right.
  - intros p Hp Hp'. apply in_map_iff in Hp. destruct Hp as ([p0 x0] & <- & _).
    apply in_map_iff in Hp'. destruct Hp' as ([p1 x1] & E & Hin1).
    apply in_flat_map in Hin1. destruct Hin1 as ([k1 c1] & Hin1 & Hp1).
    apply in_map_iff in Hp1. destruct Hp1 as ([p2 x2] & [= <- <-] & _).
    simpl in E. injection E as -> _.
    apply Hk. apply (in_map fst) in Hin1. exact Hin1.
Qed.

Variable props : list (string * jsval).
Hypothesis props_nodup : NoDup (map fst props).
Hypothesis props_storable :
  forall k c, In (k, c) props -> plain_name k /\ storable ("." ++ k) c.

Lemma top_path_plain p v :
  In (p, v) (paths_of (VObj props)) ->
  p <> [] /\ Forall plain_name p.
Proof.
  intros Hp. apply paths_of_object in Hp.
  destruct Hp as (k & c & rest & -> & Hin & Hrest).
  destruct (props_storable _ _ Hin) as [Hk Hc].
  destruct (storable_paths _ _ _ _ _ _ Hc Hrest) as [Hplain _].
  split; [discriminate|constructor; assumption].
Qed.

Lemma top_paths_functional p v v' :
  In (p, v) (paths_of (VObj props)) -> In (p, v') (paths_of (VObj props)) ->
  v = v'.
Proof.
  intros Hp Hp'. apply paths_of_object in Hp, Hp'.
  destruct Hp as (k0 & c0 & r0 & -> & Hin & Hr).
  destruct Hp' as (k1 & c1 & r1 & [= <- <-] & Hin1 & Hr1).
  assert (c1 = c0) by (apply (NoDup_keys_eq props k0 _ _ props_nodup Hin1 Hin)).
  subst c1. destruct (props_storable _ _ Hin) as [_ Hc0].
  apply (paths_functional _ _ _ _ _ Hc0 Hr Hr1).
Qed.

Lemma leaves_top f v :
  In (f, v) (leaves "" (VObj props)) <->
  exists p, In (p, v) (paths_of (VObj props)) /\ f = dotted p.
Proof.
  unfold leaves. rewrite in_map_iff. split.
  - intros ([p x] & [= <- <-] & Hp). exists p. auto.
  - intros (p & Hp & ->). exists (p, v). auto.
Qed.

Lemma leaves_functional f v v' :
  In (f, v) (leaves "" (VObj props)) -> In (f, v') (leaves "" (VObj props)) ->
  v = v'.
Proof.
  intros H H'. apply leaves_top in H, H'.
  destruct H as (p & Hp & ->). destruct H' as (p' & Hp' & E).
  assert (p' = p).
  { symmetry. apply dotted_inj; [| |exact E];
      apply plain_no_dot; eapply top_path_plain; eauto. }
  subst p'. apply (top_paths_functional _ _ _ Hp Hp').
Qed.

Lemma leaves_not_proto f v :
  In (f, v) (leaves "" (VObj props)) -> f <> "__proto__".
Proof.
  intros H. apply leaves_top in H. destruct H as (p & Hp & ->).
  destruct (top_path_plain _ _ Hp) as [Hne _].
  destruct p as [|k rest]; [congruence|]. simpl. discriminate.
Qed.

(** *** Unflattening the leaves of an object *)

Section AnyMap.

Variable m : list (string * entry).
Hypothesis m_to_leaf :
  forall k e, get_own k m = Some e ->
    exists v, In (k, v) (leaves "" (VObj props))
              /\ e = mkEntry (stored v) (type_of v) t.
Hypothesis leaf_in_m :
  forall f v, In (f, v) (leaves "" (VObj props)) ->
    get_own f m = Some (mkEntry (stored v) (type_of v) t).

Lemma convertToObject_leaves :
  exists o,
    convertToObject JSON_parse m = Ok (VObj o)
    /\ same_object (VObj o) (decorate (VDate (Some t)) (VObj props)).
Proof.
  unfold convertToObject.
  assert (Hperm := sort_strings_perm (map fst m)).
  destruct (choose_paths
              (fun p => exists v, In (p, v) (paths_of (VObj props))
                                  /\ get_own (dotted p) m
                                     = Some (mkEntry (stored v) (type_of v) t))
              dotted (sort_strings (map fst m)))
    as (ps & Hkeys & Hps).
  { intros key Hkey. apply (Permutation_in _ Hperm) in Hkey.
    destruct (get_own key m) as [e|] eqn:E.
    - destruct (m_to_leaf _ _ E) as (v & Hv & ->).
      apply leaves_top in Hv. destruct Hv as (p & Hp & ->).
      exists p. split; [|reflexivity]. exists v. auto.
    - apply get_own_None in E. contradiction. }
  rewrite Hkeys. rewrite Forall_forall in Hps.
  destruct (convert_paths JSON_stringify JSON_parse t t_valid m props
              props_nodup props_storable ps Hps [] []
              (Built_nil JSON_stringify JSON_parse (VDate (Some t)) props))
    as (o & Hrun & HB).
  rewrite Hrun. exists o. split; [reflexivity|].
  apply (Built_all JSON_stringify JSON_parse (VDate (Some t)) (VObj props)
           "" props (rev ps ++ []) o eq_refl props_nodup props_storable HB).
  intros p x Hp. rewrite app_nil_r. apply in_rev. rewrite rev_involutive.
  assert (Hleaf : In (dotted p, x) (leaves "" (VObj props)))
    by (apply leaves_top; eauto).
  assert (Hkey : In (dotted p) (map dotted ps)).
  { rewrite <- Hkeys. apply (Permutation_in _ (Permutation_sym Hperm)).
    apply leaf_in_m in Hleaf. apply get_own_In in Hleaf.
    apply (in_map fst) in Hleaf. exact Hleaf. }
  apply in_map_iff in Hkey. destruct Hkey as (p' & E & Hp').
  destruct (Hps p' Hp') as (v' & Hpath' & _).
  assert (p' = p).
  { apply dotted_inj; [| |exact E];
      apply plain_no_dot; eapply top_path_plain; eauto. }
  subst p'. exact Hp'.
Qed.

End AnyMap.

Variables st st' : store.
Hypothesis st_fresh : forall type, rows_of node type st = [].
Hypothesis st_logs : logs (leaves "" (VObj props)) st st'.

Let c : condition := TimestampLe (Some t).

Lemma matched_logged type r :
  In r (matched node c type st') ->
  exists v, In (row_field r, v) (leaves "" (VObj props))
            /\ type_of v = type /\ row_value r = stored v
            /\ row_timestamp r = t.
Proof.
  unfold matched. rewrite filter_In. intros [Hin Hc].
  apply andb_true_iff in Hc. destruct Hc as [Hn _].
  destruct st_logs as [_ Hrows].
  apply (in_map obs_of) in Hin. rewrite Hrows in Hin.
  apply in_app_or in Hin. destruct Hin as [Hin|Hin].
  - exfalso. apply in_map_iff in Hin. destruct Hin as (r0 & E & Hr0).
    assert (Hr : In r0 (rows_of node type st)).
    { unfold rows_of. apply filter_In. split; [exact Hr0|].
      unfold obs_of in E. injection E as -> _ _ _. exact Hn. }
    rewrite st_fresh in Hr. destruct Hr.
  - apply in_map_iff in Hin. destruct Hin as ([f v] & E & Hfv).
    apply filter_In in Hfv. destruct Hfv as [Hfv Hty].
    apply ty_eqb_eq in Hty. unfold obs_of in E. simpl in E.
    injection E as _ E2 E3 E4. subst f. exists v. auto.
Qed.

Lemma logged_matched f v :
  In (f, v) (leaves "" (VObj props)) ->
  exists r, In r (matched node c (type_of v) st') /\ row_field r = f.
Proof.
  intros Hfv. destruct st_logs as [_ Hrows].
  assert (Hin : In (node, stored v, f, t)
                  (map obs_of (rows (get_table (type_of v) st')))).
  { rewrite Hrows. apply in_or_app. right.
    apply in_map_iff. exists (f, v). split; [reflexivity|].
    apply filter_In. split; [exact Hfv|apply ty_eqb_refl]. }
  apply in_map_iff in Hin. destruct Hin as (r & E & Hr).
  unfold obs_of in E. injection E as E1 E2 E3 E4.
  exists r. split; [|exact E3].
  unfold matched. apply filter_In. split; [exact Hr|].
  rewrite E1, (node_eqb_refl _ node_valid). simpl.
  apply Z.leb_le. lia.
Qed.

Lemma top_leaves_NoDup : NoDup (map fst (leaves "" (VObj props))).
Proof.
  unfold leaves. rewrite map_map. simpl.
  rewrite <- (map_map fst dotted).
  apply NoDup_map_NoDup_ForallPairs.
  - intros p p' Hp Hp' E.
    apply in_map_iff in Hp, Hp'.
    destruct Hp as ([q x] & <- & Hq). destruct Hp' as ([q' x'] & <- & Hq').
    simpl in *. apply dotted_inj; [| |exact E];
      apply plain_no_dot; eapply top_path_plain; eauto.
  - clear st_logs.
    assert (H : forall ps, NoDup (map fst ps) ->
                (forall k c, In (k, c) ps ->
                             plain_name k /\ storable ("." ++ k) c) ->
                NoDup (map fst (paths_of (VObj ps)))).
    { clear. intros ps. simpl paths_of.
      induction ps as [|[k c] ps IHp]; intros Hnd Hch; [constructor|].
      simpl flat_map. rewrite map_app, map_map. simpl.
      inversion Hnd as [|? ? Hk Hnd']; subst.
      apply NoDup_app.
      - destruct (Hch k c (or_introl eq_refl)) as [_ Hc].
        assert (Hc' := paths_NoDup _ _ Hc).
        rewrite <- (map_map fst (cons k)).
        apply NoDup_map_NoDup_ForallPairs; [|exact Hc'].
        intros x y _ _ [= ->]. reflexivity.
      - apply IHp; auto. intros k' c' Hin. apply Hch. now right.
      - intros p Hp Hp'. apply in_map_iff in Hp.
        destruct Hp as ([p0 x0] & <- & _).
        apply in_map_iff in Hp'. destruct Hp' as ([p1 x1] & E & Hin1).
        apply in_flat_map in Hin1. destruct Hin1 as ([k1 c1] & Hin1 & Hp1).
        apply in_map_iff in Hp1. destruct Hp1 as ([p2 x2] & [= <- <-] & _).
        simpl in E. injection E as -> _.
        apply Hk. apply (in_map fst) in Hin1. exact Hin1. }
    apply H; assumption.
Qed.

(** When every row of the node is a latest row written at [t], the
    current state and the state at [t] select the same rows. *)
Lemma matched_latest type :
  all_latest node t st' ->
  matched node LatestNonzero type st' = matched node c type st'.
Proof.
  intros HK. unfold matched. apply filter_ext_in. intros r Hr.
  destruct (node_eqb (row_node r) node) eqn:En; [|reflexivity].
  assert (Hin : In r (rows_of node type st')) by (apply filter_In; auto).
  destruct (HK _ _ Hin) as [Hl Ht]. simpl. rewrite Hl, Ht.
  rewrite Z.leb_refl. reflexivity.
Qed.

(** The order in which the partitions answer; each of them answers. *)
Variable answers : list ty.
Hypothesis answers_all : forall type, In type answers.

Let mapLatest : list (string * entry) :=
  fold_left
    (fun m type =>
       fold_left
         (fun m r => js_assign (row_field r)
                       (mkEntry (row_value r) type (row_timestamp r)) m)
         (order_by_timestamp_asc (matched node c type st')) m)
    answers [].

Lemma mapLatest_to_leaf k e :
  get_own k mapLatest = Some e ->
  exists v, In (k, v) (leaves "" (VObj props))
            /\ e = mkEntry (stored v) (type_of v) t.
Proof.
  intros Hk.
  assert (Hproto : k <> "__proto__").
  { intros ->. unfold mapLatest in Hk.
    rewrite get_own_proto_merge in Hk. discriminate. }
  destruct (merge_get node c st' k Hproto answers [])
    as [[Hg _]|(earlier & ty0 & later & r & _ & Hl & Hg & _)];
    fold mapLatest in Hg; rewrite Hg in Hk.
  - discriminate.
  - injection Hk as <-.
    destruct (last_at_asc _ _ _ Hl) as (Hin & Hf & _).
    destruct (matched_logged _ _ Hin) as (v & Hv & Hty & Hval & Hts).
    exists v. rewrite <- Hf. split; [exact Hv|]. congruence.
Qed.

Lemma leaf_in_mapLatest f v :
  In (f, v) (leaves "" (VObj props)) ->
  get_own f mapLatest = Some (mkEntry (stored v) (type_of v) t).
Proof.
  intros Hfv.
  destruct (get_own f mapLatest) as [e|] eqn:E.
  - destruct (mapLatest_to_leaf _ _ E) as (v' & Hv' & ->).
    rewrite (leaves_functional _ _ _ Hfv Hv'). reflexivity.
  - exfalso.
    destruct (merge_get node c st' f (leaves_not_proto _ _ Hfv) answers [])
      as [[_ Hnone]|(earlier & ty0 & later & r & _ & _ & Hg & _)];
      [|fold mapLatest in Hg; congruence].
    destruct (logged_matched _ _ Hfv) as (r & Hr & Hf).
    apply (last_at_asc_None _ _ _ (Hnone (type_of v) (answers_all _)) Hr Hf).
Qed.

Lemma convertToObject_mapLatest :
  exists o,
    convertToObject JSON_parse mapLatest = Ok (VObj o)
    /\ same_object (VObj o) (decorate (VDate (Some t)) (VObj props)).
Proof.
  apply convertToObject_leaves; [exact mapLatest_to_leaf|exact leaf_in_mapLatest].
Qed.

End RoundTripProof.
Section RoundTripTheorem.

Variable JSON_stringify : jsval -> string.
Variable JSON_parse : jsval -> option jsval.

Lemma flat_object_storable props :
  (forall k c, In (k, c) props ->
     plain_name k /\ len k <= MAX_FIELD_SIZE - 1
     /\ round_trip_leaf JSON_stringify JSON_parse c) ->
  forall k c, In (k, c) props ->
    plain_name k /\ storable JSON_stringify JSON_parse ("." ++ k) c.
Proof.
  intros H k c Hin. destruct (H k c Hin) as (Hk & Hlen & Hc).
  split; [exact Hk|]. apply storable_leaf; [|exact Hc].
  unfold MAX_FIELD_SIZE, len in *. cbn [append String.length]. lia.
Qed.

Lemma flat_object_leaf props k v :
  (forall k c, In (k, c) props ->
     plain_name k /\ len k <= MAX_FIELD_SIZE - 1
     /\ round_trip_leaf JSON_stringify JSON_parse c) ->
  In (k, v) props -> In ("." ++ k, v) (leaves "" (VObj props)).
Proof.
  intros H Hin. destruct (H k v Hin) as (_ & _ & Hv).
  unfold leaves. apply in_map_iff. exists ([k], v). split.
  - cbn [fst snd dotted]. now rewrite append_nil_r.
  - apply paths_of_object. exists k, v, []. split; [reflexivity|].
    split; [exact Hin|].
    rewrite (round_trip_leaf_paths JSON_stringify JSON_parse v Hv). now left.
Qed.

(** C5 (amended).  Let [O] be a flat object: distinct, plain property
    names (no dot) of at most 511 characters, each with a leaf that the
    codec stores and gives back (finite numbers, booleans, valid dates,
    strings and arrays within the size bounds, arrays that [JSON.parse]
    gives back from their [JSON.stringify] text).  Written for a node
    that has no observation yet, at a valid instant, and read back, as
    the state at that instant or as the current state and in whatever
    order the backend answers, [O] comes back with each leaf [v] as
    [{value: v, timestamp}], up to the order of the properties. *)
Theorem insert_then_synthesize_round_trip node O t st :
  valid_node node = true -> is_initialized st = true -> valid_time t ->
  (forall type, rows_of node type st = []) ->
  flat_object JSON_stringify JSON_parse O ->
  exists st',
    insertObject JSON_stringify node O (VDate (Some t)) st = (st', Ok tt)
    /\ forall answers, Permutation answers types ->
       exists R,
         synthesizeObjectAt JSON_parse answers node (VDate (Some t)) st'
         = (st', Ok R)
         /\ synthesizeObject JSON_parse answers node st' = (st', Ok R)
         /\ same_object R (decorate (VDate (Some t)) O).
Proof.
  intros Hn Hi Ht Hfresh (props & -> & Hnd & Hflat).
  assert (Hch := flat_object_storable props Hflat).
  destruct (insertObject_run JSON_stringify JSON_parse node t Hn props st
              Hnd Hch Hi) as (st' & Hrun & HL).
  exists st'. split; [exact Hrun|]. intros answers Hperm.
  assert (Hall : forall type, In type answers).
  { intros type. apply (Permutation_in _ (Permutation_sym Hperm)).
    destruct type; simpl; tauto. }
  assert (Hi' : is_initialized st' = true) by (destruct HL; congruence).
  assert (HK : all_latest node t st').
  { replace st' with (after (insertObject JSON_stringify node (VObj props)
                               (VDate (Some t))) st)
      by (unfold after; rewrite Hrun; reflexivity).
    apply (insertObject_latest JSON_stringify JSON_parse node t Hn props st
             Hnd Hch Hi Hfresh).
    apply (top_leaves_NoDup JSON_stringify JSON_parse props Hnd Hch). }
  destruct (convertToObject_mapLatest JSON_stringify JSON_parse node t Hn Ht
              props Hnd Hch st st' Hfresh HL answers Hall)
    as (o & Hconv & Hsame).
  exists (VObj o). split; [|split; [|exact Hsame]].
  - unfold synthesizeObjectAt. unfold bind at 1. rewrite lock_run, Hi'.
    cbv beta iota. unfold bind at 1. unfold getTime, ret at 1. cbv beta iota.
    unfold synthesizeObjectParameterized.
    rewrite (valid_node_isNode _ Hn). cbv beta iota delta [negb].
    unfold bind at 1.
    rewrite (merge_run node (TimestampLe (Some t)) Hn ltac:(discriminate) st' Hi').
    cbv beta iota. unfold lift. rewrite Hconv. reflexivity.
  - unfold synthesizeObject. unfold bind at 1. rewrite lock_run, Hi'.
    cbv beta iota. unfold synthesizeObjectParameterized.
    rewrite (valid_node_isNode _ Hn). cbv beta iota delta [negb].
    unfold bind at 1.
    rewrite (merge_run node LatestNonzero Hn ltac:(discriminate) st' Hi').
    cbv beta iota. unfold lift.
    assert (E : forall ts m,
               fold_left
                 (fun m type =>
                    fold_left
                      (fun m r => js_assign (row_field r)
                                    (mkEntry (row_value r) type (row_timestamp r)) m)
                      (order_by_timestamp_asc (matched node LatestNonzero type st'))
                      m)
                 ts m
               = fold_left
                   (fun m type =>
                      fold_left
                        (fun m r => js_assign (row_field r)
                                      (mkEntry (row_value r) type (row_timestamp r)) m)
                        (order_by_timestamp_asc
                           (matched node (TimestampLe (Some t)) type st'))
                        m)
                   ts m).
    { induction ts as [|type ts IH]; intros m; [reflexivity|].
      simpl fold_left. rewrite (matched_latest node t st' _ HK). apply IH. }
    rewrite E, Hconv. reflexivity.
Qed.

End RoundTripTheorem.

Lemma readme_object_flat :
  flat_object HostJSON.stringify HostJSON.parse (readme_object 5).
Proof.
  eexists. split; [reflexivity|]. split.
  - repeat constructor; simpl; intuition discriminate.
  - intros k c Hin. simpl in Hin.
    repeat (destruct Hin as [[= <- <-]|Hin];
            [split;
             [repeat split; try discriminate
             |split;
              [unfold len, MAX_FIELD_SIZE; simpl; lia
              |vm_compute; repeat split; try discriminate; try reflexivity]]
            |]).
    destruct Hin.
Qed.

Lemma insert_then_synthesize_round_trip_witness :
  exists st',
    insertObject HostJSON.stringify (VStr "id-1") (readme_object 5)
      (VDate (Some 1000)) example_store = (st', Ok tt)
    /\ forall answers, Permutation answers types ->
       exists R,
         synthesizeObjectAt HostJSON.parse answers (VStr "id-1") (VDate (Some 1000)) st'
         = (st', Ok R)
         /\ synthesizeObject HostJSON.parse answers (VStr "id-1") st' = (st', Ok R)
         /\ same_object R (decorate (VDate (Some 1000)) (readme_object 5)).
Proof.
  apply (insert_then_synthesize_round_trip HostJSON.stringify HostJSON.parse
           (VStr "id-1") (readme_object 5) 1000 example_store).
  - reflexivity.
  - reflexivity.
  - unfold valid_time. simpl. lia.
  - intros type. destruct type; reflexivity.
  - exact readme_object_flat.
Defined.

(** C5 as stated fails.  [{b: 1, a: {}}] has no path that is both a leaf
    and a prefix of another, and comes back without [a]: an empty object
    has no leaf to store.  [{"x.y": 1}] comes back as [{x: {y: ...}}]. *)
Lemma round_trip_loses_empty_object :
  let ts := VDate (Some 1000) in
  let node := VStr "id-1" in
  let read O :=
    snd (synthesizeObjectAt HostJSON.parse types node ts
           (after (insertObject HostJSON.stringify node O ts) example_store)) in
  let O1 := VObj [("b", jsint 1); ("a", VObj [])] in
  let O2 := VObj [("x.y", jsint 1)] in
  paths_of O1 = [(["b"], jsint 1)]
  /\ snd (insertObject HostJSON.stringify node O1 ts example_store) = Ok tt
  /\ read O1 = Ok (VObj [("b", leaf (jsint 1) ts)])
  /\ ~ same_object (VObj [("b", leaf (jsint 1) ts)]) (decorate ts O1)
  /\ read O2 = Ok (VObj [("x", VObj [("y", leaf (jsint 1) ts)])])
  /\ ~ same_object (VObj [("x", VObj [("y", leaf (jsint 1) ts)])]) (decorate ts O2).
Proof.
  intros ts node read O1 O2.
  split; [reflexivity|]. split; [reflexivity|].
  split; [vm_compute; reflexivity|]. split.
  { intros H. inversion H as [|? ? _ _ Hnone _]; subst.
    pose proof (proj1 (Hnone "a") eq_refl) as Ha. vm_compute in Ha.
    discriminate Ha. }
  split; [vm_compute; reflexivity|].
  intros H. inversion H as [|? ? _ _ Hnone _]; subst.
  pose proof (proj2 (Hnone "x") eq_refl) as Hx. vm_compute in Hx.
  discriminate Hx.
Qed.

(* ------------------------------------------------------------------ *)
(** * Further properties of the interface *)

(** ** Relations that every step of a computation keeps *)

Section Keeps.

Variable R : store -> store -> Prop.
Context {R_preorder : PreOrder R}.

Lemma keeps_pure {A} (m : M A) : (forall st, fst (m st) = st) -> keeps R m.
Proof. intros H st. rewrite H. reflexivity. Qed.

Lemma keeps_ret {A} (a : A) : keeps R (ret a).
Proof. apply keeps_pure. reflexivity. Qed.

Lemma keeps_throw {A} e : keeps R (throw (A:=A) e).
Proof. apply keeps_pure. reflexivity. Qed.

Lemma keeps_lift {A} (r : outcome A) : keeps R (lift r).
Proof. apply keeps_pure. reflexivity. Qed.

Lemma keeps_bind {A B} (m : M A) (k : A -> M B) :
  keeps R m -> (forall a, keeps R (k a)) -> keeps R (bind m k).
Proof.
  intros Hm Hk st. unfold bind. specialize (Hm st).
  destruct (m st) as [st' [a|e]]; simpl in *.
  - transitivity st'; [exact Hm|apply Hk].
  - exact Hm.
Qed.

Lemma keeps_bind_ret {A B} (a : A) (k : A -> M B) :
  keeps R (k a) -> keeps R (bind (ret a) k).
Proof. intros H st. apply H. Qed.

Lemma keeps_bind_throw {A B} e (k : A -> M B) : keeps R (bind (throw e) k).
Proof. apply keeps_pure. reflexivity. Qed.

Lemma keeps_detached {A} (m : M A) : keeps R m -> keeps R (detached m).
Proof. intros H st. apply H. Qed.

Lemma keeps_if {A} (b : bool) (m1 m2 : M A) :
  keeps R m1 -> keeps R m2 -> keeps R (if b then m1 else m2).
Proof. destruct b; auto. Qed.

Lemma keeps_Promise_all {A} (f : A -> M unit) l :
  (forall x, In x l -> keeps R (f x)) -> keeps R (Promise_all f l).
Proof.
  induction l as [|x l IH]; intros H st; simpl.
  - reflexivity.
  - assert (Hx := H x (or_introl eq_refl) st).
    destruct (f x st) as [st1 r1]. simpl in Hx.
    assert (Hl := IH (fun y Hy => H y (or_intror Hy)) st1).
    destruct (Promise_all f l st1) as [st2 r2]. simpl in *.
    transitivity st1; assumption.
Qed.

Lemma keeps_foldM {A B} (f : B -> A -> M B) l :
  (forall b x, keeps R (f b x)) -> forall b, keeps R (foldM f l b).
Proof.
  intros H. induction l as [|x l IH]; intros b; simpl.
  - apply keeps_ret.
  - apply keeps_bind; [apply H|exact IH].
Qed.

Lemma keeps_getTableForType t : keeps R (getTableForType t).
Proof.
  apply keeps_pure. intros st. unfold getTableForType.
  destruct (tsdbTablePrefix st) as [p|]; [destruct (String.eqb p "")|];
    reflexivity.
Qed.

Lemma keeps_getTime d : keeps R (getTime d).
Proof. apply keeps_pure. intros st. destruct d; reflexivity. Qed.

Lemma keeps_sql_node n : keeps R (sql_node n).
Proof.
  apply keeps_pure. intros st. destruct n; try reflexivity.
  simpl. destruct (isFinite n); reflexivity.
Qed.

Lemma keeps_sql_timestamp t : keeps R (sql_timestamp t).
Proof. apply keeps_pure. intros st. destruct t; reflexivity. Qed.

Lemma keeps_sql_condition c : keeps R (sql_condition c).
Proof. apply keeps_pure. intros st. destruct c as [[t|]|]; reflexivity. Qed.

Lemma keeps_select table cond : keeps R (sqlapi_select table cond).
Proof. apply keeps_pure. reflexivity. Qed.

Lemma keeps_lock : keeps R lock.
Proof. apply keeps_pure. intros st. rewrite lock_run. reflexivity. Qed.

Lemma keeps_checkIsLatest table node field t :
  keeps R (checkIsLatest table node field t).
Proof.
  unfold checkIsLatest, morerecents.
  apply keeps_bind; [|intros l; apply keeps_if; apply keeps_ret].
  apply keeps_bind; [apply keeps_sql_node|intros n].
  apply keeps_bind; [apply keeps_sql_timestamp|intros t'].
  apply keeps_bind; [apply keeps_select|intros found]. apply keeps_ret.
Qed.

End Keeps.

Ltac keeps_step :=
  lazymatch goal with
  | |- keeps ?R (ret _) => apply (keeps_ret R)
  | |- keeps ?R (throw _) => apply (keeps_throw R)
  | |- keeps ?R (lift _) => apply (keeps_lift R)
  | |- keeps ?R lock => apply (keeps_lock R)
  | |- keeps ?R (getTableForType _) => apply (keeps_getTableForType R)
  | |- keeps ?R (getTime _) => apply (keeps_getTime R)
  | |- keeps ?R (sql_node _) => apply (keeps_sql_node R)
  | |- keeps ?R (sql_timestamp _) => apply (keeps_sql_timestamp R)
  | |- keeps ?R (sql_condition _) => apply (keeps_sql_condition R)
  | |- keeps ?R (sqlapi_select _ _) => apply (keeps_select R)
  | |- keeps ?R (checkIsLatest _ _ _ _) => apply (keeps_checkIsLatest R)
  | |- keeps ?R (detached _) => apply (keeps_detached R)
  | |- keeps ?R (if _ then _ else _) => apply (keeps_if R)
  | |- keeps ?R (bind _ _) => apply (keeps_bind R); [| intros ? ]
  end.

Ltac keeps_eq := repeat keeps_step.

(* ------------------------------------------------------------------ *)
(** ** The reading calls leave the store as it is *)

Section Reads.

Variable JSON_stringify : jsval -> string.
Variable JSON_parse : jsval -> option jsval.
Variable sql_value_eq : ty -> jsval -> jsval -> bool.

Local Abbreviation search := (search JSON_stringify JSON_parse sql_value_eq).
Local Abbreviation search_query := (search_query JSON_parse sql_value_eq).

Lemma same_synthesizeObjectParameterized answers node c :
  keeps eq (synthesizeObjectParameterized JSON_parse answers node c).
Proof.
  unfold synthesizeObjectParameterized. keeps_eq.
  apply (keeps_foldM eq). intros m type. unfold asyncpart. keeps_eq.
Qed.

Lemma same_synthesizeObject answers node :
  keeps eq (synthesizeObject JSON_parse answers node).
Proof.
  unfold synthesizeObject. keeps_eq. apply same_synthesizeObjectParameterized.
Qed.

Lemma same_synthesizeObjectAt answers node date :
  keeps eq (synthesizeObjectAt JSON_parse answers node date).
Proof.
  unfold synthesizeObjectAt. keeps_eq.
  apply same_synthesizeObjectParameterized.
Qed.

Lemma same_getSeries_loop node field when_ms limit ts :
  keeps eq (getSeries_loop JSON_parse node field when_ms limit ts).
Proof.
  induction ts as [|type ts IH]; simpl; [apply (keeps_ret eq)|].
  keeps_eq. exact IH.
Qed.

Lemma same_getSeries node field when limit :
  keeps eq (getSeries JSON_parse node field when limit).
Proof.
  unfold getSeries. keeps_eq.
  destruct field; try apply (keeps_throw eq).
  keeps_eq. apply same_getSeries_loop.
Qed.

Lemma same_exists_loop node ts : keeps eq (exists_loop node ts).
Proof.
  induction ts as [|type ts IH]; simpl; [apply (keeps_ret eq)|].
  keeps_eq. exact IH.
Qed.

Lemma same_exists node : keeps eq (exists_ node).
Proof. unfold exists_. keeps_eq. apply same_exists_loop. Qed.

Lemma same_search_query field v type when_ms limit :
  keeps eq (search_query field v type when_ms limit).
Proof. unfold search_query. keeps_eq. Qed.

Lemma same_search field value when limit st :
  fst (search field value when limit st) = st.
Proof.
  unfold search.
  destruct (negb (valid_limit limit)); [reflexivity|].
  destruct field; try reflexivity.
  destruct (negb (isDate when)); [reflexivity|].
  destruct when; simpl; try reflexivity.
  destruct (reform JSON_stringify value) as [[v type]|]; [|reflexivity].
  assert (H := same_search_query s v type t limit st).
  destruct (search_query s v type t limit st) as [st' [found|e]];
    simpl in *; congruence.
Qed.

(** No reading call changes the store, whatever its arguments,
    whatever the order in which the backend answers and whether it
    succeeds or fails: [synthesizeObject], [synthesizeObjectAt],
    [getSeries], [exists] and [search] leave every table and the bound
    prefix as they were. *)
Theorem reads_leave_store answers node field value when limit date st :
  fst (synthesizeObject JSON_parse answers node st) = st
  /\ fst (synthesizeObjectAt JSON_parse answers node date st) = st
  /\ fst (getSeries JSON_parse node field when limit st) = st
  /\ fst (exists_ node st) = st
  /\ fst (search field value when limit st) = st.
Proof.
  repeat split.
  - symmetry. apply same_synthesizeObject.
  - symmetry. apply same_synthesizeObjectAt.
  - symmetry. apply same_getSeries.
  - symmetry. apply same_exists.
  - apply same_search.
Qed.

End Reads.

(* ------------------------------------------------------------------ *)
(** ** Calls before [initialize], argument checks, existence *)

Lemma Promise_all_fail {A} (f : A -> M unit) e st l :
  (forall x, In x l -> f x st = (st, Err e)) ->
  Promise_all f l st = (st, match l with [] => Ok tt | _ => Err e end).
Proof.
  induction l as [|x l IH]; intros H; [reflexivity|].
  simpl. rewrite (H x (or_introl eq_refl)).
  rewrite IH by (intros y Hy; apply H; now right).
  reflexivity.
Qed.

Lemma typeof_object value :
  typeof value = "object" ->
  value = VNull \/ (exists t, value = VDate t) \/ (exists elts, value = VArr elts)
  \/ exists props, value = VObj props.
Proof.
  destruct value; simpl; try discriminate; intros _; eauto.
Qed.

Lemma exists_loop_run node st :
  valid_node node = true -> is_initialized st = true ->
  forall ts,
    exists_loop node ts st
    = (st, Ok (existsb (fun t => match rows_of node t st with
                                 | [] => false
                                 | _ => true
                                 end) ts)).
Proof.
  intros Hn Hi ts. induction ts as [|t ts IH]; [reflexivity|].
  simpl. unfold bind at 1. rewrite (getTableForType_ok _ _ Hi). cbv beta iota.
  unfold bind at 1. rewrite (sql_node_ok _ _ Hn). cbv beta iota.
  unfold bind at 1. unfold sqlapi_select at 1. cbv beta iota. cbn [ref_type].
  fold (rows_of node t st).
  destruct (rows_of node t st) as [|r l]; simpl; [exact IH|reflexivity].
Qed.

(** [exists] answers true exactly when some partition holds a row of
    the node, and leaves the store as it is. *)
Theorem exists_iff_rows node st :
  valid_node node = true -> is_initialized st = true ->
  exists b,
    exists_ node st = (st, Ok b)
    /\ (b = true <->
        exists type r, In r (rows (get_table type st))
                       /\ node_eqb (row_node r) node = true).
Proof.
  intros Hn Hi. eexists. split.
  - unfold exists_. rewrite (valid_node_isNode _ Hn). cbn [negb].
    unfold bind at 1. unfold detached. rewrite lock_run. cbn [fst].
    apply (exists_loop_run node st Hn Hi).
  - rewrite existsb_exists. split.
    + intros (type & _ & Hrows).
      destruct (rows_of node type st) as [|r l] eqn:E; [discriminate|].
      assert (Hin : In r (rows_of node type st)) by (rewrite E; now left).
      apply filter_In in Hin. exists type, r. exact Hin.
    + intros (type & r & Hin & Hr). exists type. split.
      * unfold types; simpl; destruct type; tauto.
      * assert (H : In r (rows_of node type st))
          by (apply filter_In; split; assumption).
        destruct (rows_of node type st); [destruct H|reflexivity].
Qed.

Section Checks.

Variable JSON_stringify : jsval -> string.
Variable JSON_parse : jsval -> option jsval.
Variable sql_value_eq : ty -> jsval -> jsval -> bool.

Local Abbreviation search := (search JSON_stringify JSON_parse sql_value_eq).
Local Abbreviation insertObject := (insertObject JSON_stringify).
Local Abbreviation synthesizeObject := (synthesizeObject JSON_parse).
Local Abbreviation synthesizeObjectAt := (synthesizeObjectAt JSON_parse).
Local Abbreviation getSeries := (getSeries JSON_parse).

Lemma insertObject_object node value timestamp :
  typeof value = "object" ->
  insertObject node value timestamp
  = (lock ;;; insertCheckedObject JSON_stringify node "" value timestamp)%tsdb.
Proof. intros Ht. unfold insertObject. rewrite Ht. reflexivity. Qed.

(** Before [initialize] has bound a prefix, every call whose arguments
    pass its own checks fails with the error of the table router
    (Call initialize before accessing tables) and the store stays as
    it is.  [synthesizeObject] and [synthesizeObjectAt] fail so whatever
    their arguments: they take the lock before they look at them. *)
Theorem calls_before_initialize_fail
    answers node value timestamp date field when limit sure st :
  is_initialized st = false ->
  (typeof value = "object" ->
   insertObject node value timestamp st = (st, Err NotInitialized))
  /\ synthesizeObject answers node st = (st, Err NotInitialized)
  /\ synthesizeObjectAt answers node date st = (st, Err NotInitialized)
  /\ (isNode node = true -> valid_limit limit = true -> isDate when = true ->
      getSeries node (VStr field) when limit st = (st, Err NotInitialized))
  /\ (isNode node = true -> exists_ node st = (st, Err NotInitialized))
  /\ (isNode node = true -> truthy sure = true ->
      remove node sure st = (st, Err NotInitialized))
  /\ (valid_limit limit = true -> isDate when = true ->
      reform JSON_stringify value <> None ->
      search (VStr field) value when limit st = (st, Raised NotInitialized)).
Proof.
  intros Hi.
  assert (Hg : forall t, getTableForType t st = (st, Err NotInitialized))
    by (intros; apply getTableForType_uninitialized; exact Hi).
  assert (Hl : lock st = (st, Err NotInitialized))
    by (rewrite lock_run, Hi; reflexivity).
  repeat split.
  - intros Ht. rewrite (insertObject_object _ _ _ Ht).
    unfold bind. rewrite Hl. reflexivity.
  - unfold synthesizeObject, bind. rewrite Hl. reflexivity.
  - unfold synthesizeObjectAt, bind. rewrite Hl. reflexivity.
  - intros Hn Hlim Hw. unfold getSeries. rewrite Hn, Hlim, Hw. cbn [negb].
    destruct when; try discriminate. unfold getTime.
    unfold bind at 1. unfold ret at 1. cbv beta iota.
    unfold bind at 1. unfold detached. rewrite Hl. cbn [fst].
    unfold types. simpl. unfold bind at 1. rewrite Hg. reflexivity.
  - intros Hn. unfold exists_. rewrite Hn. cbn [negb].
    unfold bind at 1. unfold detached. rewrite Hl. cbn [fst].
    unfold types. simpl. unfold bind at 1. rewrite Hg. reflexivity.
  - intros Hn Hs. unfold remove. rewrite Hn, Hs. cbn [negb].
    unfold bind at 1. unfold detached. rewrite Hl. cbn [fst].
    unfold types. simpl. unfold bind at 1. unfold bind at 1.
    rewrite Hg. reflexivity.
  - intros Hlim Hw Hv. unfold search. rewrite Hlim, Hw. cbn [negb].
    destruct when; try discriminate. cbn [getTime ret].
    destruct (reform JSON_stringify value) as [[v type]|]; [|congruence].
    unfold search_query, bind. rewrite Hl. reflexivity.
Qed.

Lemma insert_bad_timestamp node field value timestamp st :
  isDate timestamp = false ->
  insert JSON_stringify node field value timestamp st = (st, Err BadTimestamp).
Proof. intros H. destruct value; simpl; rewrite H; reflexivity. Qed.

Lemma insert_bad_node node field value timestamp st :
  isDate timestamp = true -> isNode node = false ->
  insert JSON_stringify node field value timestamp st = (st, Err BadNode).
Proof. intros H1 H2. destruct value; simpl; rewrite H1, H2; reflexivity. Qed.

(** What [insertObject] checks.  A value whose [typeof] is not
    ["object"] is refused.  The timestamp and the node are checked once
    per property of the value, by [insert]: with a property and a
    timestamp that is no date the call fails and writes nothing, and so
    with a node that [isNode] refuses; with no property at all (an empty
    object, an empty array, a date) the call succeeds and writes
    nothing, whatever the node and the timestamp are. *)
Theorem insertObject_checks node value timestamp st :
  (typeof value <> "object" ->
   insertObject node value timestamp st = (st, Err NotAnObject))
  /\ (is_initialized st = true -> typeof value = "object" ->
      value <> VNull -> entries value = [] ->
      insertObject node value timestamp st = (st, Ok tt))
  /\ (is_initialized st = true -> typeof value = "object" ->
      entries value <> [] -> isDate timestamp = false ->
      insertObject node value timestamp st = (st, Err BadTimestamp))
  /\ (is_initialized st = true -> typeof value = "object" ->
      entries value <> [] -> isDate timestamp = true -> isNode node = false ->
      insertObject node value timestamp st = (st, Err BadNode)).
Proof.
  assert (Hrun : is_initialized st = true -> typeof value = "object" ->
                 value <> VNull ->
                 insertObject node value timestamp st
                 = Promise_all
                     (fun kv => insert JSON_stringify node ("" ++ "." ++ fst kv)
                                  (snd kv) timestamp)
                     (entries value) st).
  { intros Hi Ht Hv. rewrite (insertObject_object _ _ _ Ht).
    unfold bind at 1. rewrite lock_run, Hi. cbv beta iota.
    unfold insertCheckedObject, bind.
    destruct value; try discriminate; try congruence; reflexivity. }
  split; [|split; [|split]].
  - intros Ht. unfold insertObject.
    destruct (String.eqb_spec (typeof value) "object") as [E|E];
      [contradiction|reflexivity].
  - intros Hi Ht Hv He. rewrite (Hrun Hi Ht Hv), He. reflexivity.
  - intros Hi Ht He Hd.
    assert (Hv : value <> VNull) by (intros ->; apply He; reflexivity).
    rewrite (Hrun Hi Ht Hv).
    rewrite (Promise_all_fail _ BadTimestamp)
      by (intros; apply insert_bad_timestamp; exact Hd).
    destruct (entries value); [contradiction|reflexivity].
  - intros Hi Ht He Hd Hn.
    assert (Hv : value <> VNull) by (intros ->; apply He; reflexivity).
    rewrite (Hrun Hi Ht Hv).
    rewrite (Promise_all_fail _ BadNode)
      by (intros; apply insert_bad_node; assumption).
    destruct (entries value); [contradiction|reflexivity].
Qed.

End Checks.

Lemma calls_before_initialize_fail_witness :
  insertObject HostJSON.stringify (VStr "id-1") (readme_object 5)
    (VDate (Some 1000)) fresh_database
  = (fresh_database, Err NotInitialized)
  /\ getSeries HostJSON.parse (VStr "id-1") (VStr ".a") (VDate (Some 1000))
       (jsint 5) fresh_database
     = (fresh_database, Err NotInitialized)
  /\ remove (VStr "id-1") (VBool true) fresh_database
     = (fresh_database, Err NotInitialized).
Proof.
  destruct (calls_before_initialize_fail HostJSON.stringify HostJSON.parse
              (fun _ => node_eqb) types (VStr "id-1") (readme_object 5)
              (VDate (Some 1000)) (VDate (Some 1000)) ".a" (VDate (Some 1000))
              (jsint 5) (VBool true) fresh_database eq_refl)
    as (H1 & _ & _ & H4 & _ & H6 & _).
  split; [apply H1; reflexivity|].
  split; [apply H4; reflexivity|apply H6; reflexivity].
Defined.

Lemma exists_iff_rows_witness :
  exists b,
    exists_ (VStr "id-1") tied_store = (tied_store, Ok b)
    /\ (b = true <->
        exists type r, In r (rows (get_table type tied_store))
                       /\ node_eqb (row_node r) (VStr "id-1") = true).
Proof.
  apply (exists_iff_rows (VStr "id-1") tied_store); reflexivity.
Defined.

Lemma insertObject_checks_witness :
  insertObject HostJSON.stringify VUndefined (VObj []) VUndefined example_store
  = (example_store, Ok tt)
  /\ insertObject HostJSON.stringify (VStr "id-1") (readme_object 5) (jsint 1000)
       example_store
     = (example_store, Err BadTimestamp)
  /\ insertObject HostJSON.stringify VNull (readme_object 5) (VDate (Some 1000))
       example_store
     = (example_store, Err BadNode).
Proof.
  split; [|split].
  - apply (insertObject_checks HostJSON.stringify VUndefined (VObj []) VUndefined
             example_store); [reflexivity|reflexivity|discriminate|reflexivity].
  - apply (insertObject_checks HostJSON.stringify (VStr "id-1") (readme_object 5)
             (jsint 1000) example_store);
      [reflexivity|reflexivity|discriminate|reflexivity].
  - apply (insertObject_checks HostJSON.stringify VNull (readme_object 5)
             (VDate (Some 1000)) example_store);
      [reflexivity|reflexivity|discriminate|reflexivity|reflexivity].
Defined.

(* ------------------------------------------------------------------ *)
(** ** Searching by value *)

Lemma Forall2_combine_node {B} (P : row -> jsval * B -> Prop)
    (Q : row -> B -> Prop) found (out : list B) :
  (forall r o, Q r o -> P r (row_node r, o)) ->
  Forall2 Q found out ->
  Forall2 P found (combine (map row_node found) out).
Proof.
  intros H HF. induction HF as [|r o found out Hro HF IH]; simpl; constructor; auto.
Qed.

Section SearchProperties.

Variable JSON_stringify : jsval -> string.
Variable JSON_parse : jsval -> option jsval.
Variable sql_value_eq : ty -> jsval -> jsval -> bool.

Local Abbreviation search := (search JSON_stringify JSON_parse sql_value_eq).
Local Abbreviation search_query := (search_query JSON_parse sql_value_eq).
Local Abbreviation search_rows := (search_rows sql_value_eq).
Local Abbreviation reform := (reform JSON_stringify).
Local Abbreviation decode := (decode JSON_parse).

Lemma reform_type value v type : reform value = Some (v, type) -> type = type_of value.
Proof.
  destruct value as [| |b|[q| |]|s|[ms|]|elts|props|props]; simpl;
    try discriminate; now intros [= _ <-].
Qed.

Lemma search_rows_spec f v t n type st :
  let found := search_rows f v t (jsint n) type st in
  (List.length found <= Z.to_nat n)%nat
  /\ StronglySorted (fun x y => row_timestamp x >= row_timestamp y) found
  /\ Forall (fun r => In r (rows (get_table type st))
                      /\ row_field r = f
                      /\ sql_value_eq type (row_value r) v = true
                      /\ row_timestamp r <= t) found.
Proof.
  unfold search_rows. rewrite limit_rows_jsint. cbv zeta.
  split; [apply firstn_le_length|].
  split; [apply firstn_StronglySorted, desc_sorted|].
  rewrite Forall_forall. intros r Hr.
  apply firstn_In in Hr.
  apply (Permutation_in _ (desc_perm _)) in Hr.
  apply filter_In in Hr. destruct Hr as [Hin Hc].
  apply andb_true_iff in Hc. destruct Hc as [Hc H3].
  apply andb_true_iff in Hc. destruct Hc as [H1 H2].
  apply String.eqb_eq in H1. apply Z.leb_le in H3. auto.
Qed.

(** [search] looks into one partition only, the one of the type of the
    value.  For a field, an instant, a limit [n] between 1 and 10001
    and an initialized store whose array rows hold JSON text, it
    returns the rows of that partition written at the field up to the
    instant whose value the backend finds equal to the encoded value:
    at most [n], in non-increasing order of timestamp, each with its
    node, its decoded value and its timestamp as a date.  The store
    stays as it is. *)
Theorem search_one_partition f value t n st v type :
  1 <= n <= 10001 -> is_initialized st = true ->
  reform value = Some (v, type) -> value <> VDate None ->
  Forall (fun r => JSON_parse (row_value r) <> None) (rows (ts_array st)) ->
  type = type_of value
  /\ exists out,
       search (VStr f) value (VDate (Some t)) (jsint n) st = (st, Found out)
       /\ let found := search_rows f v t (jsint n) type st in
          Forall2 (fun r o => fst o = row_node r
                              /\ decode type (row_value r) = Ok (series_value (snd o))
                              /\ series_timestamp (snd o)
                                 = new_Date (jsint (row_timestamp r)))
            found out
          /\ (List.length found <= Z.to_nat n)%nat
          /\ StronglySorted (fun x y => row_timestamp x >= row_timestamp y) found
          /\ Forall (fun r => In r (rows (get_table type st))
                              /\ row_field r = f
                              /\ sql_value_eq type (row_value r) v = true
                              /\ row_timestamp r <= t) found.
Proof.
  intros Hn Hi Hv Hd Harr. split; [eapply reform_type; eauto|].
  destruct (search_rows_spec f v t n type st) as (Hlen & Hsorted & Hall).
  destruct (updateValueTypes_ok JSON_parse type (search_rows f v t (jsint n) type st))
    as (out & Hout & HF).
  { intros r Hr E. rewrite Forall_forall in Hall. destruct (Hall r Hr) as (Hin & _).
    destruct type; simpl in E; try discriminate.
    rewrite Forall_forall in Harr. specialize (Harr r Hin).
    destruct (JSON_parse (row_value r)); [discriminate|congruence]. }
  exists (combine (map row_node (search_rows f v t (jsint n) type st)) out).
  split; [|split; [|auto]].
  - unfold search. rewrite valid_limit_jsint.
    assert (((1 <=? n) && (n <=? 10001)) = true) as ->
      by (apply andb_true_iff; split; apply Z.leb_le; lia).
    cbn [negb isDate getTime ret]. rewrite Hv.
    unfold search_query. unfold bind at 1. rewrite lock_run, Hi. cbv beta iota.
    unfold bind at 1. rewrite (getTableForType_ok _ _ Hi). cbv beta iota.
    assert (Hsql : sql_node v st = (st, Ok v)).
    { destruct value as [| |b|[q| |]|s|[ms|]|elts|props|props]; simpl in Hv;
        try discriminate; try congruence; injection Hv as <- _; reflexivity. }
    unfold bind at 1. rewrite Hsql. cbv beta iota.
    unfold bind at 1. unfold sql_timestamp, ret at 1. cbv beta iota.
    unfold bind at 1. unfold sqlapi_select at 1. cbv beta iota. cbn [ref_type].
    fold (search_rows f v t (jsint n) type st).
    unfold bind at 1. unfold lift at 1. rewrite Hout. reflexivity.
  - apply Forall2_combine_node with (2 := HF). intros r o H. simpl. tauto.
Qed.

(** [search] refuses a value exactly when it is [undefined], [null], a
    number that is not finite, a plain object or a function (and the
    limit, the field and the instant pass their checks): the values
    that [insert] takes without an error are refused here, before the
    lock is taken and whatever the store holds. *)
Theorem search_refuses field value when limit st :
  snd (search field value when limit st) = CannotSearch
  <-> (valid_limit limit = true /\ typeof field = "string"
       /\ isDate when = true
       /\ match value with
          | VUndefined | VNull | VObj _ | VFun _
          | VNum NaN | VNum (Infinity _) => True
          | _ => False
          end).
Proof.
  unfold search.
  destruct (valid_limit limit); cbn [negb];
    [|split; [discriminate|intros (H & _); discriminate]].
  destruct field as [| |b|x|f|d|elts|props|props];
    try (split; [discriminate|intros (_ & H & _); discriminate]).
  destruct when as [| |b|x|s|ms|elts|props|props]; cbn [isDate negb];
    try (split; [discriminate|intros (_ & _ & H & _); discriminate]).
  cbn [getTime ret].
  destruct (reform value) as [[v type]|] eqn:E.
  - split.
    + destruct (search_query f v type ms limit st) as [st' [found|e]];
        discriminate.
    + intros (_ & _ & _ & H).
      destruct value as [| |b|[q| |]|s|[d|]|elts|props|props];
        simpl in E; try discriminate; contradiction.
  - split; [|reflexivity]. intros _. repeat split.
    destruct value as [| |b|[q| |]|s|[d|]|elts|props|props];
      simpl in E; try discriminate; exact I.
Qed.

End SearchProperties.

Lemma search_one_partition_witness :
  let st := after (insertObject HostJSON.stringify (VStr "id-1") (readme_object 5)
                     (VDate (Some 1000))) example_store in
  exists out,
    search HostJSON.stringify HostJSON.parse (fun _ => node_eqb)
      (VStr ".b") (VStr "Hello") (VDate (Some 1000)) (jsint 5) st
    = (st, Found out)
    /\ Forall2 (fun r o => fst o = row_node r
                           /\ decode HostJSON.parse Tstring (row_value r)
                              = Ok (series_value (snd o))
                           /\ series_timestamp (snd o)
                              = new_Date (jsint (row_timestamp r)))
         (search_rows (fun _ => node_eqb) ".b" (VStr "Hello") 1000 (jsint 5)
            Tstring st)
         out.
Proof.
  intros st.
  destruct (search_one_partition HostJSON.stringify HostJSON.parse
              (fun _ => node_eqb) ".b" (VStr "Hello") 1000 5 st (VStr "Hello")
              Tstring)
    as (_ & out & Hrun & HF & _).
  - lia.
  - reflexivity.
  - reflexivity.
  - discriminate.
  - vm_compute. repeat constructor; discriminate.
  - exists out. split; [exact Hrun|exact HF].
Defined.

(* ------------------------------------------------------------------ *)
(** ** One observation written, and what a write is made of *)

Lemma sql_node_valid node st st1 n :
  isNode node = true -> sql_node node st = (st1, Ok n) ->
  valid_node node = true /\ n = node /\ st1 = st.
Proof.
  unfold valid_node. intros Hn. rewrite Hn.
  destruct node as [| |b|x|s|d|elts|props|props]; simpl;
    try (intros [= <- <-]; auto).
  destruct (isFinite x); simpl; [intros [= <- <-]; auto|discriminate].
Qed.

Lemma checkIsLatest_same table node field ms st :
  fst (checkIsLatest table node field ms st) = st.
Proof. symmetry. apply (keeps_checkIsLatest eq). Qed.

Lemma checkIsLatest_ok table node field ms st st1 latest :
  isNode node = true ->
  checkIsLatest table node field ms st = (st1, Ok latest) ->
  st1 = st
  /\ valid_node node = true
  /\ exists t,
       ms = Some t
       /\ ((latest = 0
            /\ exists r, In r (rows (get_table (ref_type table) st))
                         /\ more_recent node field t r = true)
           \/ (latest = 1
               /\ forall r, In r (rows (get_table (ref_type table) st)) ->
                            more_recent node field t r = false)).
Proof.
  intros Hn H.
  assert (Hs := checkIsLatest_same table node field ms st).
  rewrite H in Hs. simpl in Hs. split; [exact Hs|].
  revert H. unfold checkIsLatest, morerecents. unfold bind at 1. unfold bind at 1.
  destruct (sql_node node st) as [st2 [n|e]] eqn:En; [|discriminate].
  destruct (sql_node_valid _ _ _ _ Hn En) as (Hv & -> & ->).
  unfold bind at 1. destruct ms as [t|]; [|discriminate].
  unfold sql_timestamp, ret at 1. cbv beta iota.
  unfold bind at 1. unfold sqlapi_select at 1. cbv beta iota.
  unfold ret at 1. cbv beta iota.
  fold (more_recent node field t).
  intros H. split; [exact Hv|]. exists t. split; [reflexivity|].
  rewrite length_map in H.
  destruct (filter (more_recent node field t)
              (rows (get_table (ref_type table) st))) as [|r l] eqn:E.
  - right. simpl in H. injection H as _ <-. split; [reflexivity|].
    intros r Hr. destruct (more_recent node field t r) eqn:Er; [|reflexivity].
    assert (In r []) as [] by (rewrite <- E; apply filter_In; auto).
  - left. assert ((0 <? Z.of_nat (List.length (r :: l))) = true) as Hpos
      by (apply Z.ltb_lt; simpl List.length; lia).
    rewrite Hpos in H. injection H as _ <-. split; [reflexivity|].
    exists r. apply filter_In. rewrite E. now left.
Qed.

Lemma fst_bind_ret {A B} (m : M A) (b : B) st :
  fst ((_ <- m ;; ret b)%tsdb st) = fst (m st).
Proof. unfold bind. destruct (m st) as [st' [a|e]]; reflexivity. Qed.

Section WriteSteps.

Variable JSON_stringify : jsval -> string.
Variable R : store -> store -> Prop.
Context {R_preorder : PreOrder R}.
Variables node timestamp : jsval.

Hypothesis R_wrote :
  forall type field value v passes st st',
    1 <= len field <= MAX_FIELD_SIZE ->
    encodes JSON_stringify value type v passes ->
    wrote type node field timestamp passes v st st' -> R st st'.

(** The part that the [insertChecked...] functions share. *)
Lemma row_cases type field v (passes awaited : bool) ms st :
  is_initialized st = true -> isNode node = true ->
  let table := mkRef (table_name type st) type in
  let latest_of (latest : Z) := if passes then jsint latest else VUndefined in
  let st' :=
    fst ((latest <- checkIsLatest table node field ms ;;
          t <- sql_timestamp ms ;;
          result <- sqlapi_insert table node v field t latest ;;
          (if awaited
           then setIsLatest table node field result (latest_of latest)
           else detached (setIsLatest table node field result (latest_of latest))) ;;;
          ret result) st) in
  st' = st \/ wrote type node field (VDate ms) passes v st st'.
Proof.
  intros Hi Hn table latest_of. cbv zeta. subst table latest_of. cbv beta.
  set (table := mkRef (table_name type st) type).
  unfold bind at 1.
  destruct (checkIsLatest table node field ms st) as [st1 [latest|e]] eqn:E.
  - destruct (checkIsLatest_ok _ _ _ _ _ _ _ Hn E) as (-> & Hv & t & -> & _).
    right. exists t, latest. repeat split; auto.
    unfold bind at 1. rewrite E. cbv beta iota.
    unfold bind at 1. unfold sql_timestamp, ret at 1. cbv beta iota.
    unfold bind at 1.
    assert (Hins : sqlapi_insert table node v field t latest st
                   = (fst (sqlapi_insert table node v field t latest st),
                      Ok (auto_increment (get_table type st))))
      by reflexivity.
    rewrite Hins. cbv beta iota. unfold bind at 1. clear Hins E. subst table.
    destruct awaited; [|unfold detached];
      match goal with
      | |- context [setIsLatest ?a ?b ?c ?d ?e ?s] =>
          destruct (setIsLatest a b c d e s) as [st2 [[]|e2]]; reflexivity
      end.
  - left. assert (Hs := checkIsLatest_same table node field ms st).
    rewrite E in Hs. exact Hs.
Qed.

Lemma keeps_insert_leaf field value type v passes :
  encodes JSON_stringify value type v passes ->
  keeps R (insert JSON_stringify node field value timestamp).
Proof.
  intros Henc st.
  assert (Hcases :
    fst (insert JSON_stringify node field value timestamp st) = st
    \/ (1 <= len field <= MAX_FIELD_SIZE
        /\ wrote type node field timestamp passes v st
             (fst (insert JSON_stringify node field value timestamp st)))).
  { destruct (isDate timestamp) eqn:Hd;
      [|left; destruct Henc; simpl; rewrite Hd; reflexivity].
    destruct (isNode node) eqn:Hn;
      [|left; destruct Henc; simpl; rewrite Hd, Hn; reflexivity].
    destruct ((len field =? 0) || (MAX_FIELD_SIZE <? len field)) eqn:Hlen;
      [left; destruct Henc; simpl; rewrite Hd, Hn, Hlen; reflexivity|].
    assert (Hf : 1 <= len field <= MAX_FIELD_SIZE).
    { apply orb_false_iff in Hlen. destruct Hlen as [H1 H2].
      apply Z.eqb_neq in H1. apply Z.ltb_ge in H2. unfold len in *. lia. }
    destruct timestamp as [| |b|x|s|ms|elts|props|props]; try discriminate.
    destruct (is_initialized st) eqn:Hi.
    2:{ left. assert (Hg := fun t => getTableForType_uninitialized t st Hi).
        destruct Henc; simpl; rewrite Hn, Hlen; cbn [negb];
          rewrite fst_bind_ret;
          unfold insertCheckedNumber, insertCheckedString,
            insertCheckedBoolean, insertCheckedDate, insertCheckedArray,
            getTime;
          unfold bind at 1; unfold ret at 1; cbv beta iota.
        - unfold bind at 1. rewrite Hg. reflexivity.
        - destruct (MAX_STRING_SIZE <? len s); [reflexivity|].
          unfold bind at 1. rewrite Hg. reflexivity.
        - unfold bind at 1. rewrite Hg. reflexivity.
        - unfold bind at 1. unfold ret at 1. cbv beta iota.
          unfold bind at 1. rewrite Hg. reflexivity.
        - destruct (MAX_ARRAY_SIZE <? len (JSON_stringify (VArr elts)));
            [reflexivity|].
          unfold bind at 1. rewrite Hg. reflexivity. }
    assert (Hg := fun t => getTableForType_ok t st Hi).
    destruct Henc;
      match goal with
      | |- fst ?e = _ \/ _ =>
          eassert (Heq : fst e = _);
            [ simpl; rewrite Hn, Hlen; cbn [negb];
              rewrite fst_bind_ret;
              unfold insertCheckedNumber, insertCheckedString,
                insertCheckedBoolean, insertCheckedDate, insertCheckedArray,
                getTime;
              unfold bind at 1; unfold ret at 1; cbv beta iota
            | rewrite Heq; clear Heq ]
      end.
    - unfold bind at 1. rewrite Hg. cbv beta iota. reflexivity.
    - destruct (row_cases Tnumber field (VNum (Fin q)) true false ms st Hi Hn)
        as [Hc|Hc]; [left|right; split; [exact Hf|]]; exact Hc.
    - assert ((MAX_STRING_SIZE <? len s) = false) as -> by (apply Z.ltb_ge; lia).
      unfold bind at 1. rewrite Hg. cbv beta iota. reflexivity.
    - destruct (row_cases Tstring field (VStr s) true true ms st Hi Hn)
        as [Hc|Hc]; [left|right; split; [exact Hf|]]; exact Hc.
    - unfold bind at 1. rewrite Hg. cbv beta iota. cbn [truthy]. reflexivity.
    - destruct (row_cases Tboolean field (jsint (if b then 1 else 0)) true false
                  ms st Hi Hn)
        as [Hc|Hc]; [left|right; split; [exact Hf|]]; exact Hc.
    - unfold bind at 1. unfold ret at 1. cbv beta iota.
      unfold bind at 1. rewrite Hg. cbv beta iota. reflexivity.
    - destruct (row_cases Tdate field (jsint ms0) false true ms st Hi Hn)
        as [Hc|Hc]; [left|right; split; [exact Hf|]]; exact Hc.
    - assert ((MAX_ARRAY_SIZE <? len (JSON_stringify (VArr elts))) = false) as ->
        by (apply Z.ltb_ge; lia).
      unfold bind at 1. rewrite Hg. cbv beta iota. reflexivity.
    - destruct (row_cases Tarray field (VStr (JSON_stringify (VArr elts)))
                  true true ms st Hi Hn)
        as [Hc|Hc]; [left|right; split; [exact Hf|]]; exact Hc. }
  destruct Hcases as [->|[Hf Hw]]; [reflexivity|].
  eapply R_wrote; eauto.
Qed.

Lemma keeps_of_same {A} (m : M A) : keeps eq m -> keeps R m.
Proof. intros H. apply (keeps_pure R). intros st. symmetry. apply H. Qed.

(** The values that [insert] takes and stores nothing of. *)
Lemma insert_stores_nothing field value :
  match value with
  | VUndefined | VNull | VNum NaN | VNum (Infinity _) | VDate None => True
  | VStr s => MAX_STRING_SIZE < len s
  | VArr _ => MAX_ARRAY_SIZE < len (JSON_stringify value)
  | _ => False
  end ->
  keeps eq (insert JSON_stringify node field value timestamp).
Proof.
  intros Hv.
  destruct value as [| |b|[q| |]|s|[ms|]|elts|props|props]; try contradiction;
    simpl; keeps_eq.
  - unfold insertCheckedString. keeps_step; [keeps_step|].
    apply Z.ltb_lt in Hv. rewrite Hv. keeps_step.
  - unfold insertCheckedDate. keeps_step; [keeps_step|].
    change (getTime (VDate None)) with (ret (A:=option Z) None).
    apply (keeps_bind_ret eq).
    keeps_step; [keeps_step|]. keeps_step; [keeps_step|].
    keeps_step; [keeps_step|].
    change (sql_timestamp None) with (throw (A:=Z) BackendFailure).
    apply (keeps_bind_throw eq).
  - unfold insertCheckedArray. keeps_step; [keeps_step|].
    apply Z.ltb_lt in Hv. cbv zeta. rewrite Hv. keeps_step.
Qed.

Lemma keeps_insert value :
  forall field, keeps R (insert JSON_stringify node field value timestamp).
Proof.
  induction value as [| |b|n|s|t|elts IH|props IH|props IH]
    using jsval_nested_ind; intros field.
  - apply keeps_of_same, insert_stores_nothing. exact I.
  - apply keeps_of_same, insert_stores_nothing. exact I.
  - eapply keeps_insert_leaf. constructor.
  - destruct n as [q| |].
    + eapply keeps_insert_leaf. constructor.
    + apply keeps_of_same, insert_stores_nothing. exact I.
    + apply keeps_of_same, insert_stores_nothing. exact I.
  - destruct (Z_le_gt_dec (len s) MAX_STRING_SIZE) as [Hs|Hs].
    + eapply keeps_insert_leaf. constructor. exact Hs.
    + apply keeps_of_same, insert_stores_nothing. lia.
  - destruct t as [ms|].
    + eapply keeps_insert_leaf. constructor.
    + apply keeps_of_same, insert_stores_nothing. exact I.
  - destruct (Z_le_gt_dec (len (JSON_stringify (VArr elts))) MAX_ARRAY_SIZE)
      as [Hs|Hs].
    + eapply keeps_insert_leaf. constructor. exact Hs.
    + apply keeps_of_same, insert_stores_nothing. lia.
  - simpl. keeps_step; [keeps_step|]. keeps_step; [keeps_step|].
    keeps_step; [keeps_step|]. keeps_step.
    apply (keeps_Promise_all R). intros [k child] Hin.
    rewrite Forall_forall in IH. apply (IH _ Hin).
  - simpl. keeps_step; [keeps_step|]. keeps_step; [keeps_step|].
    keeps_step; [keeps_step|]. keeps_step.
    apply (keeps_Promise_all R). intros [k child] Hin.
    rewrite Forall_forall in IH. apply (IH _ Hin).
Qed.

(** A relation that holds across each single observation written holds
    across [insertObject]. *)
Lemma keeps_insertObject value :
  keeps R (insertObject JSON_stringify node value timestamp).
Proof.
  unfold insertObject. keeps_step; [keeps_step|].
  keeps_step; [keeps_step|]. unfold insertCheckedObject.
  keeps_step.
  - destruct value; simpl; keeps_step.
  - apply (keeps_Promise_all R). intros [k child] Hin. apply keeps_insert.
Qed.

End WriteSteps.

(* ------------------------------------------------------------------ *)
(** ** What one observation changes *)

Lemma truthy_jsint n : truthy (jsint n) = negb (n =? 0).
Proof.
  unfold truthy, jsint, Qeq_bool, inject_Z. simpl. rewrite Z.mul_1_r.
  destruct n; reflexivity.
Qed.

Lemma wrote_inv type node field timestamp passes v st st' :
  wrote type node field timestamp passes v st st' ->
  exists t latest,
    timestamp = VDate (Some t)
    /\ valid_node node = true
    /\ is_initialized st = true
    /\ ((latest = 0
         /\ exists r, In r (rows (get_table type st))
                      /\ more_recent node field t r = true)
        \/ (latest = 1
            /\ forall r, In r (rows (get_table type st)) ->
                         more_recent node field t r = false))
    /\ tsdbTablePrefix st' = tsdbTablePrefix st
    /\ (forall type', type' <> type -> get_table type' st' = get_table type' st)
    /\ let id := auto_increment (get_table type st) in
       let new := mkRow id node v field t latest in
       get_table type st'
       = mkTable (if passes && (latest =? 1)
                  then map (demote_row node field id)
                         (rows (get_table type st) ++ [new])
                  else (rows (get_table type st) ++ [new])%list)
           (id + 1).
Proof.
  intros (t & latest & -> & Hv & Hi & Hc & ->).
  destruct (checkIsLatest_ok _ _ _ _ _ _ _ (valid_node_isNode _ Hv) Hc)
    as (_ & _ & t' & [= <-] & Hl).
  cbn [ref_type] in Hl.
  exists t, latest. repeat (split; [assumption || reflexivity|]).
  clear Hc.
  set (table := mkRef (table_name type st) type).
  set (id := auto_increment (get_table type st)).
  assert (Hb : passes && (latest =? 1)
               = truthy (if passes then jsint latest else VUndefined)).
  { destruct passes; [|reflexivity]. rewrite truthy_jsint.
    destruct Hl as [[-> _]|[-> _]]; reflexivity. }
  rewrite Hb. unfold setIsLatest.
  destruct (truthy (if passes then jsint latest else VUndefined)); cbn [negb].
  - unfold bind. rewrite (sql_node_ok _ _ Hv). cbv beta iota.
    unfold sqlapi_update_latest0, sqlapi_insert. cbn [fst ref_type table].
    repeat split.
    + now rewrite !prefix_set_table.
    + intros type' Hne. now rewrite !get_set_table_other by assumption.
    + rewrite !get_set_table_same. reflexivity.
  - unfold ret, sqlapi_insert. cbn [fst ref_type table].
    repeat split.
    + now rewrite prefix_set_table.
    + intros type' Hne. now rewrite get_set_table_other by assumption.
    + rewrite get_set_table_same. reflexivity.
Qed.

Lemma demoted_refl r : demoted r r.
Proof. repeat split; auto. Qed.

Lemma demoted_trans r1 r2 r3 : demoted r1 r2 -> demoted r2 r3 -> demoted r1 r3.
Proof.
  intros (H1 & H2 & H3) (H4 & H5 & H6). repeat split; try congruence.
  destruct H3, H6; [left|right|right|right]; congruence.
Qed.

Lemma demote_row_demoted node field id r : demoted r (demote_row node field id r).
Proof.
  unfold demote_row. destruct (to_demote node field id r);
    repeat split; auto.
Qed.

Lemma demote_row_new node field id n v f t l :
  demote_row node field id (mkRow id n v f t l) = mkRow id n v f t l.
Proof.
  unfold demote_row, to_demote. cbn [row_id]. rewrite Z.eqb_refl.
  cbn [negb]. rewrite andb_false_r. reflexivity.
Qed.

Lemma Forall2_refl_on {A} (Q : A -> A -> Prop) l :
  (forall x, Q x x) -> Forall2 Q l l.
Proof. intros H. induction l; constructor; auto. Qed.

Lemma Forall2_map_r {A} (Q : A -> A -> Prop) (f : A -> A) l :
  (forall x, Q x (f x)) -> Forall2 Q l (map f l).
Proof. intros H. induction l; simpl; constructor; auto. Qed.

Lemma Forall2_trans {A} (Q : A -> A -> Prop) l1 l2 l3 :
  (forall x y z, Q x y -> Q y z -> Q x z) ->
  Forall2 Q l1 l2 -> Forall2 Q l2 l3 -> Forall2 Q l1 l3.
Proof.
  intros HQ H12. revert l3.
  induction H12 as [|x y l1 l2 Hxy H12 IH]; intros l3 H23; inversion H23; subst;
    constructor; eauto.
Qed.

Section Appends.

Variable P : ty -> row -> Prop.
Hypothesis P_demoted : forall type r r', P type r -> demoted r r' -> P type r'.

Lemma appends_refl st : appends P st st.
Proof.
  split; [reflexivity|]. intros type.
  exists (rows (get_table type st)), []. rewrite app_nil_r.
  repeat split; [|constructor].
  apply Forall2_refl_on, demoted_refl.
Qed.

Lemma appends_trans st1 st2 st3 :
  appends P st1 st2 -> appends P st2 st3 -> appends P st1 st3.
Proof.
  intros [Hp1 H1] [Hp2 H2]. split; [congruence|]. intros type.
  destruct (H1 type) as (old1 & added1 & E1 & F1 & A1).
  destruct (H2 type) as (old2 & added2 & E2 & F2 & A2).
  rewrite E1 in F2. apply Forall2_app_inv_l in F2.
  destruct F2 as (o & a & Fo & Fa & ->).
  exists o, (a ++ added2)%list. rewrite E2, app_assoc.
  repeat split.
  - eapply Forall2_trans; [exact demoted_trans|exact F1|exact Fo].
  - apply Forall_app. split; [|exact A2].
    clear - Fa A1 P_demoted. induction Fa; inversion A1; subst; constructor; eauto.
Qed.

#[local] Instance appends_PreOrder : PreOrder (appends P).
Proof. split; [exact appends_refl|exact appends_trans]. Qed.

Lemma wrote_appends type node field timestamp passes v st st' :
  wrote type node field timestamp passes v st st' ->
  (forall id t latest,
      timestamp = VDate (Some t) -> valid_node node = true ->
      latest = 0 \/ latest = 1 ->
      P type (mkRow id node v field t latest)) ->
  appends P st st'.
Proof.
  intros Hw HP. apply wrote_inv in Hw.
  destruct Hw as (t & latest & Ht & Hv & Hi & Hl & Hp & Hother & Hsame).
  cbv zeta in Hsame.
  assert (Hl' : latest = 0 \/ latest = 1) by (destruct Hl as [[-> _]|[-> _]]; auto).
  split; [exact Hp|]. intros type'.
  destruct (ty_eqb type' type) eqn:E.
  - apply ty_eqb_eq in E. subst type'. rewrite Hsame. cbn [rows].
    destruct (passes && (latest =? 1)).
    + rewrite map_app. cbn [map]. rewrite demote_row_new.
      eexists _, _. split; [reflexivity|]. split.
      * apply Forall2_map_r, demote_row_demoted.
      * constructor; [|constructor]. now apply HP.
    + eexists _, _. split; [reflexivity|]. split.
      * apply Forall2_refl_on, demoted_refl.
      * constructor; [|constructor]. now apply HP.
  - rewrite Hother by (intros ->; rewrite ty_eqb_refl in E; discriminate).
    exists (rows (get_table type' st)), []. rewrite app_nil_r.
    repeat split; [|constructor]. apply Forall2_refl_on, demoted_refl.
Qed.

End Appends.

(* ------------------------------------------------------------------ *)
(** ** Writes only append *)

Lemma keeps_bind_sql_node (R : store -> store -> Prop) {HR : PreOrder R}
    {B} node (k : jsval -> M B) :
  keeps R (k node) -> keeps R (bind (sql_node node) k).
Proof.
  intros H st. unfold bind.
  destruct node as [| |b|x|s|d|elts|props|props]; simpl; try apply H.
  destruct (isFinite x); simpl; [apply H|reflexivity].
Qed.

Lemma filter_idem {A} (p : A -> bool) l : filter p (filter p l) = filter p l.
Proof.
  induction l as [|x l IH]; [reflexivity|].
  simpl. destruct (p x) eqn:E; simpl; rewrite ?E; congruence.
Qed.

Lemma removed_refl node st : removed node st st.
Proof. split; [reflexivity|]. intros type. now left. Qed.

Lemma removed_trans node st1 st2 st3 :
  removed node st1 st2 -> removed node st2 st3 -> removed node st1 st3.
Proof.
  intros [Hp1 H1] [Hp2 H2]. split; [congruence|]. intros type.
  destruct (H1 type) as [E1|E1], (H2 type) as [E2|E2]; rewrite E2, E1; auto.
  right. cbn [rows auto_increment]. f_equal. apply filter_idem.
Qed.

Lemma removed_PreOrder node : PreOrder (removed node).
Proof. split; [exact (removed_refl node)|exact (removed_trans node)]. Qed.

Lemma keeps_remove node sure : keeps (removed node) (remove node sure).
Proof.
  pose proof (removed_PreOrder node) as HR.
  unfold remove. keeps_step; [keeps_step|]. keeps_step; [keeps_step|].
  keeps_step; [keeps_step; keeps_step|].
  apply (keeps_foldM (removed node)). intros u type.
  apply (keeps_bind (removed node)); [keeps_step|intros table].
  apply (keeps_bind_sql_node (removed node)).
  intros st. unfold sqlapi_delete. cbn [fst]. split.
  - apply prefix_set_table.
  - intros type'. destruct (ty_eqb type' (ref_type table)) eqn:E.
    + apply ty_eqb_eq in E. subst type'. right. now rewrite get_set_table_same.
    + left. apply get_set_table_other.
      intros ->. rewrite ty_eqb_refl in E. discriminate.
Qed.

Lemma impl_PreOrder (I : store -> Prop) : PreOrder (fun st st' => I st -> I st').
Proof. split; [intros st H; exact H|intros a b c H1 H2 H; auto]. Qed.

Lemma NoDup_map_filter {A B} (f : A -> B) (p : A -> bool) l :
  NoDup (map f l) -> NoDup (map f (filter p l)).
Proof.
  induction l as [|x l IH]; simpl; [auto|]. intros H. inversion H; subst.
  destruct (p x); simpl; [constructor|]; auto.
  intros Hin. apply in_map_iff in Hin. destruct Hin as (y & Hy & Hin).
  apply filter_In in Hin. apply H2. rewrite <- Hy. apply in_map. tauto.
Qed.

Lemma map_id_demote node field id l :
  map row_id (map (demote_row node field id) l) = map row_id l.
Proof.
  rewrite map_map. apply map_ext. intros r. unfold demote_row.
  destruct (to_demote node field id r); reflexivity.
Qed.

Lemma initialize_tables prefix type :
  get_table type (after (initialize prefix) fresh_database) = empty_table.
Proof.
  unfold after, initialize.
  destruct prefix as [| |b|x|s|d|elts|props|props]; try (destruct type; reflexivity).
  destruct (String.length s =? 0)%nat; destruct type; reflexivity.
Qed.

Section AppendOnly.

Variable JSON_stringify : jsval -> string.

Local Abbreviation encodes := (encodes JSON_stringify).
Local Abbreviation row_ok := (row_ok JSON_stringify).
Local Abbreviation value_ok := (value_ok JSON_stringify).
Local Abbreviation table_ok := (table_ok JSON_stringify).
Local Abbreviation store_ok := (store_ok JSON_stringify).
Local Abbreviation insertObject := (insertObject JSON_stringify).

Lemma encodes_value_ok value type v passes :
  encodes value type v passes -> value_ok type v.
Proof.
  intros []; simpl; eauto. destruct b; auto.
Qed.

Lemma encodes_passes value type v passes :
  encodes value type v passes -> passes = negb (ty_eqb type Tdate).
Proof. intros []; reflexivity. Qed.

Lemma row_ok_demoted type r r' : row_ok type r -> demoted r r' -> row_ok type r'.
Proof.
  intros (H1 & H2 & H3 & H4) (_ & Ho & Hl).
  unfold obs_of in Ho. injection Ho as Hn Hv Hf _.
  unfold row_ok. rewrite Hn, Hv, Hf.
  repeat split; auto; try tauto; try lia.
Qed.

(** The rows that a call of [insertObject] adds. *)
Let written (node timestamp : jsval) (type : ty) (r : row) : Prop :=
  row_node r = node /\ timestamp = VDate (Some (row_timestamp r))
  /\ row_ok type r.

Lemma written_demoted node timestamp type r r' :
  written node timestamp type r -> demoted r r' -> written node timestamp type r'.
Proof.
  intros (H1 & H2 & H3) Hd. destruct (Hd) as (_ & Ho & _).
  unfold obs_of in Ho. injection Ho as Hn _ _ Ht.
  split; [congruence|]. split; [congruence|].
  eapply row_ok_demoted; eauto.
Qed.

Lemma insertObject_appends node value timestamp :
  keeps (appends (written node timestamp)) (insertObject node value timestamp).
Proof.
  apply (@keeps_insertObject JSON_stringify _
           (appends_PreOrder _ (written_demoted node timestamp))).
  intros type field val v passes st st' Hf Henc Hw.
  apply (wrote_appends (written node timestamp) _ _ _ _ _ _ _ _ Hw).
  intros id t latest -> Hv Hl. repeat split; auto; try (cbn; lia).
  eapply encodes_value_ok; eauto.
Qed.

(** [insertObject] only appends, whatever its arguments and whether it
    succeeds or fails.  Every row of the store stays where it was, with
    its id, node, value, field and timestamp; its latest flag stays or
    is reset to 0, never set.  The rows added come after, and each one
    carries the node and the timestamp of the call, a value of the
    representation of its partition within the size bounds, a field of
    1 to 512 characters and a latest flag 0 or 1. *)
Theorem insertObject_appends_only node value timestamp st :
  let st' := after (insertObject node value timestamp) st in
  tsdbTablePrefix st' = tsdbTablePrefix st
  /\ forall type, exists old added,
       rows (get_table type st') = (old ++ added)%list
       /\ Forall2 (fun r r' =>
                     row_id r' = row_id r /\ obs_of r' = obs_of r
                     /\ (row_latest r' = row_latest r \/ row_latest r' = 0))
            (rows (get_table type st)) old
       /\ Forall (fun r =>
                    row_node r = node
                    /\ timestamp = VDate (Some (row_timestamp r))
                    /\ row_ok type r)
            added.
Proof. exact (insertObject_appends node value timestamp st). Qed.

Lemma table_ok_put type node field id v t latest (passes : bool) tb :
  table_ok type tb -> id = auto_increment tb ->
  row_ok type (mkRow id node v field t latest) ->
  table_ok type
    (mkTable (if passes
              then map (demote_row node field id)
                     (rows tb ++ [mkRow id node v field t latest])
              else (rows tb ++ [mkRow id node v field t latest])%list)
       (id + 1)).
Proof.
  intros (Hrows & Hnd & Hids) -> Hnew.
  assert (Hok : table_ok type
                  (mkTable (rows tb ++ [mkRow (auto_increment tb) node v field t latest])
                     (auto_increment tb + 1))).
  { repeat split; cbn [rows auto_increment].
    - apply Forall_app. split; [exact Hrows|constructor; [exact Hnew|constructor]].
    - rewrite map_app. cbn [map row_id].
      apply NoDup_app; [exact Hnd|repeat constructor; intros []|].
      intros x Hx [<-|[]]. apply in_map_iff in Hx. destruct Hx as (r & Hr & Hin).
      rewrite Forall_forall in Hids. specialize (Hids r Hin). lia.
    - apply Forall_app. split.
      + eapply Forall_impl; [|exact Hids]. intros r Hr. simpl in Hr. lia.
      + constructor; [cbn; lia|constructor]. }
  destruct passes; [|exact Hok].
  destruct Hok as (Hrows' & Hnd' & Hids'). cbn [rows auto_increment] in *.
  repeat split; cbn [rows auto_increment].
  - rewrite Forall_forall in *. intros r Hr. apply in_map_iff in Hr.
    destruct Hr as (r0 & <- & Hr0).
    eapply row_ok_demoted; [apply Hrows'; exact Hr0|apply demote_row_demoted].
  - rewrite map_id_demote. exact Hnd'.
  - rewrite Forall_forall in *. intros r Hr. apply in_map_iff in Hr.
    destruct Hr as (r0 & <- & Hr0). specialize (Hids' r0 Hr0).
    unfold demote_row. destruct (to_demote _ _ _ r0); exact Hids'.
Qed.

Lemma store_ok_insertObject node value timestamp st :
  store_ok st -> store_ok (after (insertObject node value timestamp) st).
Proof.
  apply (@keeps_insertObject JSON_stringify _ (impl_PreOrder store_ok)).
  clear st. intros type field val v passes st st' Hf Henc Hw Hok type'.
  apply wrote_inv in Hw.
  destruct Hw as (t & latest & Ht & Hv & Hi & Hl & Hp & Hother & Hsame).
  cbv zeta in Hsame.
  destruct (ty_eqb type' type) eqn:E.
  - apply ty_eqb_eq in E. subst type'. rewrite Hsame.
    apply table_ok_put; [apply Hok|reflexivity|].
    split; [exact Hv|]. split; [eapply encodes_value_ok; eauto|].
    split; [exact Hf|]. destruct Hl as [[-> _]|[-> _]]; auto.
  - rewrite Hother by (intros ->; rewrite ty_eqb_refl in E; discriminate).
    apply Hok.
Qed.

Lemma store_ok_removed node st st' :
  removed node st st' -> store_ok st -> store_ok st'.
Proof.
  intros [_ H] Hok type. destruct (H type) as [->| ->]; [apply Hok|].
  destruct (Hok type) as (Hrows & Hnd & Hids).
  repeat split; cbn [rows auto_increment].
  - apply Forall_forall. intros r Hr. apply filter_In in Hr.
    rewrite Forall_forall in Hrows. apply Hrows. tauto.
  - apply NoDup_map_filter. exact Hnd.
  - apply Forall_forall. intros r Hr. apply filter_In in Hr.
    rewrite Forall_forall in Hids. apply Hids. tauto.
Qed.

End AppendOnly.

(* ------------------------------------------------------------------ *)
(** ** Invariants of the stores that calls reach *)

Section Reachable.

Variable JSON_stringify : jsval -> string.
Variable JSON_parse : jsval -> option jsval.
Variable sql_value_eq : ty -> jsval -> jsval -> bool.

Local Abbreviation store_ok := (store_ok JSON_stringify).
Local Abbreviation insertObject := (insertObject JSON_stringify).
Local Abbreviation run_calls := (run_calls JSON_stringify JSON_parse sql_value_eq).

Lemma run_calls_invariant (I : store -> Prop) :
  (forall node value timestamp st,
      I st -> I (after (insertObject node value timestamp) st)) ->
  (forall node st st', removed node st st' -> I st -> I st') ->
  forall cs st, I st -> I (run_calls cs st).
Proof.
  intros Hins Hrem cs. induction cs as [|c cs IH]; intros st H; [exact H|].
  simpl. apply IH. destruct c; simpl.
  - apply Hins. exact H.
  - eapply Hrem; [apply keeps_remove|exact H].
  - rewrite <- (same_synthesizeObject JSON_parse answers node st). exact H.
  - rewrite <- (same_synthesizeObjectAt JSON_parse answers node date st). exact H.
  - rewrite <- (same_getSeries JSON_parse node field when limit st). exact H.
  - rewrite <- (same_exists node st). exact H.
  - rewrite same_search. exact H.
Qed.

(** Every store that a session reaches holds well-formed rows only.
    From the tables as [createTable] makes them, after [initialize] and
    any sequence of calls with any arguments, failed calls included,
    each row of each partition has a node that [isNode] accepts and the
    backend can compare, a value of the representation of its partition
    within the size bounds (a string of at most 4096 characters, a
    finite number, the JSON text of an array of at most 16384
    characters, an integer time value, 0 or 1), a field of 1 to 512
    characters and a latest flag 0 or 1; the ids of a partition are
    distinct and below its AUTO_INCREMENT counter. *)
Theorem reachable_rows_well_formed prefix cs :
  store_ok (run_calls cs (after (initialize prefix) fresh_database)).
Proof.
  apply run_calls_invariant.
  - intros. now apply store_ok_insertObject.
  - apply store_ok_removed.
  - intros type. rewrite initialize_tables.
    repeat split; constructor.
Qed.

End Reachable.

Lemma filter_comm {A} (p q : A -> bool) l :
  filter p (filter q l) = filter q (filter p l).
Proof.
  induction l as [|x l IH]; [reflexivity|]. simpl.
  destruct (p x) eqn:Ep, (q x) eqn:Eq; simpl; rewrite ?Ep, ?Eq; congruence.
Qed.


(* ------------------------------------------------------------------ *)
(** ** A write at a later instant leaves the past as it was *)

Lemma Forall2_filter {A} (Q : A -> A -> Prop) (p : A -> bool) l l' :
  (forall x y, Q x y -> p x = p y) ->
  Forall2 Q l l' -> Forall2 Q (filter p l) (filter p l').
Proof.
  intros Hp H. induction H as [|x y l l' Hxy H IH]; simpl; [constructor|].
  rewrite (Hp x y Hxy). destruct (p y); [constructor|]; assumption.
Qed.

Lemma Forall2_firstn {A} (Q : A -> A -> Prop) n l l' :
  Forall2 Q l l' -> Forall2 Q (firstn n l) (firstn n l').
Proof.
  intros H. revert n. induction H; intros [|n]; simpl; constructor; auto.
Qed.

Lemma filter_andb {A} (p q : A -> bool) l :
  filter (fun x => p x && q x) l = filter p (filter q l).
Proof.
  induction l as [|x l IH]; [reflexivity|]. simpl.
  destruct (q x); simpl; [destruct (p x)|rewrite andb_false_r]; simpl; congruence.
Qed.

Lemma obs_timestamp r r' : obs_of r = obs_of r' -> row_timestamp r = row_timestamp r'.
Proof. unfold obs_of. now intros [= _ _ _ H]. Qed.

Lemma place_same_obs before r r' l l' :
  obs_of r = obs_of r' -> same_obs l l' ->
  same_obs (place before r l) (place before r' l').
Proof.
  intros Hr H. induction H as [|x y l l' Hxy H IH]; simpl.
  - repeat constructor. exact Hr.
  - rewrite (obs_timestamp _ _ Hxy), (obs_timestamp _ _ Hr).
    destruct (before (row_timestamp y) (row_timestamp r')).
    + constructor; assumption.
    + constructor; [exact Hr|constructor; assumption].
Qed.

Lemma order_by_same_obs before l l' :
  same_obs l l' -> same_obs (order_by before l) (order_by before l').
Proof.
  unfold order_by. intros H.
  assert (Hacc : same_obs [] []) by constructor.
  revert Hacc. generalize (@nil row) at 1 3. generalize (@nil row).
  induction H as [|x y l l' Hxy H IH]; intros acc' acc Hacc; simpl; [exact Hacc|].
  apply IH. now apply place_same_obs.
Qed.

Lemma limit_rows_same_obs limit l l' :
  same_obs l l' -> same_obs (limit_rows limit l) (limit_rows limit l').
Proof.
  intros H. destruct limit as [| |b|[q| |]|s|d|elts|props|props]; simpl;
    try exact H.
  now apply Forall2_firstn.
Qed.

Lemma same_obs_length l l' : same_obs l l' -> List.length l = List.length l'.
Proof. intros H. induction H; simpl; congruence. Qed.

Lemma fold_entries_same_obs type l l' m :
  same_obs l l' ->
  fold_left (fun m r => js_assign (row_field r)
                          (mkEntry (row_value r) type (row_timestamp r)) m) l m
  = fold_left (fun m r => js_assign (row_field r)
                            (mkEntry (row_value r) type (row_timestamp r)) m) l' m.
Proof.
  intros H. revert m. induction H as [|x y l l' Hxy H IH]; intros m; [reflexivity|].
  simpl. unfold obs_of in Hxy. injection Hxy as _ Hv Hf Ht.
  rewrite Hv, Hf, Ht. apply IH.
Qed.

Lemma sql_node_any node st st' :
  exists r, sql_node node st = (st, r) /\ sql_node node st' = (st', r).
Proof.
  destruct node as [| |b|[q| |]|s|d|elts|props|props]; simpl;
    unfold ret, throw; eauto.
Qed.

Lemma getTableForType_any type st st' :
  tsdbTablePrefix st = tsdbTablePrefix st' ->
  exists r, getTableForType type st = (st, r)
            /\ getTableForType type st' = (st', r).
Proof.
  intros H. unfold getTableForType. rewrite <- H.
  destruct (tsdbTablePrefix st) as [p|]; [destruct (String.eqb p "")|]; eauto.
Qed.

Section PastReads.

Variable JSON_stringify : jsval -> string.
Variable JSON_parse : jsval -> option jsval.
Variable sql_value_eq : ty -> jsval -> jsval -> bool.

Local Abbreviation search := (search JSON_stringify JSON_parse sql_value_eq).
Local Abbreviation search_query := (search_query JSON_parse sql_value_eq).
Local Abbreviation insertObject := (insertObject JSON_stringify).
Local Abbreviation synthesizeObjectAt := (synthesizeObjectAt JSON_parse).
Local Abbreviation getSeries := (getSeries JSON_parse).
Local Abbreviation updateValueTypes := (updateValueTypes JSON_parse).

Lemma updateValueTypes_same_obs type l l' :
  same_obs l l' -> updateValueTypes type l = updateValueTypes type l'.
Proof.
  intros H. unfold updateValueTypes.
  induction H as [|x y l l' Hxy H IH]; [reflexivity|].
  cbn [mapR]. unfold obs_of in Hxy. injection Hxy as _ Hv _ Ht.
  rewrite Hv, Ht, IH. reflexivity.
Qed.

Variables st st' : store.
Variable t : Z.
Hypothesis same_prefix : tsdbTablePrefix st = tsdbTablePrefix st'.
Hypothesis same_past :
  forall type, same_obs (rows_until t type st) (rows_until t type st').

Lemma select_until (p : row -> bool) type :
  (forall r r', obs_of r = obs_of r' -> p r = p r') ->
  same_obs
    (filter (fun r => p r && (row_timestamp r <=? t)) (rows (get_table type st)))
    (filter (fun r => p r && (row_timestamp r <=? t)) (rows (get_table type st'))).
Proof.
  intros Hp. rewrite !filter_andb. apply Forall2_filter; [exact Hp|].
  apply same_past.
Qed.

Lemma lock_any :
  exists r, lock st = (st, r) /\ lock st' = (st', r).
Proof.
  rewrite !lock_run. unfold is_initialized. rewrite same_prefix. eauto.
Qed.

Lemma asyncpart_any node m type :
  exists r,
    asyncpart node (TimestampLe (Some t)) m type st = (st, r)
    /\ asyncpart node (TimestampLe (Some t)) m type st' = (st', r).
Proof.
  unfold asyncpart. unfold bind at 1 5.
  destruct (getTableForType_any type st st' same_prefix) as ([table|e] & -> & ->);
    [|eauto].
  unfold bind at 1 4.
  destruct (sql_node_any node st st') as ([n|e] & -> & ->); [|eauto].
  unfold bind at 1 3. cbn [sql_condition sql_timestamp].
  unfold bind at 1 3. unfold ret at 1 3. cbv beta iota.
  unfold ret at 1 2. cbv beta iota.
  unfold bind, sqlapi_select, ret.
  eexists. split; [reflexivity|]. f_equal. f_equal.
  symmetry. apply fold_entries_same_obs, order_by_same_obs.
  apply (select_until (fun r => node_eqb (row_node r) n)).
  intros r r' Hr. unfold obs_of in Hr. now injection Hr as -> _ _ _.
Qed.

Lemma merge_any node ts :
  forall m, exists r,
    foldM (asyncpart node (TimestampLe (Some t))) ts m st = (st, r)
    /\ foldM (asyncpart node (TimestampLe (Some t))) ts m st' = (st', r).
Proof.
  induction ts as [|type ts IH]; intros m; simpl; [unfold ret; eauto|].
  unfold bind.
  destruct (asyncpart_any node m type) as ([m'|e] & -> & ->); [apply IH|eauto].
Qed.

Lemma synthesizeObjectAt_any answers node :
  snd (synthesizeObjectAt answers node (VDate (Some t)) st)
  = snd (synthesizeObjectAt answers node (VDate (Some t)) st').
Proof.
  unfold synthesizeObjectAt. unfold bind at 1 3.
  destruct lock_any as ([[]|e] & -> & ->); [|reflexivity].
  cbn [getTime]. unfold bind at 1 2. unfold ret at 1 2. cbv beta iota.
  unfold synthesizeObjectParameterized.
  destruct (negb (isNode node)); [reflexivity|].
  unfold bind.
  destruct (merge_any node answers []) as ([m|e] & -> & ->); reflexivity.
Qed.

Lemma getSeries_loop_any node field limit ts :
  exists r,
    getSeries_loop JSON_parse node field (Some t) limit ts st = (st, r)
    /\ getSeries_loop JSON_parse node field (Some t) limit ts st' = (st', r).
Proof.
  induction ts as [|type ts IH]; simpl; [unfold ret; eauto|].
  unfold bind at 1 5.
  destruct (getTableForType_any type st st' same_prefix) as ([table|e] & -> & ->);
    [|eauto].
  unfold bind at 1 4.
  destruct (sql_node_any node st st') as ([n|e] & -> & ->); [|eauto].
  unfold bind at 1 3. cbn [sql_timestamp]. unfold ret at 1 2. cbv beta iota.
  unfold bind, sqlapi_select.
  assert (Hsame :
    same_obs
      (limit_rows limit
         (order_by_timestamp_desc
            (filter (fun r => node_eqb (row_node r) n
                              && String.eqb (row_field r) field
                              && (row_timestamp r <=? t))
               (rows (get_table (ref_type table) st)))))
      (limit_rows limit
         (order_by_timestamp_desc
            (filter (fun r => node_eqb (row_node r) n
                              && String.eqb (row_field r) field
                              && (row_timestamp r <=? t))
               (rows (get_table (ref_type table) st')))))).
  { apply limit_rows_same_obs, order_by_same_obs.
    apply (select_until (fun r => node_eqb (row_node r) n
                                  && String.eqb (row_field r) field)).
    intros r r' Hr. unfold obs_of in Hr. now injection Hr as -> _ -> _. }
  rewrite (same_obs_length _ _ Hsame).
  destruct (0 <? Z.of_nat _); [|exact IH].
  unfold lift. rewrite (updateValueTypes_same_obs _ _ _ Hsame). eauto.
Qed.

Lemma getSeries_any node field limit :
  snd (getSeries node field (VDate (Some t)) limit st)
  = snd (getSeries node field (VDate (Some t)) limit st').
Proof.
  unfold getSeries.
  destruct (negb (isNode node)); [reflexivity|].
  destruct (negb (valid_limit limit)); [reflexivity|].
  destruct field; try reflexivity.
  cbn [isDate negb getTime]. unfold bind at 1 3. unfold ret at 1 2.
  cbv beta iota. unfold bind, detached.
  destruct lock_any as (r & -> & ->). cbn [fst].
  destruct (getSeries_loop_any node s limit types) as (r' & -> & ->).
  reflexivity.
Qed.

Lemma search_query_any field v type limit :
  exists r,
    search_query field v type (Some t) limit st = (st, r)
    /\ search_query field v type (Some t) limit st' = (st', r).
Proof.
  unfold search_query. unfold bind at 1 7.
  destruct lock_any as ([[]|e] & -> & ->); [|eauto].
  unfold bind at 1 6.
  destruct (getTableForType_any type st st' same_prefix) as ([table|e] & -> & ->);
    [|eauto].
  unfold bind at 1 5.
  destruct (sql_node_any v st st') as ([n|e] & -> & ->); [|eauto].
  unfold bind at 1 4. cbn [sql_timestamp]. unfold ret at 1 3. cbv beta iota.
  unfold bind at 1 3. unfold sqlapi_select. cbv beta iota.
  assert (Hsame :
    same_obs
      (limit_rows limit
         (order_by_timestamp_desc
            (filter (fun r => String.eqb (row_field r) field
                              && sql_value_eq type (row_value r) n
                              && (row_timestamp r <=? t))
               (rows (get_table (ref_type table) st)))))
      (limit_rows limit
         (order_by_timestamp_desc
            (filter (fun r => String.eqb (row_field r) field
                              && sql_value_eq type (row_value r) n
                              && (row_timestamp r <=? t))
               (rows (get_table (ref_type table) st')))))).
  { apply limit_rows_same_obs, order_by_same_obs.
    apply (select_until (fun r => String.eqb (row_field r) field
                                  && sql_value_eq type (row_value r) n)).
    intros r r' Hr. unfold obs_of in Hr. now injection Hr as _ -> -> _. }
  unfold bind, lift, ret.
  rewrite (updateValueTypes_same_obs _ _ _ Hsame).
  assert (Hnodes : forall l l', same_obs l l' -> map row_node l = map row_node l').
  { intros l l' H. induction H as [|x y l l' Hxy H IH]; [reflexivity|].
    simpl. unfold obs_of in Hxy. injection Hxy as -> _ _ _. now rewrite IH. }
  rewrite (Hnodes _ _ Hsame).
  destruct (updateValueTypes _ _); eauto.
Qed.

Lemma search_any field value limit :
  snd (search field value (VDate (Some t)) limit st)
  = snd (search field value (VDate (Some t)) limit st').
Proof.
  unfold search.
  destruct (negb (valid_limit limit)); [reflexivity|].
  destruct field; try reflexivity.
  cbn [isDate negb getTime ret].
  destruct (reform JSON_stringify value) as [[v type]|]; [|reflexivity].
  destruct (search_query_any s v type limit) as ([found|e] & -> & ->);
    reflexivity.
Qed.

End PastReads.

Section History.

Variable JSON_stringify : jsval -> string.
Variable JSON_parse : jsval -> option jsval.
Variable sql_value_eq : ty -> jsval -> jsval -> bool.

Local Abbreviation search := (search JSON_stringify JSON_parse sql_value_eq).
Local Abbreviation insertObject := (insertObject JSON_stringify).
Local Abbreviation synthesizeObjectAt := (synthesizeObjectAt JSON_parse).
Local Abbreviation getSeries := (getSeries JSON_parse).

Lemma insertObject_past node value t2 t st type :
  t < t2 ->
  same_obs (rows_until t type st)
    (rows_until t type (after (insertObject node value (VDate (Some t2))) st)).
Proof.
  intros Hlt.
  destruct (insertObject_appends JSON_stringify node value (VDate (Some t2)) st)
    as [_ H].
  destruct (H type) as (old & added & E & Hold & Hadded).
  unfold rows_until, after. rewrite E, filter_app.
  rewrite (filter_none _ added).
  - rewrite app_nil_r. apply Forall2_filter.
    + intros x y Hxy. now rewrite (obs_timestamp _ _ Hxy).
    + clear - Hold. induction Hold as [|x y l l' Hxy H IH]; constructor; auto.
      destruct Hxy as (_ & Ho & _). now symmetry.
  - intros r Hr. rewrite Forall_forall in Hadded.
    destruct (Hadded r Hr) as (_ & [= Ht] & _). apply Z.leb_gt. lia.
Qed.

(** A write does not change the past.  After [insertObject] with a
    timestamp [t2], whatever the node and the value and whether the call
    succeeds or fails, the reads at an instant [t] before [t2] answer
    what they answered before, for every node, field, value and limit
    and, for [synthesizeObjectAt], every order of the answers:
    [synthesizeObjectAt], [getSeries] and [search]. *)
Theorem later_write_keeps_past
    node value t2 t st answers node' field value' limit :
  t < t2 ->
  let st' := after (insertObject node value (VDate (Some t2))) st in
  snd (synthesizeObjectAt answers node' (VDate (Some t)) st')
  = snd (synthesizeObjectAt answers node' (VDate (Some t)) st)
  /\ snd (getSeries node' field (VDate (Some t)) limit st')
     = snd (getSeries node' field (VDate (Some t)) limit st)
  /\ snd (search field value' (VDate (Some t)) limit st')
     = snd (search field value' (VDate (Some t)) limit st).
Proof.
  intros Hlt st'.
  assert (Hp : tsdbTablePrefix st = tsdbTablePrefix st').
  { symmetry.
    apply (insertObject_appends JSON_stringify node value (VDate (Some t2)) st). }
  assert (Hpast : forall type, same_obs (rows_until t type st) (rows_until t type st'))
    by (intros type; apply insertObject_past; exact Hlt).
  split; [|split]; symmetry.
  - apply (synthesizeObjectAt_any JSON_parse st st' t Hp Hpast).
  - apply (getSeries_any JSON_parse st st' t Hp Hpast).
  - apply (search_any JSON_stringify JSON_parse sql_value_eq st st' t Hp Hpast).
Qed.

End History.

Lemma later_write_keeps_past_witness :
  let st := after (insertObject HostJSON.stringify (VStr "id-1") (readme_object 5)
                     (VDate (Some 1000))) example_store in
  let st' := after (insertObject HostJSON.stringify (VStr "id-1")
                      (VObj [("a", jsint 2)]) (VDate (Some 2000))) st in
  snd (synthesizeObjectAt HostJSON.parse types (VStr "id-1") (VDate (Some 1000)) st')
  = snd (synthesizeObjectAt HostJSON.parse types (VStr "id-1") (VDate (Some 1000)) st)
  /\ snd (getSeries HostJSON.parse (VStr "id-1") (VStr ".a") (VDate (Some 1000))
            (jsint 5) st')
     = snd (getSeries HostJSON.parse (VStr "id-1") (VStr ".a") (VDate (Some 1000))
              (jsint 5) st).
Proof.
  intros st st'.
  destruct (later_write_keeps_past HostJSON.stringify HostJSON.parse
              (fun _ => node_eqb) (VStr "id-1") (VObj [("a", jsint 2)]) 2000 1000
              st types (VStr "id-1") (VStr ".a") (jsint 1) (jsint 5))
    as (H1 & H2 & _); [lia|].
  split; [exact H1|exact H2].
Defined.

(* ------------------------------------------------------------------ *)
(** ** Looking up what a write stored *)

Lemma filter_obs (q : jsval * jsval * string * Z -> bool) l :
  map obs_of (filter (fun r => q (obs_of r)) l) = filter q (map obs_of l).
Proof.
  induction l as [|r l IH]; [reflexivity|]. simpl.
  destruct (q (obs_of r)); simpl; congruence.
Qed.

Lemma filter_key_unique {A} (l : list (string * A)) f v :
  NoDup (map fst l) -> In (f, v) l ->
  filter (fun fv => String.eqb (fst fv) f) l = [(f, v)].
Proof.
  induction l as [|[k x] l IH]; intros Hnd Hin; [destruct Hin|].
  simpl in *. inversion Hnd as [|? ? Hk Hnd']; subst.
  destruct (String.eqb_spec k f) as [->|Hne].
  - assert (x = v) as ->.
    { destruct Hin as [[= ->]|Hin]; [reflexivity|].
      exfalso. apply Hk. apply (in_map fst) in Hin. exact Hin. }
    f_equal. apply filter_none. intros [k' x'] Hin'. simpl.
    destruct (String.eqb_spec k' f) as [->|]; [|reflexivity].
    exfalso. apply Hk. apply (in_map fst) in Hin'. exact Hin'.
  - destruct Hin as [[= -> _]|Hin]; [congruence|]. now apply IH.
Qed.

Lemma map_obs_singleton l o :
  map obs_of l = [o] -> exists r, l = [r] /\ obs_of r = o.
Proof.
  destruct l as [|r [|r' l]]; simpl; try discriminate.
  intros [= H]. eauto.
Qed.

(** The rows of a partition that a query finds after a write, when the
    query finds no row written before and tells the leaves of the write
    apart by their field. *)
Lemma logged_rows js node t L st st' type f v (q : jsval * jsval * string * Z -> bool) :
  logs js node t L st st' ->
  NoDup (map fst L) -> In (f, v) L ->
  (forall r, In r (rows (get_table type st)) -> q (obs_of r) = false) ->
  (forall f' v', In (f', v') L ->
                 q (node, stored js v', f', t) = String.eqb f' f) ->
  map obs_of (filter (fun r => q (obs_of r)) (rows (get_table type st')))
  = if ty_eqb (type_of v) type then [(node, stored js v, f, t)] else [].
Proof.
  intros [_ Hrows] Hnd Hin Hold Hnew.
  rewrite filter_obs, Hrows, filter_app.
  rewrite (filter_none q (map obs_of (rows (get_table type st)))).
  2:{ intros o Ho. apply in_map_iff in Ho. destruct Ho as (r & <- & Hr).
      now apply Hold. }
  cbn [app].
  assert (E : forall l, (forall x, In x l -> In x L) ->
              filter q (map (fun fv => (node, stored js (snd fv), fst fv, t)) l)
              = map (fun fv => (node, stored js (snd fv), fst fv, t))
                  (filter (fun fv => String.eqb (fst fv) f) l)).
  { induction l as [|[f' v'] l IH]; intros Hl; [reflexivity|].
    cbn [map filter fst snd]. rewrite (Hnew f' v') by (apply Hl; now left).
    rewrite IH by (intros x Hx; apply Hl; now right).
    destruct (String.eqb f' f); reflexivity. }
  rewrite E by (intros x Hx; apply filter_In in Hx; tauto).
  rewrite filter_comm, (filter_key_unique L f v Hnd Hin).
  cbn [filter snd]. destruct (ty_eqb (type_of v) type); reflexivity.
Qed.

Section Lookups.

Variable JSON_stringify : jsval -> string.
Variable JSON_parse : jsval -> option jsval.

Local Abbreviation logs := (logs JSON_stringify).
Local Abbreviation stored := (stored JSON_stringify).
Local Abbreviation storable := (storable JSON_stringify JSON_parse).
Local Abbreviation round_trip_leaf := (round_trip_leaf JSON_stringify JSON_parse).
Local Abbreviation flat_object := (flat_object JSON_stringify JSON_parse).
Local Abbreviation insertObject := (insertObject JSON_stringify).
Local Abbreviation getSeries := (getSeries JSON_parse).

Lemma leaf_of_object props f v :
  (forall k c, In (k, c) props -> plain_name k /\ storable ("." ++ k) c) ->
  In (f, v) (leaves "" (VObj props)) -> round_trip_leaf v.
Proof.
  intros Hch Hin. apply leaves_top in Hin. destruct Hin as (p & Hp & _).
  apply paths_of_object in Hp.
  destruct Hp as (k & c & rest & -> & Hkc & Hrest).
  destruct (Hch _ _ Hkc) as [_ Hc].
  apply (storable_paths _ _ _ _ _ _ Hc Hrest).
Qed.

Lemma getSeries_loop_found node f w limit st type r ts :
  valid_node node = true -> is_initialized st = true ->
  In type ts ->
  series_rows node f w limit type st = [r] ->
  (forall type', type' <> type -> series_rows node f w limit type' st = []) ->
  getSeries_loop JSON_parse node f (Some w) limit ts st
  = (st, updateValueTypes JSON_parse type [r]).
Proof.
  intros Hn Hi Hin Hr Hother. induction ts as [|type' ts IH]; [destruct Hin|].
  rewrite (getSeries_loop_step _ _ _ _ _ _ _ _ Hn Hi).
  destruct (ty_eqb type' type) eqn:E.
  - apply ty_eqb_eq in E. subst type'. rewrite Hr. reflexivity.
  - assert (Hne : type' <> type)
      by (intros ->; rewrite ty_eqb_refl in E; discriminate).
    rewrite (Hother _ Hne). apply IH.
    destruct Hin as [->|Hin]; [congruence|exact Hin].
Qed.

(** What [insertObject] stores, [getSeries] and [exists] find.  Let a
    flat object (every property a leaf that the codec stores and gives
    back, under a plain name) be written for a node that has no
    observation yet, at a valid instant [t].  Then for each property
    [k] with value [v], [getSeries] at the field [.k], at any instant
    from [t] on and with any limit from 1 to 10001, returns the
    one-element series of [v] with the timestamp [t], decoded; and
    [exists] answers true. *)
Theorem insertObject_then_getSeries node props t w n k v st :
  valid_node node = true -> is_initialized st = true -> valid_time t ->
  (forall type, rows_of node type st = []) ->
  flat_object (VObj props) -> In (k, v) props ->
  t <= w -> 1 <= n <= 10001 ->
  let st' := after (insertObject node (VObj props) (VDate (Some t))) st in
  getSeries node (VStr ("." ++ k)) (VDate (Some w)) (jsint n) st'
  = (st', Ok [mkSeries v (VDate (Some t))])
  /\ exists_ node st' = (st', Ok true).
Proof.
  intros Hn Hi Ht Hfresh (props0 & E & Hnd & Hflat) Hkv Hw Hlim st'.
  injection E as <-.
  assert (Hch := flat_object_storable JSON_stringify JSON_parse props Hflat).
  assert (Hin := flat_object_leaf JSON_stringify JSON_parse props k v Hflat Hkv).
  set (f := "." ++ k) in *. clearbody f.
  destruct (insertObject_run JSON_stringify JSON_parse node t Hn props st
              Hnd Hch Hi) as (st1 & Hrun & HL).
  assert (st' = st1) as -> by (unfold st', after; rewrite Hrun; reflexivity).
  clear Hrun.
  assert (Hi1 : is_initialized st1 = true) by (destruct HL; congruence).
  assert (HLnd := top_leaves_NoDup JSON_stringify JSON_parse props Hnd Hch).
  assert (Hleaf := leaf_of_object props f v Hch Hin).
  (* the rows that the query of a partition finds *)
  assert (Hrows : forall type,
    map obs_of
      (filter (fun r => node_eqb (row_node r) node
                        && String.eqb (row_field r) f
                        && (row_timestamp r <=? w))
         (rows (get_table type st1)))
    = if ty_eqb (type_of v) type then [(node, stored v, f, t)] else []).
  { intros type.
    apply (logged_rows JSON_stringify node t _ st st1 type f v
             (fun o => match o with
                       | (n', _, f', t') =>
                           node_eqb n' node && String.eqb f' f && (t' <=? w)
                       end) HL HLnd Hin).
    - intros r Hr. unfold obs_of.
      destruct (node_eqb (row_node r) node) eqn:E; [|reflexivity].
      assert (Hin' : In r (rows_of node type st)) by (apply filter_In; auto).
      rewrite Hfresh in Hin'. destruct Hin'.
    - intros f' v' _. rewrite (node_eqb_refl _ Hn).
      assert ((t <=? w) = true) as -> by (apply Z.leb_le; lia).
      cbn [andb]. now rewrite andb_true_r. }
  assert (Hfound : exists r,
    series_rows node f w (jsint n) (type_of v) st1 = [r]
    /\ obs_of r = (node, stored v, f, t)
    /\ In r (rows (get_table (type_of v) st1))).
  { specialize (Hrows (type_of v)). rewrite ty_eqb_refl in Hrows.
    apply map_obs_singleton in Hrows. destruct Hrows as (r & E & Ho).
    exists r. split; [|split; [exact Ho|]].
    - unfold series_rows. rewrite E, limit_rows_jsint.
      destruct (Z.to_nat n) eqn:En; [lia|].
      cbn. now rewrite firstn_nil.
    - assert (Hr : In r [r]) by now left.
      rewrite <- E in Hr. apply filter_In in Hr. tauto. }
  assert (Hother : forall type, type <> type_of v ->
                     series_rows node f w (jsint n) type st1 = []).
  { intros type Hne. specialize (Hrows type).
    rewrite ty_eqb_neq in Hrows by congruence.
    unfold series_rows.
    destruct (filter _ (rows (get_table type st1))); [|discriminate].
    rewrite limit_rows_jsint. now destruct (Z.to_nat n). }
  destruct Hfound as (r & Hr & Ho & Hrin).
  unfold obs_of in Ho. injection Ho as Hrn Hrv Hrf Hrt.
  split.
  - unfold getSeries. rewrite (valid_node_isNode _ Hn), valid_limit_jsint.
    assert (((1 <=? n) && (n <=? 10001)) = true) as ->
      by (apply andb_true_iff; split; apply Z.leb_le; lia).
    cbn [negb isDate getTime]. unfold bind at 1. unfold ret at 1.
    cbv beta iota. unfold bind at 1. unfold detached.
    rewrite lock_run. cbn [fst].
    rewrite (getSeries_loop_found node f w (jsint n) st1 (type_of v) r types
               Hn Hi1); [| |exact Hr|exact Hother].
    + unfold updateValueTypes. cbn [mapR].
      rewrite Hrv, (decode_stored _ _ _ Hleaf), Hrt, (new_Date_valid _ Ht).
      reflexivity.
    + unfold types. simpl. destruct (type_of v); tauto.
  - unfold exists_. rewrite (valid_node_isNode _ Hn). cbn [negb].
    unfold bind at 1. unfold detached. rewrite lock_run. cbn [fst].
    rewrite (exists_loop_run node st1 Hn Hi1). f_equal. f_equal.
    apply existsb_exists. exists (type_of v). split.
    + unfold types. simpl. destruct (type_of v); tauto.
    + assert (H : In r (rows_of node (type_of v) st1)).
      { apply filter_In. split; [exact Hrin|].
        rewrite Hrn. apply node_eqb_refl, Hn. }
      destruct (rows_of node (type_of v) st1); [destruct H|reflexivity].
Qed.

End Lookups.

Section SearchLookups.

Variable JSON_stringify : jsval -> string.
Variable JSON_parse : jsval -> option jsval.
Variable sql_value_eq : ty -> jsval -> jsval -> bool.

Local Abbreviation stored := (stored JSON_stringify).
Local Abbreviation round_trip_leaf := (round_trip_leaf JSON_stringify JSON_parse).
Local Abbreviation flat_object := (flat_object JSON_stringify JSON_parse).
Local Abbreviation insertObject := (insertObject JSON_stringify).
Local Abbreviation search := (search JSON_stringify JSON_parse sql_value_eq).

Lemma reform_stored v :
  round_trip_leaf v ->
  reform JSON_stringify v = Some (stored v, type_of v)
  /\ forall st, sql_node (stored v) st = (st, Ok (stored v)).
Proof.
  destruct v as [| |b|[q| |]|s|[d|]|elts|props|props]; simpl; try contradiction;
    intros _; split; reflexivity.
Qed.

(** What [insertObject] stores, [search] finds.  Let a flat object
    (every property a leaf that the codec stores and gives back, under
    a plain name) be written for a node that is a string, at a valid
    instant [t], on a store where the partition of the value [v] of a
    property [k] holds no row at the field [.k], and let the backend
    find the stored value equal to itself.
    Then [search] for [v] at [.k], at any instant from [t] on and with
    any limit from 1 to 10001, returns the node of the write with [v]
    and the timestamp [t], decoded, and nothing else. *)
Theorem insertObject_then_search s props t w n k v st :
  valid_node (VStr s) = true -> is_initialized st = true -> valid_time t ->
  sql_value_eq (type_of v) (stored v) (stored v) = true ->
  (forall r, In r (rows (get_table (type_of v) st)) ->
             row_field r <> "." ++ k) ->
  flat_object (VObj props) -> In (k, v) props ->
  t <= w -> 1 <= n <= 10001 ->
  let st' := after (insertObject (VStr s) (VObj props) (VDate (Some t))) st in
  search (VStr ("." ++ k)) v (VDate (Some w)) (jsint n) st'
  = (st', Found [(VStr s, mkSeries v (VDate (Some t)))]).
Proof.
  intros Hn Hi Ht Hrefl Hfree (props0 & E & Hnd & Hflat) Hkv Hw Hlim st'.
  injection E as <-.
  assert (Hch := flat_object_storable JSON_stringify JSON_parse props Hflat).
  assert (Hin := flat_object_leaf JSON_stringify JSON_parse props k v Hflat Hkv).
  set (f := "." ++ k) in *. clearbody f.
  set (node := VStr s) in *. clearbody node.
  destruct (insertObject_run JSON_stringify JSON_parse node t Hn props st
              Hnd Hch Hi) as (st1 & Hrun & HL).
  assert (st' = st1) as -> by (unfold st', after; rewrite Hrun; reflexivity).
  clear Hrun.
  assert (Hi1 : is_initialized st1 = true) by (destruct HL; congruence).
  assert (HLnd := top_leaves_NoDup JSON_stringify JSON_parse props Hnd Hch).
  assert (Hleaf := leaf_of_object JSON_stringify JSON_parse props f v Hch Hin).
  destruct (reform_stored v Hleaf) as [Hreform Hsql].
  assert (Hrows :
    map obs_of
      (filter (fun r => String.eqb (row_field r) f
                        && sql_value_eq (type_of v) (row_value r) (stored v)
                        && (row_timestamp r <=? w))
         (rows (get_table (type_of v) st1)))
    = [(node, stored v, f, t)]).
  { pose proof (logged_rows JSON_stringify node t _ st st1 (type_of v) f v
                  (fun o => match o with
                            | (_, v', f', t') =>
                                String.eqb f' f
                                && sql_value_eq (type_of v) v' (stored v)
                                && (t' <=? w)
                            end) HL HLnd Hin) as H.
    rewrite ty_eqb_refl in H. apply H.
    - intros r Hr. unfold obs_of.
      destruct (String.eqb_spec (row_field r) f) as [E|E]; [|reflexivity].
      exfalso. exact (Hfree r Hr E).
    - intros f' v' Hin'.
      assert ((t <=? w) = true) as -> by (apply Z.leb_le; lia).
      rewrite andb_true_r.
      destruct (String.eqb_spec f' f) as [->|]; [|reflexivity].
      rewrite (leaves_functional JSON_stringify JSON_parse props Hnd Hch
                 f v' v Hin' Hin).
      apply Hrefl. }
  apply map_obs_singleton in Hrows. destruct Hrows as (r & E & Ho).
  unfold obs_of in Ho. injection Ho as Hrn Hrv Hrf Hrt.
  unfold search. rewrite valid_limit_jsint.
  assert (((1 <=? n) && (n <=? 10001)) = true) as ->
    by (apply andb_true_iff; split; apply Z.leb_le; lia).
  cbn [negb isDate getTime ret]. rewrite Hreform.
  unfold search_query. unfold bind at 1. rewrite lock_run, Hi1. cbv beta iota.
  unfold bind at 1. rewrite (getTableForType_ok _ _ Hi1). cbv beta iota.
  unfold bind at 1. rewrite Hsql. cbv beta iota.
  unfold bind at 1. unfold sql_timestamp, ret at 1. cbv beta iota.
  unfold bind at 1. unfold sqlapi_select at 1. cbv beta iota. cbn [ref_type].
  rewrite E, limit_rows_jsint.
  assert (firstn (Z.to_nat n) (order_by_timestamp_desc [r]) = [r]) as ->.
  { destruct (Z.to_nat n) eqn:En; [lia|]. cbn. now rewrite firstn_nil. }
  unfold bind, lift, updateValueTypes. cbn [mapR].
  rewrite Hrv, (decode_stored _ _ _ Hleaf), Hrt, (new_Date_valid _ Ht).
  cbn [map combine ret]. rewrite Hrn. reflexivity.
Qed.

End SearchLookups.

Lemma insertObject_then_getSeries_witness :
  let st' := after (insertObject HostJSON.stringify (VStr "id-1") (readme_object 5)
                      (VDate (Some 1000))) example_store in
  getSeries HostJSON.parse (VStr "id-1") (VStr ".e") (VDate (Some 2000)) (jsint 5) st'
  = (st', Ok [mkSeries (VArr [jsint 1; jsint 2; jsint 3]) (VDate (Some 1000))])
  /\ exists_ (VStr "id-1") st' = (st', Ok true).
Proof.
  apply (insertObject_then_getSeries HostJSON.stringify HostJSON.parse
           (VStr "id-1")
           [("a", jsint 1); ("b", VStr "Hello"); ("c", VBool true);
            ("d", VDate (Some 5)); ("e", VArr [jsint 1; jsint 2; jsint 3])]
           1000 2000 5 "e"
           (VArr [jsint 1; jsint 2; jsint 3]) example_store).
  - reflexivity.
  - reflexivity.
  - unfold valid_time. simpl. lia.
  - intros type. destruct type; reflexivity.
  - exact readme_object_flat.
  - simpl. tauto.
  - lia.
  - lia.
Defined.

Lemma insertObject_then_search_witness :
  let st' := after (insertObject HostJSON.stringify (VStr "id-1") (readme_object 5)
                      (VDate (Some 1000))) example_store in
  search HostJSON.stringify HostJSON.parse (fun _ => node_eqb)
    (VStr ".c") (VBool true) (VDate (Some 1000)) (jsint 1) st'
  = (st', Found [(VStr "id-1", mkSeries (VBool true) (VDate (Some 1000)))]).
Proof.
  apply (insertObject_then_search HostJSON.stringify HostJSON.parse
           (fun _ => node_eqb)
           "id-1"
           [("a", jsint 1); ("b", VStr "Hello"); ("c", VBool true);
            ("d", VDate (Some 5)); ("e", VArr [jsint 1; jsint 2; jsint 3])]
           1000 1000 1 "c" (VBool true)
           example_store).
  - reflexivity.
  - reflexivity.
  - unfold valid_time. simpl. lia.
  - reflexivity.
  - intros r [].
  - exact readme_object_flat.
  - simpl. tauto.
  - lia.
  - lia.
Defined.

(* ------------------------------------------------------------------ *)
(** ** The tables of the partitions *)

Lemma append_split p1 : forall p2 a b,
  p1 ++ a = p2 ++ b ->
  exists c, (p2 = p1 ++ c /\ a = c ++ b) \/ (p1 = p2 ++ c /\ b = c ++ a).
Proof.
  induction p1 as [|x p1 IH]; intros p2 a b H.
  - exists p2. left. simpl in *. auto.
  - destruct p2 as [|y p2].
    + exists (String x p1). right. simpl in *. auto.
    + simpl in H. injection H as -> H.
      destruct (IH _ _ _ H) as (c & [[-> ->]|[-> ->]]); exists c; [left|right];
        simpl; auto.
Qed.

Lemma suffix_not_nested t1 t2 c :
  ("_" ++ table_suffix t1 = c ++ "_" ++ table_suffix t2) -> c = "" /\ t1 = t2.
Proof.
  intros H.
  assert (Hlen := f_equal String.length H). rewrite !length_append in Hlen.
  destruct t1, t2; simpl in Hlen;
    destruct c as [|c1 [|c2 [|c3 [|c4 c]]]]; simpl in Hlen; try lia;
    simpl in H; try discriminate; auto.
Qed.

Lemma table_names_injective t1 t2 st1 st2 r1 r2 :
  getTableForType t1 st1 = (st1, Ok r1) ->
  getTableForType t2 st2 = (st2, Ok r2) ->
  ref_name r1 = ref_name r2 ->
  tsdbTablePrefix st1 = tsdbTablePrefix st2 /\ t1 = t2.
Proof.
  unfold getTableForType.
  destruct (tsdbTablePrefix st1) as [p1|]; [|discriminate].
  destruct (tsdbTablePrefix st2) as [p2|]; [|discriminate].
  destruct (String.eqb p1 ""); [discriminate|].
  destruct (String.eqb p2 ""); [discriminate|].
  intros [= <-] [= <-]. cbn [ref_name]. intros H.
  destruct (append_split _ _ _ _ H) as (c & [[-> Hc]|[-> Hc]]);
    apply suffix_not_nested in Hc; destruct Hc as [-> Ht];
    rewrite append_nil_r; auto.
Qed.

(** The router never gives one name to two tables: when the bound
    prefixes differ or the types differ, the names that
    [getTableForType] returns differ, also when one prefix extends the
    other by an underscore and the start of a partition's name. *)
Theorem table_names_distinct t1 t2 st1 st2 r1 r2 :
  getTableForType t1 st1 = (st1, Ok r1) ->
  getTableForType t2 st2 = (st2, Ok r2) ->
  tsdbTablePrefix st1 <> tsdbTablePrefix st2 \/ t1 <> t2 ->
  ref_name r1 <> ref_name r2.
Proof.
  intros H1 H2 Hne E.
  destruct (table_names_injective _ _ _ _ _ _ H1 H2 E) as [Hp Ht].
  destruct Hne as [Hne|Hne]; contradiction.
Qed.

Lemma table_names_distinct_witness :
  let st1 := mkStore (Some "example") empty_table empty_table empty_table
               empty_table empty_table in
  let st2 := mkStore (Some "example_ts") empty_table empty_table empty_table
               empty_table empty_table in
  getTableForType Tstring st1 = (st1, Ok (mkRef "example_ts_string" Tstring))
  /\ getTableForType Tstring st2 = (st2, Ok (mkRef "example_ts_ts_string" Tstring))
  /\ "example_ts_string" <> "example_ts_ts_string".
Proof.
  intros st1 st2. split; [reflexivity|]. split; [reflexivity|].
  apply (table_names_distinct Tstring Tstring st1 st2
           (mkRef "example_ts_string" Tstring)
           (mkRef "example_ts_ts_string" Tstring));
    [reflexivity|reflexivity|].
  left. discriminate.
Defined.

(* ------------------------------------------------------------------ *)
(** ** Which writes succeed *)

Lemma prefix_PreOrder :
  PreOrder (fun st st' => tsdbTablePrefix st' = tsdbTablePrefix st).
Proof. split; [intros st; reflexivity|intros a b c H1 H2; congruence]. Qed.

Lemma Promise_all_iff {A} (f : A -> M unit) (I : store -> Prop) (C : A -> Prop) l :
  (forall x st, In x l -> I st ->
     I (fst (f x st)) /\ (snd (f x st) = Ok tt <-> C x)) ->
  forall st, I st ->
    (snd (Promise_all f l st) = Ok tt <-> Forall C l).
Proof.
  induction l as [|x l IH]; intros H st Hst.
  - simpl. split; [constructor|reflexivity].
  - simpl. destruct (H x st (or_introl eq_refl) Hst) as [Hst1 Hx].
    destruct (f x st) as [st1 r1]. cbn [fst snd] in *.
    specialize (IH (fun y s Hy => H y s (or_intror Hy)) st1 Hst1).
    destruct (Promise_all f l st1) as [st2 r2]. cbn [snd] in *.
    split.
    + intros Hr. destruct r1 as [[]|e]; [|discriminate].
      constructor; [now apply Hx|now apply IH].
    + intros HF. inversion HF as [|? ? Hc HF']; subst.
      apply Hx in Hc. rewrite Hc. now apply IH.
Qed.

Section FirstLevel.

Variable JSON_stringify : jsval -> string.

Local Abbreviation insertObject := (insertObject JSON_stringify).
Local Abbreviation accepted := (accepted JSON_stringify).

Lemma insert_keeps_prefix node field value timestamp st :
  tsdbTablePrefix (fst (insert JSON_stringify node field value timestamp st))
  = tsdbTablePrefix st.
Proof.
  apply (@keeps_insert JSON_stringify _ prefix_PreOrder node timestamp).
  intros type f val v passes s s' _ _ Hw. apply wrote_inv in Hw.
  destruct Hw as (? & ? & _ & _ & _ & _ & Hp & _). exact Hp.
Qed.

Lemma insert_outcome node field value t st :
  valid_node node = true -> is_initialized st = true ->
  snd (insert JSON_stringify node field value (VDate (Some t)) st) = Ok tt
  <-> (1 <= len field <= MAX_FIELD_SIZE /\ accepted value).
Proof.
  intros Hn Hi.
  assert (Hnode := valid_node_isNode _ Hn).
  destruct ((len field =? 0) || (MAX_FIELD_SIZE <? len field)) eqn:Hlen.
  { assert (Hbad : ~ 1 <= len field <= MAX_FIELD_SIZE).
    { apply orb_true_iff in Hlen. destruct Hlen as [H|H];
        [apply Z.eqb_eq in H|apply Z.ltb_lt in H]; lia. }
    split; [|tauto].
    destruct value; simpl; rewrite Hnode, Hlen; discriminate. }
  assert (Hf : 1 <= len field <= MAX_FIELD_SIZE).
  { apply orb_false_iff in Hlen. destruct Hlen as [H1 H2].
    apply Z.eqb_neq in H1. apply Z.ltb_ge in H2. unfold len in *. lia. }
  assert (Hg := fun ty => getTableForType_ok ty st Hi).
  assert (Hrow := fun v k awaited =>
            insert_row_run JSON_stringify node t Hn (table_name (type_of v) st)
              field v k awaited st).
  destruct value as [| |b|[q| |]|s|[d|]|elts|props|props];
    cbn [insert]; cbn [isDate]; rewrite Hnode, Hlen; cbn [negb];
    try (split; [intros _; split; [exact Hf|exact I]|reflexivity]).
  - (* boolean *)
    unfold insertCheckedBoolean, getTime. unfold bind at 1. unfold bind at 1.
    unfold ret at 1. cbv beta iota. unfold bind at 1. rewrite Hg. cbv beta iota.
    destruct (Hrow (VBool b) jsint false) as (st' & id & Hrun & _).
    cbn [type_of stored truthy] in *. rewrite Hrun.
    split; [intros _; split; [exact Hf|exact I]|reflexivity].
  - (* finite number *)
    unfold insertCheckedNumber, getTime. unfold bind at 1. unfold bind at 1.
    unfold ret at 1. cbv beta iota. unfold bind at 1. rewrite Hg. cbv beta iota.
    destruct (Hrow (VNum (Fin q)) jsint false) as (st' & id & Hrun & _).
    cbn [type_of stored] in *. rewrite Hrun.
    split; [intros _; split; [exact Hf|exact I]|reflexivity].
  - (* string *)
    unfold insertCheckedString, getTime. unfold bind at 1. unfold bind at 1.
    unfold ret at 1. cbv beta iota. cbn [accepted].
    destruct (MAX_STRING_SIZE <? len s) eqn:Hs.
    + apply Z.ltb_lt in Hs. split; [discriminate|lia].
    + apply Z.ltb_ge in Hs.
      unfold bind at 1. rewrite Hg. cbv beta iota.
      destruct (Hrow (VStr s) jsint true) as (st' & id & Hrun & _).
      cbn [type_of stored] in *. rewrite Hrun.
      split; [intros _; split; [exact Hf|exact Hs]|reflexivity].
  - (* valid date *)
    unfold insertCheckedDate, getTime. unfold bind at 1. unfold bind at 1.
    unfold ret at 1. cbv beta iota. unfold bind at 1. unfold ret at 1.
    cbv beta iota. unfold bind at 1. rewrite Hg. cbv beta iota.
    unfold bind at 1.
    destruct (checkIsLatest_run node t Hn (mkRef (table_name Tdate st) Tdate)
                field st) as [latest ->].
    cbv beta iota.
    split; [intros _; split; [exact Hf|exact I]|reflexivity].
  - (* invalid date *)
    unfold insertCheckedDate, getTime. unfold bind at 1. unfold bind at 1.
    unfold ret at 1. cbv beta iota. unfold bind at 1. unfold ret at 1.
    cbv beta iota. unfold bind at 1. rewrite Hg. cbv beta iota.
    unfold bind at 1.
    destruct (checkIsLatest_run node t Hn (mkRef (table_name Tdate st) Tdate)
                field st) as [latest ->].
    cbv beta iota. cbn [accepted]. split; [discriminate|tauto].
  - (* array *)
    unfold insertCheckedArray, getTime. unfold bind at 1. unfold bind at 1.
    unfold ret at 1. cbv beta iota. cbn [accepted].
    destruct (MAX_ARRAY_SIZE <? len (JSON_stringify (VArr elts))) eqn:Hs.
    + apply Z.ltb_lt in Hs. split; [discriminate|lia].
    + apply Z.ltb_ge in Hs.
      unfold bind at 1. rewrite Hg. cbv beta iota.
      destruct (Hrow (VArr elts) jsint true) as (st' & id & Hrun & _).
      cbn [type_of stored] in *. rewrite Hrun.
      split; [intros _; split; [exact Hf|exact Hs]|reflexivity].
Qed.

(** [insertObject] answers for the first level only.  For a valid
    node, a valid timestamp and an initialized store, the call succeeds
    exactly when each property of the value has a name of at most 511
    characters and a value that is not a string of more than 4096
    characters, not an array whose JSON text has more than 16384
    characters and not an invalid date.  What lies below (the
    properties of a property that is an object) is written by calls
    that are not awaited, so their failures never reach the caller. *)
Theorem insertObject_first_level node props t st :
  valid_node node = true -> is_initialized st = true ->
  snd (insertObject node (VObj props) (VDate (Some t)) st) = Ok tt
  <-> Forall (fun kc => len (fst kc) <= MAX_FIELD_SIZE - 1 /\ accepted (snd kc))
        props.
Proof.
  intros Hn Hi. unfold insertObject.
  change (negb (String.eqb (typeof (VObj props)) "object")) with false.
  cbv beta iota. unfold bind at 1. rewrite lock_run, Hi. cbv beta iota.
  unfold insertCheckedObject, own_entries. cbn [entries].
  unfold bind at 1. unfold ret at 1. cbv beta iota.
  apply (Promise_all_iff _ (fun s => is_initialized s = true)); [|exact Hi].
  intros [k c] s _ Hs. cbn [fst snd]. split.
  - unfold is_initialized in *. now rewrite insert_keeps_prefix.
  - rewrite (insert_outcome node _ c t s Hn Hs).
    assert (len ("" ++ "." ++ k) = 1 + len k).
    { unfold len. cbn [append String.length]. lia. }
    unfold MAX_FIELD_SIZE in *. unfold len in *. split; intros [H1 H2]; split;
      try exact H2; lia.
Qed.

End FirstLevel.

Lemma insertObject_first_level_witness :
  snd (insertObject HostJSON.stringify (VStr "id-1")
         (VObj [("a", VObj [("b", VDate None)])]) (VDate (Some 1000))
         example_store)
  = Ok tt.
Proof.
  apply (insertObject_first_level HostJSON.stringify (VStr "id-1")
           [("a", VObj [("b", VDate None)])] 1000 example_store);
    [reflexivity|reflexivity|].
  repeat constructor. unfold len, MAX_FIELD_SIZE. simpl. lia.
Defined.

(* ------------------------------------------------------------------ *)
(** ** What the reads decode *)

Lemma getTableForType_cases type st :
  getTableForType type st = (st, Err NotInitialized)
  \/ exists name, getTableForType type st = (st, Ok (mkRef name type)).
Proof.
  unfold getTableForType.
  destruct (tsdbTablePrefix st) as [p|]; [destruct (String.eqb p "")|]; eauto.
Qed.

Lemma sql_node_cases node st :
  sql_node node st = (st, Ok node) \/ sql_node node st = (st, Err BackendFailure).
Proof.
  destruct node as [| |b|[q| |]|s|d|elts|props|props]; simpl;
    unfold ret, throw; auto.
Qed.

Lemma Forall_set_own {A} (P : A -> Prop) k v (o : list (string * A)) :
  P v -> Forall P (map snd o) -> Forall P (map snd (set_own k v o)).
Proof.
  intros Hv. induction o as [|[k0 v0] o IH]; simpl; intros H.
  - constructor; [exact Hv|constructor].
  - inversion H; subst. destruct (String.eqb k0 k); simpl; constructor; auto.
Qed.

Lemma Forall_js_assign {A} (P : A -> Prop) k v (o : list (string * A)) :
  P v -> Forall P (map snd o) -> Forall P (map snd (js_assign k v o)).
Proof.
  intros Hv H. unfold js_assign. destruct (String.eqb k "__proto__"); [exact H|].
  now apply Forall_set_own.
Qed.

Section Decoding.

Variable JSON_stringify : jsval -> string.
Variable JSON_parse : jsval -> option jsval.

Hypothesis parse_stringify :
  forall elts, len (JSON_stringify (VArr elts)) <= MAX_ARRAY_SIZE ->
               JSON_parse (VStr (JSON_stringify (VArr elts))) <> None.

Local Abbreviation store_ok := (store_ok JSON_stringify).
Local Abbreviation decode := (decode JSON_parse).

Lemma decode_value_ok type v :
  value_ok JSON_stringify type v -> decode type v <> Err SyntaxError.
Proof.
  destruct type; simpl; try discriminate.
  intros (elts & -> & Hlen). specialize (parse_stringify elts Hlen).
  destruct (JSON_parse _); [discriminate|congruence].
Qed.

Lemma decode_stored_rows type st l :
  store_ok st ->
  (forall r, In r l -> In r (rows (get_table type st))) ->
  forall r, In r l -> decode type (row_value r) <> Err SyntaxError.
Proof.
  intros Hok Hsub r Hr. apply decode_value_ok.
  destruct (Hok type) as (Hrows & _). rewrite Forall_forall in Hrows.
  apply (Hrows r (Hsub r Hr)).
Qed.

Lemma updateValueTypes_stored type st l :
  store_ok st ->
  (forall r, In r l -> In r (rows (get_table type st))) ->
  updateValueTypes JSON_parse type l <> Err SyntaxError.
Proof.
  intros Hok Hsub.
  destruct (updateValueTypes_ok JSON_parse type l
              (decode_stored_rows type st l Hok Hsub)) as (out & -> & _).
  discriminate.
Qed.

Lemma limit_rows_In limit l r : In r (limit_rows limit l) -> In r l.
Proof.
  unfold limit_rows. destruct limit as [| | |[q| |]| | | | |]; auto.
  apply firstn_In.
Qed.

Lemma getSeries_loop_decodes node field when_ms limit st :
  store_ok st ->
  forall ts,
    snd (getSeries_loop JSON_parse node field when_ms limit ts st)
    <> Err SyntaxError.
Proof.
  intros Hok ts. induction ts as [|type ts IH]; simpl; [discriminate|].
  unfold bind at 1.
  destruct (getTableForType_cases type st) as [-> |(name & ->)];
    [discriminate|].
  unfold bind at 1.
  destruct (sql_node_cases node st) as [-> | ->]; [|discriminate].
  unfold bind at 1.
  destruct when_ms as [t|]; [|discriminate]. cbn [sql_timestamp].
  unfold ret at 1. cbv beta iota.
  unfold bind, sqlapi_select. cbn [ref_type].
  destruct (0 <? Z.of_nat _); [|exact IH].
  unfold lift. cbn [snd]. apply (updateValueTypes_stored type st); [exact Hok|].
  intros r Hr. apply limit_rows_In in Hr.
  apply (Permutation_in _ (desc_perm _)) in Hr. apply filter_In in Hr. tauto.
Qed.

Lemma getSeries_decodes node field when limit st :
  store_ok st ->
  snd (getSeries JSON_parse node field when limit st) <> Err SyntaxError.
Proof.
  intros Hok. unfold getSeries.
  destruct (negb (isNode node)); [discriminate|].
  destruct (negb (valid_limit limit)); [discriminate|].
  destruct field; try discriminate.
  destruct (negb (isDate when)); [discriminate|].
  unfold bind at 1. destruct when; try discriminate. cbn [getTime].
  unfold ret at 1. cbv beta iota.
  unfold bind, detached. rewrite lock_run. cbn [fst].
  now apply getSeries_loop_decodes.
Qed.

Lemma assign_path_decodes interior :
  forall last lf o,
    lf <> Err SyntaxError ->
    assign_path interior last lf o <> Err SyntaxError.
Proof.
  induction interior as [|field rest IH]; intros last lf o Hlf; simpl.
  - destruct lf; [discriminate|congruence].
  - destruct (get_own "hasOwnProperty" o); [discriminate|].
    destruct (get_own field o) as [[| | | | | | |child|]|]; try discriminate.
    + destruct rest; [|discriminate]. destruct lf; [discriminate|congruence].
    + specialize (IH last lf child Hlf).
      destruct (assign_path rest last lf child); [discriminate|exact IH].
    + specialize (IH last lf [] Hlf).
      destruct (assign_path rest last lf []); [discriminate|exact IH].
Qed.

Lemma convertToObject_decodes m :
  Forall (fun e => decode (entry_type e) (entry_value e) <> Err SyntaxError)
    (map snd m) ->
  convertToObject JSON_parse m <> Err SyntaxError.
Proof.
  intros Hm. unfold convertToObject.
  assert (H : forall keys result,
             convert_keys JSON_parse m keys result <> Err SyntaxError).
  { induction keys as [|k keys IH]; intros result; simpl; [discriminate|].
    assert (Hk : convert_key JSON_parse m result k <> Err SyntaxError).
    { unfold convert_key. destruct (get_own k m) as [e|] eqn:E; [|discriminate].
      apply assign_path_decodes.
      apply get_own_In in E. apply (in_map snd) in E.
      rewrite Forall_forall in Hm. specialize (Hm e E).
      destruct (decode (entry_type e) (entry_value e)); [discriminate|congruence]. }
    destruct (convert_key JSON_parse m result k); [apply IH|exact Hk]. }
  specialize (H (sort_strings (map fst m)) []).
  destruct (convert_keys JSON_parse m _ []); [discriminate|congruence].
Qed.

Lemma asyncpart_decodes node c st :
  store_ok st ->
  forall type m,
    Forall (fun e => decode (entry_type e) (entry_value e) <> Err SyntaxError)
      (map snd m) ->
    match asyncpart node c m type st with
    | (_, Ok m') =>
        Forall (fun e => decode (entry_type e) (entry_value e) <> Err SyntaxError)
          (map snd m')
    | (_, Err e) => e <> SyntaxError
    end.
Proof.
  intros Hok type m Hm. unfold asyncpart. unfold bind at 1.
  destruct (getTableForType_cases type st) as [-> |(name & ->)];
    [discriminate|].
  unfold bind at 1.
  destruct (sql_node_cases node st) as [-> | ->]; [|discriminate].
  unfold bind at 1.
  assert (Hc : (exists f, sql_condition c st = (st, Ok f))
               \/ sql_condition c st = (st, Err BackendFailure)).
  { destruct c as [[t|]|]; simpl; unfold bind, ret, throw; eauto. }
  destruct Hc as [(f & ->)| ->]; [|discriminate].
  unfold bind, sqlapi_select, ret. cbn [ref_type].
  assert (Hrows : forall r,
             In r (order_by_timestamp_asc
                     (filter (fun r => node_eqb (row_node r) node && f r)
                        (rows (get_table type st)))) ->
             decode type (row_value r) <> Err SyntaxError).
  { apply (decode_stored_rows type st); [exact Hok|].
    intros r Hr. apply (Permutation_in _ (asc_perm _)) in Hr.
    apply filter_In in Hr. tauto. }
  revert m Hm Hrows. generalize (order_by_timestamp_asc
                     (filter (fun r => node_eqb (row_node r) node && f r)
                        (rows (get_table type st)))).
  intros l. induction l as [|r l IH]; intros m Hm Hrows; [exact Hm|].
  simpl. apply IH.
  - apply Forall_js_assign; [|exact Hm]. cbn [entry_type entry_value].
    apply Hrows. now left.
  - intros x Hx. apply Hrows. now right.
Qed.

Lemma merge_decodes node c st :
  store_ok st ->
  forall ts m,
    Forall (fun e => decode (entry_type e) (entry_value e) <> Err SyntaxError)
      (map snd m) ->
    match foldM (asyncpart node c) ts m st with
    | (_, Ok m') =>
        Forall (fun e => decode (entry_type e) (entry_value e) <> Err SyntaxError)
          (map snd m')
    | (_, Err e) => e <> SyntaxError
    end.
Proof.
  intros Hok ts. induction ts as [|type ts IH]; intros m Hm; [exact Hm|].
  simpl. unfold bind.
  assert (H := asyncpart_decodes node c st Hok type m Hm).
  destruct (asyncpart node c m type st) as [st1 [m1|e]] eqn:E; [|exact H].
  assert (st1 = st) as ->.
  { assert (Hk : keeps eq (asyncpart node c m type))
      by (unfold asyncpart; keeps_eq).
    specialize (Hk st). rewrite E in Hk. now symmetry. }
  apply IH, H.
Qed.

Lemma synthesizeObjectParameterized_decodes answers node c st :
  store_ok st ->
  snd (synthesizeObjectParameterized JSON_parse answers node c st)
  <> Err SyntaxError.
Proof.
  intros Hok. unfold synthesizeObjectParameterized.
  destruct (negb (isNode node)); [discriminate|]. unfold bind.
  assert (H := merge_decodes node c st Hok answers [] (Forall_nil _)).
  destruct (foldM (asyncpart node c) answers [] st) as [st1 [m|e]];
    [|cbn [snd]; congruence].
  unfold lift. cbn [snd]. now apply convertToObject_decodes.
Qed.

Lemma synthesizeObject_decodes answers node st :
  store_ok st ->
  snd (synthesizeObject JSON_parse answers node st) <> Err SyntaxError.
Proof.
  intros Hok. unfold synthesizeObject, bind. rewrite lock_run.
  destruct (is_initialized st); [|discriminate].
  now apply synthesizeObjectParameterized_decodes.
Qed.

Lemma synthesizeObjectAt_decodes answers node date st :
  store_ok st ->
  snd (synthesizeObjectAt JSON_parse answers node date st) <> Err SyntaxError.
Proof.
  intros Hok. unfold synthesizeObjectAt. unfold bind at 1. rewrite lock_run.
  destruct (is_initialized st); [|discriminate].
  unfold bind. destruct date; try discriminate. cbn [getTime]. unfold ret.
  now apply synthesizeObjectParameterized_decodes.
Qed.

End Decoding.

Section ReadsDecode.

Variable JSON_stringify : jsval -> string.
Variable JSON_parse : jsval -> option jsval.
Variable sql_value_eq : ty -> jsval -> jsval -> bool.

Hypothesis parse_stringify :
  forall elts, len (JSON_stringify (VArr elts)) <= MAX_ARRAY_SIZE ->
               JSON_parse (VStr (JSON_stringify (VArr elts))) <> None.

Local Abbreviation store_ok := (store_ok JSON_stringify).
Local Abbreviation search := (search JSON_stringify JSON_parse sql_value_eq).
Local Abbreviation run_calls := (run_calls JSON_stringify JSON_parse sql_value_eq).

Lemma search_query_decodes field v type when_ms limit st :
  store_ok st ->
  snd (search_query JSON_parse sql_value_eq field v type when_ms limit st)
  <> Err SyntaxError.
Proof.
  intros Hok. unfold search_query. unfold bind at 1. rewrite lock_run.
  destruct (is_initialized st); [|discriminate].
  unfold bind at 1.
  destruct (getTableForType_cases type st) as [-> |(name & ->)];
    [discriminate|].
  unfold bind at 1.
  destruct (sql_node_cases v st) as [-> | ->]; [|discriminate].
  unfold bind at 1.
  destruct when_ms as [t|]; [|discriminate]. cbn [sql_timestamp].
  unfold ret at 1. cbv beta iota.
  unfold bind, sqlapi_select, lift, ret. cbn [ref_type].
  assert (H := updateValueTypes_stored JSON_stringify JSON_parse parse_stringify
                 type st
                 (limit_rows limit
                    (order_by_timestamp_desc
                       (filter (fun r => String.eqb (row_field r) field
                                         && sql_value_eq type (row_value r) v
                                         && (row_timestamp r <=? t))
                          (rows (get_table type st)))))
                 Hok).
  destruct (updateValueTypes JSON_parse type _) as [out|e]; [discriminate|].
  cbn [snd]. intros [= ->]. apply H; [|reflexivity].
  intros r Hr. apply limit_rows_In in Hr.
  apply (Permutation_in _ (desc_perm _)) in Hr. apply filter_In in Hr. tauto.
Qed.

Lemma search_decodes field value when limit st :
  store_ok st -> snd (search field value when limit st) <> Raised SyntaxError.
Proof.
  intros Hok. unfold search.
  destruct (negb (valid_limit limit)); [discriminate|].
  destruct field; try discriminate.
  destruct (negb (isDate when)); [discriminate|].
  destruct when; try discriminate. cbn [getTime]. unfold ret.
  destruct (reform JSON_stringify value) as [[v type]|]; [|discriminate].
  assert (H := search_query_decodes s v type t limit st Hok).
  destruct (search_query JSON_parse sql_value_eq s v type t limit st)
    as [st' [found|e]]; [discriminate|].
  cbn [snd] in *. congruence.
Qed.

(** No read finds text that [JSON.parse] refuses.  When the host's
    parser accepts the text that its [JSON.stringify] gives for an array
    (of at most 16384 characters), in every store that a session
    reaches, from the tables as [createTable] makes them, after
    [initialize] and any sequence of calls with any arguments,
    [synthesizeObject], [synthesizeObjectAt], [getSeries] and [search]
    never fail with the parser's SyntaxError, whatever their
    arguments and the order of the answers: the array partition holds
    nothing but texts that [insertCheckedArray] made. *)
Theorem reachable_reads_decode
    prefix cs answers node field value when limit date :
  let st := run_calls cs (after (initialize prefix) fresh_database) in
  snd (synthesizeObject JSON_parse answers node st) <> Err SyntaxError
  /\ snd (synthesizeObjectAt JSON_parse answers node date st) <> Err SyntaxError
  /\ snd (getSeries JSON_parse node field when limit st) <> Err SyntaxError
  /\ snd (search field value when limit st) <> Raised SyntaxError.
Proof.
  intros st.
  assert (Hok : store_ok st).
  { apply run_calls_invariant.
    - intros. now apply store_ok_insertObject.
    - apply store_ok_removed.
    - intros type. rewrite initialize_tables. repeat split; constructor. }
  split; [now apply synthesizeObject_decodes with JSON_stringify|].
  split; [now apply synthesizeObjectAt_decodes with JSON_stringify|].
  split; [now apply getSeries_decodes with JSON_stringify|].
  now apply search_decodes.
Qed.

End ReadsDecode.

Lemma reachable_reads_decode_witness :
  let st := run_calls HostJSON.stringify lenient_parse (fun _ => node_eqb)
              example_session (after (initialize (VStr "example")) fresh_database) in
  snd (synthesizeObject lenient_parse types (VStr "id-1") st) <> Err SyntaxError
  /\ snd (synthesizeObjectAt lenient_parse types (VStr "id-1") (VDate (Some 1500)) st)
     <> Err SyntaxError
  /\ snd (getSeries lenient_parse (VStr "id-1") (VStr ".e") (VDate (Some 2000))
            (jsint 5) st)
     <> Err SyntaxError
  /\ snd (search HostJSON.stringify lenient_parse (fun _ => node_eqb) (VStr ".e")
            (VArr [jsint 1; jsint 2]) (VDate (Some 2000)) (jsint 5) st)
     <> Raised SyntaxError.
Proof.
  intros st.
  apply (reachable_reads_decode HostJSON.stringify lenient_parse
           (fun _ => node_eqb)).
  intros elts _. unfold lenient_parse.
  destruct (HostJSON.parse _); discriminate.
Defined.

(* ------------------------------------------------------------------ *)
(** ** Unflattening is the inverse of flattening *)

Section Unflatten.

Variable JSON_stringify : jsval -> string.
Variable JSON_parse : jsval -> option jsval.

Local Abbreviation stored := (stored JSON_stringify).
Local Abbreviation round_trip_object := (round_trip_object JSON_stringify JSON_parse).

(** [convertToObject] rebuilds a nested object from its flattened form.
    Let [O] be a nested object with distinct, plain property names, no
    empty sub-object and leaves that the codec stores and gives back,
    and let [m] map the dotted path of each leaf of [O], and nothing
    else, to the entry of that leaf: its stored value, its type and the
    instant [t].  Then [convertToObject] turns [m] into [O] with each
    leaf [v] as [{value: v, timestamp}], up to the order of the
    properties, whatever the order of the keys of [m]. *)
Theorem convertToObject_rebuilds O t m :
  valid_time t -> round_trip_object O ->
  (forall f e,
      get_own f m = Some e
      <-> exists v, In (f, v) (leaves "" O)
                    /\ e = mkEntry (stored v) (type_of v) t) ->
  exists o,
    convertToObject JSON_parse m = Ok (VObj o)
    /\ same_object (VObj o) (decorate (VDate (Some t)) O).
Proof.
  intros Ht (props & -> & Hnd & Hch) Hm.
  apply (convertToObject_leaves JSON_stringify JSON_parse t Ht props Hnd Hch m).
  - intros k e Hk. now apply Hm.
  - intros f v Hfv. apply Hm. eauto.
Qed.

End Unflatten.

Lemma convertToObject_rebuilds_witness :
  let O := VObj [("c", VBool true); ("a", VObj [("b", jsint 1)])] in
  let m := [(".c", mkEntry (jsint 1) Tboolean 1000);
            (".a.b", mkEntry (jsint 1) Tnumber 1000)] in
  exists o,
    convertToObject HostJSON.parse m = Ok (VObj o)
    /\ same_object (VObj o) (decorate (VDate (Some 1000)) O).
Proof.
  intros O m.
  apply (convertToObject_rebuilds HostJSON.stringify HostJSON.parse O 1000 m).
  - unfold valid_time. simpl. lia.
  - eexists. split; [reflexivity|]. split.
    + repeat constructor; simpl; intuition discriminate.
    + assert (Hlen : forall s, (String.length s <= 500)%nat ->
                               1 <= len ("." ++ s) <= MAX_FIELD_SIZE).
      { intros s Hs. unfold len, MAX_FIELD_SIZE. cbn [append String.length]. lia. }
      intros k c [[= <- <-]|[[= <- <-]|[]]].
      * split; [repeat split; discriminate|].
        apply storable_leaf; [apply Hlen; simpl; lia|exact I].
      * split; [repeat split; discriminate|].
        apply storable_object;
          [apply Hlen; simpl; lia|discriminate|repeat constructor; simpl; tauto|].
        intros k c [[= <- <-]|[]].
        split; [repeat split; discriminate|].
        apply storable_leaf; [|exact I].
        unfold len, MAX_FIELD_SIZE. simpl. lia.
  - intros f e. unfold m, O, leaves. cbn [paths_of flat_map map app fst snd dotted].
    cbn [get_own]. split.
    + destruct (String.eqb_spec ".c" f) as [<-|Hc].
      * intros [= <-]. exists (VBool true). split; [now left|reflexivity].
      * destruct (String.eqb_spec ".a.b" f) as [<-|Hab]; [|discriminate].
        intros [= <-]. exists (jsint 1). split; [right; now left|reflexivity].
    + intros (v & [[= <- <-]|[[= <- <-]|[]]] & ->); reflexivity.
Defined.
